(** * ab-flasher [config.py]: locating the flashed volume and writing its
      first-boot configuration.

    A shallow embedding of [config.py].  Python strings are Rocq strings
    (one [ascii] per code point, so code points below 256), optional
    settings are [option string] ([None] is Python's [None]), and the code
    that talks to the operating system runs in a state-and-exception monad
    over a model of the file system.

    The file system is a finite map from path strings to nodes.  A path is
    identified with its string: no normalisation of [..], doubled
    separators or symbolic links is modelled.  A map is well formed when
    every entry has directories at all the paths above it; on such a map
    the calls answer as the real ones do (a missing entry is
    [FileNotFoundError], or [NotADirectoryError] when a regular file sits
    above it; a file is created only in an existing directory), and the
    calls keep a map well formed.  Every operation first consults a table
    of environment faults (permissions, read-only or full media, I/O
    errors), so statements quantified over all worlds cover runs in which
    any call fails.  The order in which a directory is listed is the
    environment's as well.  Every call is appended to a trace, which is
    how "is not attempted" and "no further mounts are examined" are
    stated.  Logging is not modelled. *)

From Stdlib Require Import Ascii String List Arith Lia Bool.
From stdpp Require Import base numbers option list sorting gmap strings fin_maps.

Import ListNotations.
Local Open Scope string_scope.
Local Open Scope list_scope.

(** ** Python strings *)

Module PyStr.

Definition nl : string := String "010"%char EmptyString.
Definition dquote : string := String "034"%char EmptyString.

(** [str.isspace] on one code point below 256, as [str.split()] uses it. *)
Definition is_space (c : ascii) : bool :=
  let n := nat_of_ascii c in
  (((9 <=? n)%nat && (n <=? 13)%nat) || ((28 <=? n)%nat && (n <=? 32)%nat)
   || (n =? 133)%nat || (n =? 160)%nat)%bool.

Definition snoc (s : string) (c : ascii) : string := s +:+ String c EmptyString.

Definition flush (cur : string) : list string :=
  match cur with EmptyString => [] | _ => [cur] end.

(** [s.split()]: maximal runs of non-whitespace characters. *)
Fixpoint split_go (cur : string) (s : string) : list string :=
  match s with
  | EmptyString => flush cur
  | String c r =>
      if is_space c then flush cur ++ split_go EmptyString r
      else split_go (snoc cur c) r
  end.

Definition split (s : string) : list string := split_go EmptyString s.

(** [f.readlines()] of a file opened in text mode with the default
    [newline=None]: lines end at "\n", "\r" or "\r\n", each handed over as
    "\n", and the last line may lack a terminator. *)
Fixpoint readlines_go (cur : string) (s : string) : list string :=
  match s with
  | EmptyString => flush cur
  | String c r =>
      if Ascii.eqb c "010"%char then (cur +:+ nl) :: readlines_go EmptyString r
      else if Ascii.eqb c "013"%char then
        (cur +:+ nl) ::
        readlines_go EmptyString
          (match r with
           | String c' r' => if Ascii.eqb c' "010"%char then r' else r
           | EmptyString => r
           end)
      else readlines_go (snoc cur c) r
  end.

Definition file_lines (s : string) : list string :=
  readlines_go EmptyString s.

(** [s.startswith('/')] and [s.endswith('/')]. *)
Definition startswith_sep (s : string) : bool :=
  match s with String c _ => Ascii.eqb c "/"%char | EmptyString => false end.

Fixpoint last_char (s : string) : option ascii :=
  match s with
  | EmptyString => None
  | String c r => match r with EmptyString => Some c | _ => last_char r end
  end.

Definition endswith_sep (s : string) : bool :=
  match last_char s with Some c => Ascii.eqb c "/"%char | None => false end.

(** [bool(s)] for a setting that may be [None]. *)
Definition truthy (o : option string) : bool :=
  match o with
  | Some (String _ _) => true
  | _ => false
  end.

(** [f'{v}'] for a value that is a [str] or [None]. *)
Definition format (o : option string) : string :=
  match o with Some s => s | None => "None" end.

End PyStr.

(** [os.path.join(a, b)] of [posixpath]. *)
Definition path_join (a b : string) : string :=
  if PyStr.startswith_sep b then b
  else if (String.eqb a EmptyString || PyStr.endswith_sep a)%bool then a +:+ b
  else a +:+ "/" +:+ b.

(** ** The settings record ([class Variables]) *)

Record Variables := {
  final_image : string;
  ssh_key : option string;
  ssh_ca_key : option string;
  wifi_country : string;
  wifi_ssid : option string;
  wifi_password : option string
}.

Definition CONFIG_FLAG : string := ".configure_me".

(** ** Exceptions, file system, monad *)

Inductive exn :=
| FileNotFoundError
| PermissionError
| IsADirectoryError
| NotADirectoryError
| FileExistsError
| OSError (errno : nat)
| IndexError
| TypeError
| Exception (msg : string).

#[global] Instance exn_eq_dec : EqDecision exn.
Proof. solve_decision. Defined.

Inductive node :=
| File (content : string)
| Dir.

#[global] Instance node_eq_dec : EqDecision node.
Proof. solve_decision. Defined.

(** Calls into the operating system, as [config.py] makes them. *)
Inductive oscall :=
| Listdir (p : string)
| OpenR (p : string)
| Readlines (p : string)
| Makedirs (p : string)
| OpenW (p : string)
| Write (p : string) (data : string)
| Remove (p : string).

#[global] Instance oscall_eq_dec : EqDecision oscall.
Proof. solve_decision. Defined.

Record world := World {
  fs : gmap string node;
  faults : oscall -> option exn;
  trace : list oscall;
  (** the place of a name in the listing of a directory: lower comes first *)
  listing_rank : string -> nat
}.

Inductive result (A : Type) :=
| Ok (a : A)
| Raise (e : exn).
Arguments Ok {A} a.
Arguments Raise {A} e.

Definition M (A : Type) : Type := world -> result A * world.

Definition ret {A} (a : A) : M A := fun w => (Ok a, w).
Definition raise {A} (e : exn) : M A := fun w => (Raise e, w).
Definition bind {A B} (m : M A) (k : A -> M B) : M B :=
  fun w => match m w with
           | (Ok a, w') => k a w'
           | (Raise e, w') => (Raise e, w')
           end.

#[global] Instance M_ret : MRet M := @ret.
#[global] Instance M_bind : MBind M := fun A B k m => bind m k.

(** [try: body / except <handles>: pass] followed by [rest]; the body ends
    in [return], so [rest] runs only after a handled exception. *)
Definition try_except {A} (body : M A) (handles : exn -> bool) (rest : M A) : M A :=
  fun w => match body w with
           | (Ok a, w') => (Ok a, w')
           | (Raise e, w') => if handles e then rest w' else (Raise e, w')
           end.

Definition is_FileNotFoundError (e : exn) : bool :=
  match e with FileNotFoundError => true | _ => false end.

(** *** Operating-system calls *)

Definition log_call (c : oscall) (w : world) : world :=
  World (fs w) (faults w) (trace w ++ [c]) (listing_rank w).

Definition set_fs (f : gmap string node -> gmap string node) (w : world) : world :=
  World (f (fs w)) (faults w) (trace w) (listing_rank w).

(** A call is recorded, then either fails with the fault the environment
    holds for it, leaving the files as they are, or behaves normally. *)
Definition oscall_with {A} (c : oscall) (normal : M A) : M A :=
  fun w => match faults w c with
           | Some e => (Raise e, log_call c w)
           | None => normal (log_call c w)
           end.

(** The proper prefixes of a path that end just before a separator: the
    directories above it, the nearest last. *)
Fixpoint ancestors_go (acc : string) (p : string) : list string :=
  match p with
  | EmptyString => []
  | String c r =>
      (if Ascii.eqb c "/"%char then PyStr.flush acc else [])
      ++ ancestors_go (PyStr.snoc acc c) r
  end.

Definition ancestors (p : string) : list string := ancestors_go EmptyString p.

(** The directory a path lies in; none for a bare name and for a name
    directly under the root, whose directory is always there. *)
Definition parent (p : string) : option string := last (ancestors p).

Definition is_file (m : gmap string node) (p : string) : bool :=
  match m !! p with Some (File _) => true | _ => false end.

Definition is_dir (m : gmap string node) (p : string) : bool :=
  match m !! p with Some Dir => true | _ => false end.

(** A regular file sits where a directory above [p] should be. *)
Definition blocked (m : gmap string node) (p : string) : bool :=
  existsb (is_file m) (ancestors p).

(** What looking up an entry that is not there raises. *)
Definition missing_error (m : gmap string node) (p : string) : exn :=
  if blocked m p then NotADirectoryError else FileNotFoundError.

Fixpoint strip_prefix (pre s : string) : option string :=
  match pre with
  | EmptyString => Some s
  | String c pre' =>
      match s with
      | String c' s' => if Ascii.eqb c c' then strip_prefix pre' s' else None
      | EmptyString => None
      end
  end.

Fixpoint has_sep (s : string) : bool :=
  match s with
  | EmptyString => false
  | String c r => (Ascii.eqb c "/"%char || has_sep r)%bool
  end.

Definition dir_prefix (p : string) : string :=
  if PyStr.endswith_sep p then p else p +:+ "/".

(** The name under which [q] is an immediate child of directory [p]. *)
Definition child_name (p q : string) : option string :=
  match strip_prefix (dir_prefix p) q with
  | Some (String c r) => if has_sep (String c r) then None else Some (String c r)
  | _ => None
  end.

(** The entry names of directory [p], each once, in no order that means
    anything. *)
Definition children (p : string) (m : gmap string node) : list string :=
  omap (child_name p) ((map_to_list m).*1).

(** The order of a listing is the environment's: the names come sorted by
    the rank the world gives them. *)
Definition by_rank (rank : string -> nat) : relation string :=
  fun x y => (rank x <= rank y)%nat.

#[global] Instance by_rank_dec rank x y : Decision (by_rank rank x y) :=
  decide (rank x <= rank y)%nat.

Definition listing (w : world) (p : string) : list string :=
  merge_sort (by_rank (listing_rank w)) (children p (fs w)).

(** The rank that lists the names of [order] as they come there, and any
    other name after them. *)
Fixpoint rank_in (order : list string) (x : string) : nat :=
  match order with
  | [] => 0
  | y :: r => if String.eqb x y then 0 else S (rank_in r x)
  end.

(** The world [w] in an environment that lists by [rank]. *)
Definition with_rank (rank : string -> nat) (w : world) : world :=
  World (fs w) (faults w) (trace w) rank.

(** [os.listdir(p)]. *)
Definition listdir (p : string) : M (list string) :=
  oscall_with (Listdir p) (fun w =>
    match fs w !! p with
    | None => (Raise (missing_error (fs w) p), w)
    | Some (File _) => (Raise NotADirectoryError, w)
    | Some Dir => (Ok (listing w p), w)
    end).

(** [open(p)] and [open(p, 'r')]. *)
Definition open_r (p : string) : M unit :=
  oscall_with (OpenR p) (fun w =>
    match fs w !! p with
    | None => (Raise (missing_error (fs w) p), w)
    | Some Dir => (Raise IsADirectoryError, w)
    | Some (File _) => (Ok tt, w)
    end).

(** [f.readlines()] on the file opened at [p]. *)
Definition readlines (p : string) : M (list string) :=
  oscall_with (Readlines p) (fun w =>
    match fs w !! p with
    | Some (File c) => (Ok (PyStr.file_lines c), w)
    | _ => (Raise (OSError 9), w)
    end).

Definition mkdir_missing (p : string) (m : gmap string node) : gmap string node :=
  match m !! p with
  | None => <[p := Dir]> m
  | Some _ => m
  end.

(** [os.makedirs(p, exist_ok=True)]: an existing directory is left alone,
    otherwise the directory and every missing directory above it are
    created; a file in the way is an error. *)
Definition makedirs (p : string) : M unit :=
  oscall_with (Makedirs p) (fun w =>
    match fs w !! p with
    | Some Dir => (Ok tt, w)
    | Some (File _) => (Raise FileExistsError, w)
    | None =>
        if existsb (is_file (fs w)) (ancestors p) then (Raise NotADirectoryError, w)
        else (Ok tt, set_fs (fun m => foldr mkdir_missing m (p :: ancestors p)) w)
    end).

(** [open(p, 'w')]: truncates the file that is there, or creates it in its
    directory, which must exist. *)
Definition open_w (p : string) : M unit :=
  oscall_with (OpenW p) (fun w =>
    let created := set_fs (fun m => <[p := File EmptyString]> m) w in
    match fs w !! p with
    | Some Dir => (Raise IsADirectoryError, w)
    | Some (File _) => (Ok tt, created)
    | None =>
        if blocked (fs w) p then (Raise NotADirectoryError, w)
        else match parent p with
             | Some d =>
                 if is_dir (fs w) d then (Ok tt, created)
                 else (Raise FileNotFoundError, w)
             | None => (Ok tt, created)
             end
    end).

(** [f.write(data)] on the file opened for writing at [p]. *)
Definition write (p : string) (data : string) : M unit :=
  oscall_with (Write p data) (fun w =>
    match fs w !! p with
    | Some (File c) => (Ok tt, set_fs (fun m => <[p := File (c +:+ data)]> m) w)
    | _ => (Raise (OSError 9), w)
    end).

(** [os.remove(p)]. *)
Definition os_remove (p : string) : M unit :=
  oscall_with (Remove p) (fun w =>
    match fs w !! p with
    | None => (Raise (missing_error (fs w) p), w)
    | Some Dir => (Raise IsADirectoryError, w)
    | Some (File _) => (Ok tt, set_fs (fun m => delete p m) w)
    end).

(** ** The program *)

Definition UnsupportedPlatform : exn :=
  Exception "Couldn't list mounts. Maybe you're on Windows (not implemented)".

Definition TargetNotFound : exn :=
  Exception "Couldn't find the flashed drive. Maybe it's already configured".

(** [xs[i]] *)
Definition index {A} (xs : list A) (i : nat) : M A :=
  match nth_error xs i with
  | Some x => ret x
  | None => raise IndexError
  end.

(** [[ f(x) for x in xs ]] where [f] may raise. *)
Fixpoint comprehension {A B} (f : A -> M B) (xs : list A) : M (list B) :=
  match xs with
  | [] => ret []
  | x :: rest =>
      y ← f x;
      ys ← comprehension f rest;
      ret (y :: ys)
  end.

Definition get_mounts : M (list string) :=
  (* macos *)
  try_except
    (ds ← listdir "/Volumes";
     ret (map (fun d => "/Volumes/" +:+ d) ds))
    is_FileNotFoundError
  (* linux *)
  (try_except
    (open_r "/proc/mounts";;
     lines ← readlines "/proc/mounts";
     comprehension (fun m => index (PyStr.split m) 1) lines)
    is_FileNotFoundError
  (raise UnsupportedPlatform)).

(** The [for mount in ...] loop of [find_data_mount]: the bare [except]
    catches whatever the open raises and the loop goes on; [return mount],
    which cannot raise, is the end of the guarded body here. *)
Fixpoint find_data_mount_in (mounts : list string) : M string :=
  match mounts with
  | [] => raise TargetNotFound
  | mount :: rest =>
      let flag_file := path_join mount CONFIG_FLAG in
      try_except
        (open_r flag_file;; ret mount)
        (fun _ => true)
        (find_data_mount_in rest)
  end.

Definition find_data_mount : M string :=
  mounts ← get_mounts;
  find_data_mount_in mounts.

Definition make_supplicant (country : string) (ssid pw : option string) : string :=
  "ctrl_interface=DIR=/var/run/wpa_supplicant GROUP=netdev" +:+ PyStr.nl +:+
  "update_config=1" +:+ PyStr.nl +:+
  "country=" +:+ country +:+ PyStr.nl +:+
  PyStr.nl +:+
  "network={" +:+ PyStr.nl +:+
  " ssid=" +:+ PyStr.dquote +:+ PyStr.format ssid +:+ PyStr.dquote +:+ PyStr.nl +:+
  " psk=" +:+ PyStr.dquote +:+ PyStr.format pw +:+ PyStr.dquote +:+ PyStr.nl +:+
  "}" +:+ PyStr.nl.

(** [with open(p, 'w') as f: body]; closing the file changes nothing in
    the model, the data is in the file when [write] returns. *)
Definition with_open_w {A} (p : string) (body : string -> M A) : M A :=
  open_w p;; body p.

(** [v + s] for a setting [v]: [None + s] is a [TypeError]. *)
Definition str_add (v : option string) (s : string) : M string :=
  match v with
  | Some x => ret (x +:+ s)
  | None => raise TypeError
  end.

(** The closure [make_data_dir] of [main]. *)
Definition make_data_dir (data_mount name : string) : M string :=
  let dir := path_join data_mount name in
  makedirs dir;;
  ret dir.

(** [main] from [vars = Variables()] on: the settings record is the
    argument and the branch that writes a fresh [.env] and returns is not
    part of the model.  The three commented blocks of [main] are named
    after their comments. *)

(* SSH *)
Definition configure_ssh (vars : Variables) (data_mount : string) : M unit :=
  if PyStr.truthy (ssh_key vars) then
    ssh_dir ← make_data_dir data_mount "ssh";
    with_open_w (path_join ssh_dir "authorized_keys") (fun f =>
      line ← str_add (ssh_key vars) PyStr.nl;
      write f line)
  else ret tt.

(* WiFi *)
Definition configure_wifi (vars : Variables) (data_mount : string) : M unit :=
  if PyStr.truthy (wifi_ssid vars) then
    wifi_dir ← make_data_dir data_mount "wifi";
    with_open_w (path_join wifi_dir "wpa_supplicant.conf") (fun f =>
      write f (make_supplicant (wifi_country vars) (wifi_ssid vars) (wifi_password vars)))
  else ret tt.

(* ab-flasher *)
Definition configure_ab_flasher (vars : Variables) (data_mount : string) : M unit :=
  with_open_w (path_join data_mount "ab-flasher.env") (fun f =>
    write f ("AB_OS_IMAGE_URL=" +:+ final_image vars +:+ PyStr.nl);;
    write f ("AB_FORCE=true" +:+ PyStr.nl);;
    write f ("AB_VERBOSE=1" +:+ PyStr.nl)).

(** Everything [main] does once [data_mount] is bound. *)
Definition main_from (vars : Variables) (data_mount : string) : M unit :=
  configure_ssh vars data_mount;;
  configure_wifi vars data_mount;;
  configure_ab_flasher vars data_mount;;
  let flag_file := path_join data_mount CONFIG_FLAG in
  os_remove flag_file.

Definition main (vars : Variables) : M unit :=
  data_mount ← find_data_mount;
  main_from vars data_mount.

(** ** Vocabulary of the statements *)

Definition flag_file (mount : string) : string := path_join mount CONFIG_FLAG.
Definition ssh_dir (target : string) : string := path_join target "ssh".
Definition authorized_keys (target : string) : string :=
  path_join (ssh_dir target) "authorized_keys".
Definition wifi_dir (target : string) : string := path_join target "wifi".
Definition wpa_supplicant_conf (target : string) : string :=
  path_join (wifi_dir target) "wpa_supplicant.conf".
Definition ab_flasher_env (target : string) : string :=
  path_join target "ab-flasher.env".

(** The marker of [mount] can be opened for reading. *)
Definition marker_readable (w : world) (mount : string) : bool :=
  match faults w (OpenR (flag_file mount)) with
  | Some _ => false
  | None => is_file (fs w) (flag_file mount)
  end.

(** The mounts the scan opens: up to and including the first readable one. *)
Fixpoint examined (w : world) (mounts : list string) : list string :=
  match mounts with
  | [] => []
  | m :: rest => m :: (if marker_readable w m then [] else examined w rest)
  end.

Definition log_calls (cs : list oscall) (w : world) : world :=
  World (fs w) (faults w) (trace w ++ cs) (listing_rank w).

Definition ab_flasher_env_content (image : string) : string :=
  "AB_OS_IMAGE_URL=" +:+ image +:+ PyStr.nl +:+
  "AB_FORCE=true" +:+ PyStr.nl +:+
  "AB_VERBOSE=1" +:+ PyStr.nl.

(** Two-state properties of a computation: it relates every start world
    to the world it ends in, whether it returns or raises. *)
Definition preserves {A} (R : world -> world -> Prop) (m : M A) : Prop :=
  forall w, R w (snd (m w)).

(** the entry at [q] is exactly as before *)
Definition keeps (q : string) (w w' : world) : Prop := fs w' !! q = fs w !! q.
(** a file at [q] is still there with its content *)
Definition keeps_file (q : string) (w w' : world) : Prop :=
  forall c, fs w !! q = Some (File c) -> fs w' !! q = Some (File c).
(** no file appears at [q] *)
Definition no_file_created (q : string) (w w' : world) : Prop :=
  is_file (fs w') q = true -> is_file (fs w) q = true.
(** the fault table is the environment's and never changes *)
Definition same_faults (w w' : world) : Prop := faults w' = faults w.
(** the trace grows by calls that all satisfy [P] *)
Definition calls_only (P : oscall -> Prop) (w w' : world) : Prop :=
  exists cs, trace w' = trace w ++ cs /\ Forall P cs.

Definition same_fs (w w' : world) : Prop := fs w' = fs w.

(** Listing [/Volumes] works: the directory is there and the environment
    lets it be listed. *)
Definition volumes_listable (w : world) : Prop :=
  faults w (Listdir "/Volumes") = None /\ fs w !! "/Volumes" = Some Dir.

(** Listing [/Volumes] raises [FileNotFoundError]. *)
Definition volumes_missing (w : world) : Prop :=
  faults w (Listdir "/Volumes") = Some FileNotFoundError
  \/ (faults w (Listdir "/Volumes") = None /\ fs w !! "/Volumes" = None).


(** [/proc/mounts] can be opened and read, and holds [c]. *)
Definition mount_table_readable (w : world) (c : string) : Prop :=
  faults w (OpenR "/proc/mounts") = None
  /\ faults w (Readlines "/proc/mounts") = None
  /\ fs w !! "/proc/mounts" = Some (File c).




(** [q] is an immediate child entry of [/Volumes]. *)
Definition volume_entry (m : gmap string node) (q : string) : Prop :=
  exists d, q = "/Volumes/" +:+ d /\ is_Some (m !! q)
            /\ d <> EmptyString /\ has_sep d = false.

(** [m.split()[1]], when the line has it. *)
Definition second_field (line : string) : option string :=
  nth_error (PyStr.split line) 1.

Definition volume_path (d : string) : string := "/Volumes/" +:+ d.

(** The shape of the two conditional blocks of [main]: make the directory,
    open the file in it for writing, write the data. *)
Definition write_block (d f data : string) : M unit :=
  makedirs d;; open_w f;; write f data.

(** The three artifact blocks of [main], before the marker is removed. *)
Definition write_artifacts (vars : Variables) (t : string) : M unit :=
  configure_ssh vars t;; configure_wifi vars t;; configure_ab_flasher vars t.

(** [m] makes the calls [l], in this order, and stops short of the end
    of [l] only by raising. *)
Definition emits {A} (m : M A) (l : list oscall) : Prop :=
  forall w, exists l1 l2,
    l = l1 ++ l2
    /\ trace (snd (m w)) = trace w ++ l1
    /\ (forall a, fst (m w) = Ok a -> l2 = []).

(** A call the environment faults ends [m]: [m] raises that fault and
    makes no call after it. *)
Definition aborts_on_fault {A} (m : M A) : Prop :=
  forall w, exists cs,
    trace (snd (m w)) = trace w ++ cs
    /\ faults (snd (m w)) = faults w
    /\ forall c e, In c cs -> faults w c = Some e ->
         fst (m w) = Raise e /\ last cs = Some c.

Definition ssh_calls (vars : Variables) (t : string) : list oscall :=
  if PyStr.truthy (ssh_key vars) then
    [Makedirs (ssh_dir t); OpenW (authorized_keys t);
     Write (authorized_keys t) (PyStr.format (ssh_key vars) +:+ PyStr.nl)]
  else [].

Definition wifi_calls (vars : Variables) (t : string) : list oscall :=
  if PyStr.truthy (wifi_ssid vars) then
    [Makedirs (wifi_dir t); OpenW (wpa_supplicant_conf t);
     Write (wpa_supplicant_conf t)
       (make_supplicant (wifi_country vars) (wifi_ssid vars) (wifi_password vars))]
  else [].

Definition ab_flasher_calls (vars : Variables) (t : string) : list oscall :=
  [OpenW (ab_flasher_env t);
   Write (ab_flasher_env t) ("AB_OS_IMAGE_URL=" +:+ final_image vars +:+ PyStr.nl);
   Write (ab_flasher_env t) ("AB_FORCE=true" +:+ PyStr.nl);
   Write (ab_flasher_env t) ("AB_VERBOSE=1" +:+ PyStr.nl)].

Definition artifact_calls (vars : Variables) (t : string) : list oscall :=
  ssh_calls vars t ++ wifi_calls vars t ++ ab_flasher_calls vars t.

Definition is_read (c : oscall) : bool :=
  match c with
  | Listdir _ | OpenR _ | Readlines _ => true
  | _ => false
  end.

Definition is_remove (c : oscall) : bool :=
  match c with Remove _ => true | _ => false end.

(** The calls a computation adds to the trace when started in [w]. *)
Definition calls_of {A} (m : M A) (w : world) : list oscall :=
  drop (length (trace w)) (trace (snd (m w))).

(** Nothing stands in the way of [makedirs p]: no file at [p] or above. *)
Definition dir_creatable (m : gmap string node) (p : string) : Prop :=
  is_file m p = false /\ Forall (fun a => is_file m a = false) (ancestors p).

(** Nothing stands in the way of [open(p, 'w')]: no directory at [p],
    and where [p] is yet to be created, no file above it and its directory
    in place. *)
Definition file_creatable (m : gmap string node) (p : string) : Prop :=
  m !! p <> Some Dir
  /\ (m !! p = None ->
      Forall (fun a => is_file m a = false) (ancestors p)
      /\ forall d, parent p = Some d -> m !! d = Some Dir).

(** Nothing on the target stands in the way of the artifacts: the two
    directories can be made, no directory is where a file is to go, and
    [ab-flasher.env], which goes straight into the volume, can be
    created there. *)
Definition unobstructed (m : gmap string node) (t : string) : Prop :=
  dir_creatable m (ssh_dir t)
  /\ m !! authorized_keys t <> Some Dir
  /\ dir_creatable m (wifi_dir t)
  /\ m !! wpa_supplicant_conf t <> Some Dir
  /\ file_creatable m (ab_flasher_env t).

Definition fault_free (w : world) : Prop := forall c, faults w c = None.


(** C2 as the specification words it: the WiFi file is written only when
    both the network name and the password are there. *)
Definition wifi_needs_both_as_stated (vars : Variables) (w : world) : Prop :=
  forall t, fst (find_data_mount w) = Ok t ->
    In (OpenW (wpa_supplicant_conf t)) (calls_of (main vars) w) ->
    PyStr.truthy (wifi_ssid vars) = true /\ wifi_password vars <> None.

Module Examples.

Definition no_faults : oscall -> option exn := fun _ => None.

(** For hosts on which nothing is listed. *)
Definition any_order : string -> nat := rank_in [].

(** A Linux host on which [/Volumes] exists but may not be listed. *)
Definition linux_volumes_denied : world :=
  World (list_to_map [("/", Dir); ("/Volumes", Dir); ("/proc", Dir);
                      ("/proc/mounts",
                       File ("/dev/sda1 / ext4 rw 0 0" +:+ PyStr.nl))])
        (fun c => if decide (c = Listdir "/Volumes") then Some PermissionError else None)
        [] any_order.

(** A Linux host: no [/Volumes], the flashed card mounted at [/mnt/boot]. *)
Definition mounts_text : string :=
  "proc /proc proc rw 0 0" +:+ PyStr.nl +:+
  "/dev/sda1 / ext4 rw 0 0" +:+ PyStr.nl +:+
  "/dev/sdb1 /mnt/boot vfat rw 0 0" +:+ PyStr.nl.

Definition linux_host : world :=
  World (list_to_map [("/", Dir); ("/proc", Dir); ("/proc/mounts", File mounts_text);
                      ("/mnt", Dir); ("/mnt/boot", Dir);
                      ("/mnt/boot/.configure_me", File EmptyString)])
        no_faults [] any_order.

(** The same host with an empty line at the end of its mount table. *)
Definition blank_line_text : string := mounts_text +:+ PyStr.nl.

Definition linux_blank_line : world :=
  World (list_to_map [("/", Dir); ("/proc", Dir); ("/proc/mounts", File blank_line_text)])
        no_faults [] any_order.

(** A macOS host with the flashed card mounted as [/Volumes/boot]. *)
Definition mac_host : world :=
  World (list_to_map [("/", Dir); ("/Volumes", Dir);
                      ("/Volumes/Macintosh HD", Dir);
                      ("/Volumes/boot", Dir);
                      ("/Volumes/boot/.configure_me", File EmptyString);
                      ("/Volumes/boot/cmdline.txt", File "console=tty1")])
        no_faults [] (rank_in ["Macintosh HD"; "boot"]).


(** A host without [/Volumes] on which [/proc] is a regular file. *)
Definition proc_is_file : world :=
  World (list_to_map [("/", Dir); ("/proc", File EmptyString)])
        no_faults [] any_order.


(** The same host with a card too full to take the WiFi file. *)
Definition mac_host_card_full : world :=
  World (fs mac_host)
        (fun c => match c with
                  | Write p _ =>
                      if String.eqb p "/Volumes/boot/wifi/wpa_supplicant.conf"
                      then Some (OSError 28) else None
                  | _ => None
                  end)
        [] (listing_rank mac_host).

(** The settings of the round-trip example. *)
Definition full_config : Variables :=
  {| final_image := "http://x/img.gz";
     ssh_key := Some "ssh-ed25519 AAAA... user@host";
     ssh_ca_key := None;
     wifi_country := "US";
     wifi_ssid := Some "Home";
     wifi_password := Some "secret" |}.

(** WiFi name set, password left out. *)
Definition wifi_no_password : Variables :=
  {| final_image := "http://x/img.gz";
     ssh_key := None;
     ssh_ca_key := None;
     wifi_country := "NZ";
     wifi_ssid := Some "Home";
     wifi_password := None |}.

(** Only the required setting. *)
Definition only_image : Variables :=
  {| final_image := "http://x/img.gz";
     ssh_key := None;
     ssh_ca_key := None;
     wifi_country := "NZ";
     wifi_ssid := None;
     wifi_password := Some "secret" |}.

(** The three files of the round-trip example, byte for byte. *)
Definition expected_authorized_keys : string :=
  "ssh-ed25519 AAAA... user@host" +:+ PyStr.nl.

Definition expected_wpa_supplicant : string :=
  "ctrl_interface=DIR=/var/run/wpa_supplicant GROUP=netdev" +:+ PyStr.nl +:+
  "update_config=1" +:+ PyStr.nl +:+
  "country=US" +:+ PyStr.nl +:+
  PyStr.nl +:+
  "network={" +:+ PyStr.nl +:+
  " ssid=" +:+ PyStr.dquote +:+ "Home" +:+ PyStr.dquote +:+ PyStr.nl +:+
  " psk=" +:+ PyStr.dquote +:+ "secret" +:+ PyStr.dquote +:+ PyStr.nl +:+
  "}" +:+ PyStr.nl.

Definition expected_ab_flasher_env : string :=
  "AB_OS_IMAGE_URL=http://x/img.gz" +:+ PyStr.nl +:+
  "AB_FORCE=true" +:+ PyStr.nl +:+
  "AB_VERBOSE=1" +:+ PyStr.nl.

End Examples.

(** ** The rest of [config.py]: [strip] *)

Module PyText.

Definition nl_char : ascii := "010"%char.

(** [s.split(sep)] for a one-character separator: a cut at every
    occurrence, empty pieces kept, never the empty list. *)
Fixpoint split_on_go (sep : ascii) (cur : string) (s : string) : list string :=
  match s with
  | EmptyString => [cur]
  | String c r =>
      if Ascii.eqb c sep then cur :: split_on_go sep EmptyString r
      else split_on_go sep (PyStr.snoc cur c) r
  end.

Definition split_on (sep : ascii) (s : string) : list string :=
  split_on_go sep EmptyString s.

(** [s.lstrip()], [s.rstrip()], [s.strip()]: whitespace off the ends. *)
Fixpoint lstrip (s : string) : string :=
  match s with
  | EmptyString => EmptyString
  | String c r => if PyStr.is_space c then lstrip r else s
  end.

Fixpoint rstrip (s : string) : string :=
  match s with
  | EmptyString => EmptyString
  | String c r =>
      match rstrip r with
      | EmptyString => if PyStr.is_space c then EmptyString else String c EmptyString
      | r' => String c r'
      end
  end.

Definition strip (s : string) : string := rstrip (lstrip s).

(** [sep.join(l)] *)
Fixpoint join (sep : string) (l : list string) : string :=
  match l with
  | [] => EmptyString
  | x :: rest =>
      match rest with
      | [] => x
      | _ => x +:+ sep +:+ join sep rest
      end
  end.

Fixpoint has_char (c : ascii) (s : string) : bool :=
  match s with
  | EmptyString => false
  | String c' r => (Ascii.eqb c' c || has_char c r)%bool
  end.

Definition starts_space (s : string) : bool :=
  match s with String c _ => PyStr.is_space c | EmptyString => false end.

Definition ends_space (s : string) : bool :=
  match PyStr.last_char s with Some c => PyStr.is_space c | None => false end.

Fixpoint has_space (s : string) : bool :=
  match s with
  | EmptyString => false
  | String c r => (PyStr.is_space c || has_space r)%bool
  end.

End PyText.

(** [strip(doc)] of [config.py]. *)
Definition strip (doc : string) : string :=
  PyText.join PyStr.nl (map PyText.strip (PyText.split_on PyText.nl_char doc)).

(** The lines of a text as [strip] sees them. *)
Definition doc_lines (doc : string) : list string :=
  PyText.split_on PyText.nl_char doc.

(** ** Vocabulary of the further statements *)

(** The calls [get_mounts] can make. *)
Definition enumeration_call (c : oscall) : Prop :=
  c = Listdir "/Volumes" \/ c = OpenR "/proc/mounts" \/ c = Readlines "/proc/mounts".

(** an entry at [q] is still there, unchanged *)
Definition keeps_entry (q : string) (w w' : world) : Prop :=
  forall n, fs w !! q = Some n -> fs w' !! q = Some n.

Module MoreExamples.

(** The macOS host with a card whose marker may not be removed. *)
Definition mac_host_marker_locked : world :=
  World (fs Examples.mac_host)
        (fun c => match c with
                  | Remove _ => Some PermissionError
                  | _ => None
                  end)
        [] (listing_rank Examples.mac_host).

End MoreExamples.

(** Free of the line ends that reading a text file sees. *)
Definition no_break (s : string) : Prop :=
  PyText.has_char "010"%char s = false /\ PyText.has_char "013"%char s = false.

(** The expression [main] writes for a description when it makes a fresh
    [.env]: ['\n'.join([ f'# {l}' for l in desc.split('\n') ])]. *)
Definition comment_lines (desc : string) : string :=
  PyText.join PyStr.nl
    (map (fun l => "# " +:+ l) (PyText.split_on PyText.nl_char desc)).

(** The calls [find_data_mount] can make. *)
Definition locator_call (c : oscall) : Prop :=
  enumeration_call c \/ exists m, c = OpenR (flag_file m).

(** ** Well-formed file systems *)

(** Every path above an entry is a directory of the map. *)
Definition well_formed (m : gmap string node) : Prop :=
  forall p n, m !! p = Some n -> Forall (fun a => m !! a = Some Dir) (ancestors p).

(** The same, as a check that runs. *)
Definition well_formedb (m : gmap string node) : bool :=
  forallb (fun p => forallb (is_dir m) (ancestors p)) ((map_to_list m).*1).

Definition keeps_well_formed (w w' : world) : Prop :=
  well_formed (fs w) -> well_formed (fs w').

(** Nothing of the wrong kind is where an artifact goes: no file at the
    two directories, no directory at the three files. *)
Definition artifact_paths_free (m : gmap string node) (t : string) : Prop :=
  is_file m (ssh_dir t) = false
  /\ m !! authorized_keys t <> Some Dir
  /\ is_file m (wifi_dir t) = false
  /\ m !! wpa_supplicant_conf t <> Some Dir
  /\ m !! ab_flasher_env t <> Some Dir.

(** * Proofs *)

(** ** Strings and paths *)

Lemma length_append (s t : string) :
  String.length (s +:+ t) = (String.length s + String.length t)%nat.
Proof. induction s as [|c s IH]; simpl; [reflexivity | now rewrite IH]. Qed.

Lemma append_cons (c : ascii) (s t : string) :
  String c s +:+ t = String c (s +:+ t).
Proof. reflexivity. Qed.

Lemma append_assoc (s t u : string) : (s +:+ t) +:+ u = s +:+ (t +:+ u).
Proof. induction s as [|c s IH]; [reflexivity|]. now rewrite !append_cons, IH. Qed.

Lemma append_nonempty (s t : string) : t <> EmptyString -> s +:+ t <> EmptyString.
Proof. destruct s; simpl; [auto | discriminate]. Qed.

Lemma last_char_append (s t : string) :
  t <> EmptyString -> PyStr.last_char (s +:+ t) = PyStr.last_char t.
Proof.
  intros Ht. induction s as [|c s IH]; simpl; [reflexivity|].
  destruct (s +:+ t) eqn:E; [|exact IH].
  exfalso. now apply (append_nonempty s t).
Qed.

Lemma path_join_shape (a b : string) :
  PyStr.startswith_sep b = false ->
  path_join a b = a +:+ b \/ path_join a b = a +:+ "/" +:+ b.
Proof.
  intros Hb. unfold path_join. rewrite Hb.
  destruct (String.eqb a EmptyString || PyStr.endswith_sep a)%bool; auto.
Qed.

Lemma last_char_path_join (a b : string) :
  PyStr.startswith_sep b = false -> b <> EmptyString ->
  PyStr.last_char (path_join a b) = PyStr.last_char b.
Proof.
  intros Hs Hb. destruct (path_join_shape a b Hs) as [-> | ->].
  - now apply last_char_append.
  - rewrite last_char_append; [now apply (last_char_append "/" b)|].
    now apply append_nonempty.
Qed.

Lemma length_path_join (a b : string) :
  PyStr.startswith_sep b = false ->
  (String.length a + String.length b <= String.length (path_join a b)
   <= String.length a + String.length b + 1)%nat.
Proof.
  intros Hs. destruct (path_join_shape a b Hs) as [-> | ->];
    rewrite !length_append; simpl; lia.
Qed.

Lemma length_snoc (s : string) (c : ascii) :
  String.length (PyStr.snoc s c) = S (String.length s).
Proof. unfold PyStr.snoc. rewrite length_append. simpl. lia. Qed.

Lemma append_empty_r (s : string) : s +:+ EmptyString = s.
Proof. induction s as [|c s IH]; [reflexivity|]. now rewrite append_cons, IH. Qed.

Lemma snoc_append (cur : string) (c : ascii) (s : string) :
  PyStr.snoc cur c +:+ s = cur +:+ String c s.
Proof. unfold PyStr.snoc. now rewrite append_assoc. Qed.

Lemma ancestors_go_shorter (p acc a : string) :
  In a (ancestors_go acc p) ->
  (String.length a < String.length acc + String.length p)%nat.
Proof.
  revert acc. induction p as [|c r IH]; intros acc; simpl; [tauto|].
  rewrite in_app_iff. intros [Hin | Hin].
  - destruct (Ascii.eqb c "/"); [|destruct Hin].
    destruct acc; simpl in Hin; [destruct Hin|].
    destruct Hin as [<- | []]. simpl. lia.
  - apply IH in Hin. rewrite length_snoc in Hin. lia.
Qed.

Lemma ancestors_shorter (p a : string) :
  In a (ancestors p) -> (String.length a < String.length p)%nat.
Proof. intros H. apply ancestors_go_shorter in H. simpl in H. exact H. Qed.

Lemma ancestors_go_app (acc s r : string) :
  ancestors_go acc (s +:+ r) = ancestors_go acc s ++ ancestors_go (acc +:+ s) r.
Proof.
  revert acc. induction s as [|c s IH]; intros acc.
  - now rewrite append_empty_r.
  - rewrite append_cons. simpl. rewrite IH, snoc_append. now rewrite <- app_assoc.
Qed.

Lemma ancestors_go_no_sep (acc x : string) :
  has_sep x = false -> ancestors_go acc x = [].
Proof.
  revert acc. induction x as [|c x IH]; intros acc; simpl; [reflexivity|].
  intros H. apply orb_false_iff in H as [-> H]. now apply IH.
Qed.

(** The directories above an entry of [d] are those above [d], and [d]. *)
Lemma ancestors_child (d x : string) :
  d <> EmptyString -> has_sep x = false ->
  ancestors (d +:+ "/" +:+ x) = ancestors d ++ [d].
Proof.
  intros Hd Hx. unfold ancestors. rewrite ancestors_go_app. f_equal.
  change ("/" +:+ x) with (String "/" x). simpl.
  rewrite (ancestors_go_no_sep _ x Hx).
  destruct d; [congruence | reflexivity].
Qed.

(** What is above an entry of the volume does not depend on its name. *)
Lemma ancestors_path_join (t x y : string) :
  has_sep x = false -> has_sep y = false ->
  ancestors (path_join t x) = ancestors (path_join t y).
Proof.
  intros Hx Hy.
  assert (S : forall z, has_sep z = false -> PyStr.startswith_sep z = false).
  { intros [|c z]; simpl; [reflexivity|]. intros H.
    now apply orb_false_iff in H as [-> _]. }
  unfold path_join. rewrite (S x Hx), (S y Hy).
  destruct (String.eqb t EmptyString || PyStr.endswith_sep t)%bool.
  - unfold ancestors. rewrite !ancestors_go_app.
    now rewrite (ancestors_go_no_sep _ x Hx), (ancestors_go_no_sep _ y Hy).
  - unfold ancestors. rewrite !ancestors_go_app.
    change ("/" +:+ x) with (String "/" x). change ("/" +:+ y) with (String "/" y).
    simpl. now rewrite (ancestors_go_no_sep _ x Hx), (ancestors_go_no_sep _ y Hy).
Qed.

Lemma path_join_dir (d x : string) :
  PyStr.startswith_sep x = false -> PyStr.last_char d <> None ->
  PyStr.endswith_sep d = false ->
  path_join d x = d +:+ "/" +:+ x.
Proof.
  intros Hx Hd He. unfold path_join. rewrite Hx, He.
  destruct d; [now destruct Hd | reflexivity].
Qed.

(** The six paths the program touches under a target end in six different
    characters, and the files lie deeper than the directories. *)
Lemma last_char_flag_file t : PyStr.last_char (flag_file t) = Some "e"%char.
Proof. unfold flag_file. now rewrite last_char_path_join. Qed.
Lemma last_char_ssh_dir t : PyStr.last_char (ssh_dir t) = Some "h"%char.
Proof. unfold ssh_dir. now rewrite last_char_path_join. Qed.
Lemma last_char_wifi_dir t : PyStr.last_char (wifi_dir t) = Some "i"%char.
Proof. unfold wifi_dir. now rewrite last_char_path_join. Qed.
Lemma last_char_authorized_keys t : PyStr.last_char (authorized_keys t) = Some "s"%char.
Proof. unfold authorized_keys. now rewrite last_char_path_join. Qed.
Lemma last_char_wpa_supplicant_conf t :
  PyStr.last_char (wpa_supplicant_conf t) = Some "f"%char.
Proof. unfold wpa_supplicant_conf. now rewrite last_char_path_join. Qed.
Lemma last_char_ab_flasher_env t : PyStr.last_char (ab_flasher_env t) = Some "v"%char.
Proof. unfold ab_flasher_env. now rewrite last_char_path_join. Qed.

Lemma ancestors_authorized_keys t :
  ancestors (authorized_keys t) = ancestors (ssh_dir t) ++ [ssh_dir t].
Proof.
  pose proof (last_char_ssh_dir t) as L. unfold authorized_keys.
  rewrite path_join_dir;
    [| reflexivity | congruence | unfold PyStr.endswith_sep; now rewrite L].
  apply ancestors_child; [|reflexivity]. intros E. now rewrite E in L.
Qed.

Lemma ancestors_wpa_supplicant_conf t :
  ancestors (wpa_supplicant_conf t) = ancestors (wifi_dir t) ++ [wifi_dir t].
Proof.
  pose proof (last_char_wifi_dir t) as L. unfold wpa_supplicant_conf.
  rewrite path_join_dir;
    [| reflexivity | congruence | unfold PyStr.endswith_sep; now rewrite L].
  apply ancestors_child; [|reflexivity]. intros E. now rewrite E in L.
Qed.

Lemma neq_by_last_char (p q : string) :
  PyStr.last_char p <> PyStr.last_char q -> p <> q.
Proof. congruence. Qed.

Lemma length_ssh_dir t :
  (String.length t + 3 <= String.length (ssh_dir t) <= String.length t + 4)%nat.
Proof. unfold ssh_dir. pose proof (length_path_join t "ssh" eq_refl). simpl in *. lia. Qed.
Lemma length_wifi_dir t :
  (String.length t + 4 <= String.length (wifi_dir t) <= String.length t + 5)%nat.
Proof. unfold wifi_dir. pose proof (length_path_join t "wifi" eq_refl). simpl in *. lia. Qed.
Lemma length_authorized_keys t :
  (String.length t + 18 <= String.length (authorized_keys t))%nat.
Proof.
  unfold authorized_keys.
  pose proof (length_path_join (ssh_dir t) "authorized_keys" eq_refl).
  pose proof (length_ssh_dir t). simpl in *. lia.
Qed.
Lemma length_wpa_supplicant_conf t :
  (String.length t + 23 <= String.length (wpa_supplicant_conf t))%nat.
Proof.
  unfold wpa_supplicant_conf.
  pose proof (length_path_join (wifi_dir t) "wpa_supplicant.conf" eq_refl).
  pose proof (length_wifi_dir t). simpl in *. lia.
Qed.
Lemma length_ab_flasher_env t :
  (String.length t + 14 <= String.length (ab_flasher_env t))%nat.
Proof.
  unfold ab_flasher_env.
  pose proof (length_path_join t "ab-flasher.env" eq_refl). simpl in *. lia.
Qed.
Lemma length_ab_flasher_env_le t :
  (String.length (ab_flasher_env t) <= String.length t + 15)%nat.
Proof.
  unfold ab_flasher_env.
  pose proof (length_path_join t "ab-flasher.env" eq_refl). simpl in *. lia.
Qed.
Lemma length_flag_file t :
  (String.length t + 13 <= String.length (flag_file t))%nat.
Proof.
  unfold flag_file.
  pose proof (length_path_join t CONFIG_FLAG eq_refl). simpl in *. lia.
Qed.

(** ** The monad *)

Lemma bind_unfold {A B} (m : M A) (k : A -> M B) (w : world) :
  (m ≫= k) w =
  match m w with
  | (Ok a, w') => k a w'
  | (Raise e, w') => (Raise e, w')
  end.
Proof. reflexivity. Qed.

Lemma bind_Ok_inv {A B} (m : M A) (k : A -> M B) w b w' :
  (m ≫= k) w = (Ok b, w') ->
  exists a w1, m w = (Ok a, w1) /\ k a w1 = (Ok b, w').
Proof.
  rewrite bind_unfold. destruct (m w) as [[a|e] w1]; [eauto | discriminate].
Qed.

Lemma bind_Raise_inv {A B} (m : M A) (k : A -> M B) w e w' :
  (m ≫= k) w = (Raise e, w') ->
  m w = (Raise e, w') \/ exists a w1, m w = (Ok a, w1) /\ k a w1 = (Raise e, w').
Proof.
  rewrite bind_unfold. destruct (m w) as [[a|e1] w1]; intros H.
  - right. exists a, w1. split; [reflexivity | exact H].
  - left. congruence.
Qed.

Lemma bind_Ok {A B} (m : M A) (k : A -> M B) w a w1 :
  m w = (Ok a, w1) -> (m ≫= k) w = k a w1.
Proof. intros H. now rewrite bind_unfold, H. Qed.

Lemma bind_Raise {A B} (m : M A) (k : A -> M B) w e w1 :
  m w = (Raise e, w1) -> (m ≫= k) w = (Raise e, w1).
Proof. intros H. now rewrite bind_unfold, H. Qed.

Section Preserves.
Context (R : world -> world -> Prop) `{!Reflexive R} `{!Transitive R}.

Lemma preserves_ret {A} (a : A) : preserves R (mret a : M A).
Proof. intros w. simpl. reflexivity. Qed.

Lemma preserves_raise {A} (e : exn) : preserves R (raise e : M A).
Proof. intros w. simpl. reflexivity. Qed.

Lemma preserves_bind {A B} (m : M A) (k : A -> M B) :
  preserves R m -> (forall a, preserves R (k a)) -> preserves R (m ≫= k).
Proof.
  intros Hm Hk w. rewrite bind_unfold. specialize (Hm w).
  destruct (m w) as [[a|e] w1]; simpl in *; [|exact Hm].
  etransitivity; [exact Hm | apply Hk].
Qed.

Lemma preserves_try_except {A} (body rest : M A) handles :
  preserves R body -> preserves R rest -> preserves R (try_except body handles rest).
Proof.
  intros Hb Hr w. unfold try_except. specialize (Hb w).
  destruct (body w) as [[a|e] w1]; simpl in *; [exact Hb|].
  destruct (handles e); simpl; [|exact Hb].
  etransitivity; [exact Hb | apply Hr].
Qed.

Lemma preserves_oscall_with {A} (c : oscall) (normal : M A) :
  (forall w, R w (log_call c w)) -> preserves R normal ->
  preserves R (oscall_with c normal).
Proof.
  intros Hl Hn w. unfold oscall_with.
  destruct (faults w c); simpl; [apply Hl|].
  etransitivity; [apply Hl | apply Hn].
Qed.
End Preserves.

#[global] Instance keeps_refl q : Reflexive (keeps q).
Proof. intros w. reflexivity. Qed.
#[global] Instance keeps_trans q : Transitive (keeps q).
Proof. unfold keeps. intros a b c H1 H2. congruence. Qed.
#[global] Instance keeps_file_refl q : Reflexive (keeps_file q).
Proof. intros w c H. exact H. Qed.
#[global] Instance keeps_file_trans q : Transitive (keeps_file q).
Proof. unfold keeps_file. intros a b c H1 H2 x Hx. auto. Qed.
#[global] Instance no_file_created_refl q : Reflexive (no_file_created q).
Proof. intros w H. exact H. Qed.
#[global] Instance no_file_created_trans q : Transitive (no_file_created q).
Proof. unfold no_file_created. intros a b c H1 H2 H. auto. Qed.
#[global] Instance same_faults_refl : Reflexive same_faults.
Proof. intros w. reflexivity. Qed.
#[global] Instance same_faults_trans : Transitive same_faults.
Proof. unfold same_faults. intros a b c H1 H2. congruence. Qed.
#[global] Instance calls_only_refl P : Reflexive (calls_only P).
Proof. intros w. exists []. split; [now rewrite app_nil_r | constructor]. Qed.
#[global] Instance calls_only_trans P : Transitive (calls_only P).
Proof.
  intros a b c (c1 & E1 & F1) (c2 & E2 & F2). exists (c1 ++ c2). split.
  - now rewrite E2, E1, app_assoc.
  - now apply Forall_app.
Qed.

Lemma keeps_keeps_file q w w' : keeps q w w' -> keeps_file q w w'.
Proof. unfold keeps, keeps_file. intros H c Hc. congruence. Qed.

Lemma keeps_no_file_created q w w' : keeps q w w' -> no_file_created q w w'.
Proof. unfold keeps, no_file_created, is_file. intros ->. auto. Qed.

(** ** What each call does to the files *)

Lemma mkdirs_lookup_Some (l : list string) (m : gmap string node) q n :
  m !! q = Some n -> foldr mkdir_missing m l !! q = Some n.
Proof.
  intros H. induction l as [|a l IH]; simpl; [exact H|].
  set (m' := foldr mkdir_missing m l) in *. unfold mkdir_missing.
  destruct (m' !! a) eqn:E; [exact IH|].
  rewrite lookup_insert_ne; [exact IH | congruence].
Qed.

Lemma mkdirs_lookup_cases (l : list string) (m : gmap string node) q :
  foldr mkdir_missing m l !! q = m !! q
  \/ (m !! q = None /\ In q l /\ foldr mkdir_missing m l !! q = Some Dir).
Proof.
  induction l as [|a l IH]; simpl; [now left|].
  set (m' := foldr mkdir_missing m l) in *. unfold mkdir_missing.
  destruct (m' !! a) eqn:E.
  - destruct IH as [IH | (H1 & H2 & H3)]; [now left | right; auto].
  - destruct (decide (a = q)) as [->|Hne].
    + rewrite lookup_insert_eq. destruct IH as [IH | (H1 & H2 & H3)]; [|congruence].
      right. repeat split; auto. congruence.
    + rewrite lookup_insert_ne by exact Hne.
      destruct IH as [IH | (H1 & H2 & H3)]; [now left | right; auto].
Qed.

Lemma mkdirs_is_file (l : list string) (m : gmap string node) q :
  is_file (foldr mkdir_missing m l) q = is_file m q.
Proof.
  unfold is_file. destruct (mkdirs_lookup_cases l m q) as [-> | (H1 & _ & H3)];
    [reflexivity | now rewrite H1, H3].
Qed.

(** The cases of [open_w] on a path that has no entry. *)
Ltac open_w_cases w p :=
  try match goal with
      | |- context [blocked (fs w) p] => destruct (blocked (fs w) p) eqn:?; simpl
      end;
  try match goal with
      | |- context [parent p] => destruct (parent p) as [?|] eqn:?; simpl
      end;
  try match goal with
      | |- context [is_dir (fs w) ?d] => destruct (is_dir (fs w) d) eqn:?; simpl
      end.

Ltac prim_cases w p :=
  intros w; simpl;
  match goal with |- context [faults w ?c] => destruct (faults w c) end; simpl;
  [try reflexivity|];
  destruct (fs w !! p) as [[?|]|] eqn:?; simpl; try reflexivity;
  open_w_cases w p; try reflexivity.

Section ReadOnly.
Context (R : world -> world -> Prop) `{!Reflexive R}.
Hypothesis R_log : forall c w, R w (log_call c w).

Lemma listdir_preserves p : preserves R (listdir p).
Proof. unfold listdir, oscall_with. prim_cases w p; apply R_log. Qed.
Lemma open_r_preserves p : preserves R (open_r p).
Proof. unfold open_r, oscall_with. prim_cases w p; apply R_log. Qed.
Lemma readlines_preserves p : preserves R (readlines p).
Proof. unfold readlines, oscall_with. prim_cases w p; apply R_log. Qed.
End ReadOnly.

Lemma keeps_log q c w : keeps q w (log_call c w).
Proof. reflexivity. Qed.
Lemma keeps_file_log q c w : keeps_file q w (log_call c w).
Proof. intros x Hx. exact Hx. Qed.
Lemma no_file_created_log q c w : no_file_created q w (log_call c w).
Proof. intros H. exact H. Qed.
Lemma same_faults_log c w : same_faults w (log_call c w).
Proof. reflexivity. Qed.
Lemma calls_only_log (P : oscall -> Prop) c w : P c -> calls_only P w (log_call c w).
Proof. intros H. exists [c]. split; [reflexivity | now constructor]. Qed.

(** *** [makedirs] *)

Lemma makedirs_keeps_file q p : preserves (keeps_file q) (makedirs p).
Proof.
  unfold makedirs, oscall_with. prim_cases w p; try (intros x Hx; exact Hx).
  destruct (existsb _ _); simpl; intros x Hx; [exact Hx|].
  exact (mkdirs_lookup_Some (p :: ancestors p) (fs w) q _ Hx).
Qed.

Lemma makedirs_no_file_created q p : preserves (no_file_created q) (makedirs p).
Proof.
  unfold makedirs, oscall_with. prim_cases w p; try (intros Hx; exact Hx).
  destruct (existsb _ _); simpl; intros Hx; [exact Hx|].
  rewrite <- (mkdirs_is_file (p :: ancestors p) (fs w) q). exact Hx.
Qed.

Lemma makedirs_keeps q p :
  ~ In q (p :: ancestors p) -> preserves (keeps q) (makedirs p).
Proof.
  intros Hq. unfold makedirs, oscall_with. prim_cases w p.
  destruct (existsb _ _); simpl; [reflexivity|].
  unfold keeps. simpl.
  destruct (mkdirs_lookup_cases (p :: ancestors p) (fs w) q) as [E | (_ & Hin & _)];
    [exact E | contradiction].
Qed.

(** *** [open_w], [write], [os_remove] *)

Lemma open_w_keeps q p : p <> q -> preserves (keeps q) (open_w p).
Proof.
  intros Hq. unfold open_w, oscall_with.
  prim_cases w p; unfold keeps; simpl; now rewrite lookup_insert_ne.
Qed.

Lemma write_keeps q p d : p <> q -> preserves (keeps q) (write p d).
Proof.
  intros Hq. unfold write, oscall_with.
  prim_cases w p; unfold keeps; simpl; now rewrite lookup_insert_ne.
Qed.

Lemma os_remove_keeps q p : p <> q -> preserves (keeps q) (os_remove p).
Proof.
  intros Hq. unfold os_remove, oscall_with.
  prim_cases w p; unfold keeps; simpl; now rewrite lookup_delete_ne.
Qed.

Lemma os_remove_no_file_created q p : preserves (no_file_created q) (os_remove p).
Proof.
  unfold os_remove, oscall_with. prim_cases w p; try (intros Hx; exact Hx).
  unfold no_file_created, is_file. simpl.
  destruct (decide (p = q)) as [->|Hne].
  - now rewrite lookup_delete_eq.
  - now rewrite lookup_delete_ne.
Qed.

Lemma preserves_weaken {A} (R S : world -> world -> Prop) (m : M A) :
  (forall w w', R w w' -> S w w') -> preserves R m -> preserves S m.
Proof. intros H Hm w. apply H, Hm. Qed.

(** *** Faults and trace *)

Lemma listdir_same_faults p : preserves same_faults (listdir p).
Proof. apply listdir_preserves; try apply _; intros; reflexivity. Qed.
Lemma open_r_same_faults p : preserves same_faults (open_r p).
Proof. apply open_r_preserves; try apply _; intros; reflexivity. Qed.
Lemma readlines_same_faults p : preserves same_faults (readlines p).
Proof. apply readlines_preserves; try apply _; intros; reflexivity. Qed.
Lemma makedirs_same_faults p : preserves same_faults (makedirs p).
Proof.
  unfold makedirs, oscall_with. prim_cases w p.
  destruct (existsb _ _); reflexivity.
Qed.
Lemma open_w_same_faults p : preserves same_faults (open_w p).
Proof. unfold open_w, oscall_with. prim_cases w p. Qed.
Lemma write_same_faults p d : preserves same_faults (write p d).
Proof. unfold write, oscall_with. prim_cases w p. Qed.
Lemma os_remove_same_faults p : preserves same_faults (os_remove p).
Proof. unfold os_remove, oscall_with. prim_cases w p. Qed.

Lemma makedirs_calls_only (P : oscall -> Prop) p :
  P (Makedirs p) -> preserves (calls_only P) (makedirs p).
Proof.
  intros HP. unfold makedirs, oscall_with.
  prim_cases w p; try (now apply (calls_only_log P (Makedirs p) w)).
  destruct (existsb _ _); now apply (calls_only_log P (Makedirs p) w).
Qed.
Lemma open_w_calls_only (P : oscall -> Prop) p :
  P (OpenW p) -> preserves (calls_only P) (open_w p).
Proof.
  intros HP. unfold open_w, oscall_with.
  prim_cases w p; now apply (calls_only_log P (OpenW p) w).
Qed.
Lemma write_calls_only (P : oscall -> Prop) p d :
  P (Write p d) -> preserves (calls_only P) (write p d).
Proof.
  intros HP. unfold write, oscall_with.
  prim_cases w p; now apply (calls_only_log P (Write p d) w).
Qed.
Lemma os_remove_calls_only (P : oscall -> Prop) p :
  P (Remove p) -> preserves (calls_only P) (os_remove p).
Proof.
  intros HP. unfold os_remove, oscall_with.
  prim_cases w p; now apply (calls_only_log P (Remove p) w).
Qed.

(** ** Locating the volume *)

#[global] Instance same_fs_refl : Reflexive same_fs.
Proof. intros w. reflexivity. Qed.
#[global] Instance same_fs_trans : Transitive same_fs.
Proof. unfold same_fs. intros a b c H1 H2. congruence. Qed.

Lemma marker_readable_log_calls cs w m :
  marker_readable (log_calls cs w) m = marker_readable w m.
Proof. reflexivity. Qed.

Lemma open_r_readable w m :
  marker_readable w m = true ->
  open_r (flag_file m) w = (Ok tt, log_call (OpenR (flag_file m)) w).
Proof.
  unfold marker_readable, is_file, open_r, oscall_with.
  destruct (faults w _); [discriminate|].
  simpl. destruct (fs w !! flag_file m) as [[c|]|]; try discriminate. reflexivity.
Qed.

Lemma open_r_unreadable w m :
  marker_readable w m = false ->
  exists e, open_r (flag_file m) w = (Raise e, log_call (OpenR (flag_file m)) w).
Proof.
  unfold marker_readable, is_file, open_r, oscall_with.
  destruct (faults w _) as [e|]; [eauto|].
  simpl. destruct (fs w !! flag_file m) as [[c|]|]; try discriminate; eauto.
Qed.

Lemma open_r_raises_iff w m :
  marker_readable w m = false <-> exists e, fst (open_r (flag_file m) w) = Raise e.
Proof.
  split.
  - intros H. destruct (open_r_unreadable w m H) as [e He]. exists e. now rewrite He.
  - intros [e He]. destruct (marker_readable w m) eqn:E; [|reflexivity].
    rewrite (open_r_readable w m E) in He. discriminate.
Qed.

Lemma log_calls_log_call c cs w :
  log_calls cs (log_call c w) = log_calls (c :: cs) w.
Proof. unfold log_calls, log_call. simpl. now rewrite <- app_assoc. Qed.

Lemma log_calls_nil w : log_calls [] w = w.
Proof. destruct w. unfold log_calls. simpl. now rewrite app_nil_r. Qed.

Lemma examined_log_call c w mounts :
  examined (log_call c w) mounts = examined w mounts.
Proof. induction mounts as [|m rest IH]; simpl; [reflexivity|]. now rewrite IH. Qed.

Lemma find_readable_log_call c w mounts :
  find (marker_readable (log_call c w)) mounts = find (marker_readable w) mounts.
Proof. induction mounts as [|m rest IH]; simpl; [reflexivity|]. now rewrite IH. Qed.

Lemma find_data_mount_in_run (mounts : list string) (w : world) :
  find_data_mount_in mounts w =
  (match find (marker_readable w) mounts with
   | Some m => Ok m
   | None => Raise TargetNotFound
   end,
   log_calls (map (fun m => OpenR (flag_file m)) (examined w mounts)) w).
Proof.
  revert w. induction mounts as [|m rest IH]; intros w; simpl.
  - unfold raise. now rewrite log_calls_nil.
  - unfold try_except. rewrite bind_unfold. fold (flag_file m).
    destruct (marker_readable w m) eqn:E.
    + rewrite (open_r_readable w m E). reflexivity.
    + destruct (open_r_unreadable w m E) as [e ->].
      rewrite IH, log_calls_log_call, examined_log_call, find_readable_log_call.
      reflexivity.
Qed.

Lemma find_first {A} (f : A -> bool) pre x post :
  Forall (fun y => f y = false) pre -> f x = true ->
  find f (pre ++ x :: post) = Some x.
Proof.
  intros Hpre Hx. induction Hpre as [|y pre Hy _ IH]; simpl.
  - now rewrite Hx.
  - now rewrite Hy.
Qed.

Lemma find_Some_split {A} (f : A -> bool) l x :
  find f l = Some x ->
  exists pre post, l = pre ++ x :: post
                   /\ Forall (fun y => f y = false) pre /\ f x = true.
Proof.
  induction l as [|y l IH]; simpl; [discriminate|].
  destruct (f y) eqn:E.
  - intros [= ->]. exists [], l. repeat split; [constructor | exact E].
  - intros H. destruct (IH H) as (pre & post & -> & Hpre & Hx).
    exists (y :: pre), post. repeat split; [now constructor | exact Hx].
Qed.

Lemma find_None_Forall {A} (f : A -> bool) l :
  find f l = None <-> Forall (fun y => f y = false) l.
Proof.
  induction l as [|y l IH]; simpl.
  - split; [constructor | reflexivity].
  - destruct (f y) eqn:E.
    + split; [discriminate|]. intros H. inversion H; congruence.
    + rewrite IH. split; [now constructor | intros H; now inversion H].
Qed.

Lemma examined_first w pre m post :
  Forall (fun y => marker_readable w y = false) pre -> marker_readable w m = true ->
  examined w (pre ++ m :: post) = pre ++ [m].
Proof.
  intros Hpre Hm. induction Hpre as [|y pre Hy _ IH]; simpl.
  - now rewrite Hm.
  - now rewrite Hy, IH.
Qed.

Lemma examined_all w mounts :
  Forall (fun y => marker_readable w y = false) mounts -> examined w mounts = mounts.
Proof.
  induction 1 as [|y l Hy _ IH]; simpl; [reflexivity|]. now rewrite Hy, IH.
Qed.

Lemma flag_file_shape (m : string) :
  m <> EmptyString -> PyStr.endswith_sep m = false ->
  flag_file m = m +:+ "/.configure_me".
Proof.
  intros Hm He. unfold flag_file, path_join. simpl PyStr.startswith_sep.
  rewrite He. destruct (String.eqb_spec m EmptyString); [contradiction | reflexivity].
Qed.

(** C1.  For every list of mounts, the scan of [find_data_mount] returns
    the first mount whose marker [flag_file m] opens for reading; a mount
    whose marker check raises counts as unreadable and is passed over; the
    calls made are the marker opens of the mounts up to and including the
    match, nothing after it; and the scan raises, with [TargetNotFound]
    and nothing else, exactly when no mount of the list has a readable
    marker.  [flag_file m] is [m/.configure_me] for a mount that does not
    end in a separator. *)
Theorem find_data_mount_first_readable (mounts : list string) (w : world) :
  let r := fst (find_data_mount_in mounts w) in
  let w' := snd (find_data_mount_in mounts w) in
  (forall m, r = Ok m <->
     exists pre post, mounts = pre ++ m :: post
       /\ Forall (fun x => marker_readable w x = false) pre
       /\ marker_readable w m = true)
  /\ (r = Raise TargetNotFound <->
      Forall (fun x => marker_readable w x = false) mounts)
  /\ (forall e, r = Raise e -> e = TargetNotFound)
  /\ w' = log_calls (map (fun m => OpenR (flag_file m)) (examined w mounts)) w
  /\ (forall pre m post, mounts = pre ++ m :: post ->
        Forall (fun x => marker_readable w x = false) pre ->
        marker_readable w m = true ->
        examined w mounts = pre ++ [m])
  /\ (forall x, marker_readable w x = false <->
        exists e, fst (open_r (flag_file x) w) = Raise e)
  /\ (forall ms w1, get_mounts w = (Ok ms, w1) ->
        find_data_mount w = find_data_mount_in ms w1)
  /\ (forall m, m <> EmptyString -> PyStr.endswith_sep m = false ->
        flag_file m = m +:+ "/.configure_me").
Proof.
  cbv zeta. rewrite find_data_mount_in_run. simpl.
  refine (conj _ (conj _ (conj _ (conj _ (conj _ (conj _ (conj _ _))))))).
  - intros m. split.
    + destruct (find (marker_readable w) mounts) as [x|] eqn:E; [|discriminate].
      intros [= ->]. now apply find_Some_split.
    + intros (pre & post & -> & Hpre & Hm). now rewrite (find_first _ pre m post).
  - rewrite <- find_None_Forall.
    destruct (find (marker_readable w) mounts);
      split; intros H; first [discriminate H | reflexivity].
  - intros e. destruct (find (marker_readable w) mounts); congruence.
  - reflexivity.
  - intros pre m post -> Hpre Hm. now apply examined_first.
  - apply open_r_raises_iff.
  - intros ms w1 H. unfold find_data_mount. now rewrite bind_unfold, H.
  - apply flag_file_shape.
Qed.

(** ** Enumerating the mounts *)

Lemma comprehension_cons {A B} (f : A -> M B) x rest :
  comprehension f (x :: rest) =
  (y ← f x; ys ← comprehension f rest; ret (y :: ys)).
Proof. reflexivity. Qed.

Lemma index_second_field (line : string) :
  index (PyStr.split line) 1 =
  match second_field line with Some x => ret x | None => raise IndexError end.
Proof. reflexivity. Qed.

Lemma mapM_cons_option {A B} (f : A -> option B) x l :
  mapM f (x :: l) =
  match f x with
  | Some y => match mapM f l with Some k => Some (y :: k) | None => None end
  | None => None
  end.
Proof. reflexivity. Qed.

Lemma comprehension_index (lines : list string) (w : world) :
  comprehension (fun m => index (PyStr.split m) 1) lines w =
  (match mapM second_field lines with
   | Some L => Ok L
   | None => Raise IndexError
   end, w).
Proof.
  induction lines as [|l lines IH]; [reflexivity|].
  rewrite comprehension_cons, mapM_cons_option, bind_unfold, index_second_field.
  destruct (second_field l) as [x|]; [|reflexivity].
  unfold ret at 1. rewrite bind_unfold, IH.
  destruct (mapM second_field lines); reflexivity.
Qed.

Lemma strip_prefix_Some (pre s d : string) :
  strip_prefix pre s = Some d <-> s = pre +:+ d.
Proof.
  revert s. induction pre as [|c pre IH]; intros s; simpl.
  - split; [intros [= ->]; reflexivity | intros ->; reflexivity].
  - destruct s as [|c' s]; [rewrite append_cons; split; discriminate|].
    destruct (Ascii.eqb_spec c c') as [->|Hne].
    + rewrite IH, append_cons.
      split; [intros ->; reflexivity | intros [= ->]; reflexivity].
    + rewrite append_cons. split; [discriminate | congruence].
Qed.

Lemma child_name_Some (p q d : string) :
  child_name p q = Some d <->
  q = dir_prefix p +:+ d /\ d <> EmptyString /\ has_sep d = false.
Proof.
  unfold child_name. destruct (strip_prefix (dir_prefix p) q) as [x|] eqn:E.
  - apply strip_prefix_Some in E. subst q. destruct x as [|c r].
    + split; [discriminate|]. intros (H & Hd & _).
      apply String.app_inj in H. congruence.
    + destruct (has_sep (String c r)) eqn:Hs.
      * split; [discriminate|]. intros (H & _ & Hd).
        apply String.app_inj in H. congruence.
      * split.
        -- intros [= <-]. repeat split; [discriminate | exact Hs].
        -- intros (H & _ & _). apply String.app_inj in H. congruence.
  - split; [discriminate|]. intros (H & _ & _).
    apply strip_prefix_Some in H. congruence.
Qed.

Lemma NoDup_omap_inj {A B} (f : A -> option B) (l : list A) :
  (forall x y z, f x = Some z -> f y = Some z -> x = y) ->
  NoDup l -> NoDup (omap f l).
Proof.
  intros Hinj. induction 1 as [|x l Hx Hl IH]; simpl; [constructor|].
  destruct (f x) as [z|] eqn:E; [|exact IH].
  constructor; [|exact IH].
  rewrite list_elem_of_omap. intros (y & Hy & Ey).
  assert (x = y) by (eapply Hinj; eassumption). now subst.
Qed.

(** [children p m] lists, once each, the names [d] without separator for
    which [p/d] is an entry of [m]. *)
Lemma elem_of_children (p : string) (m : gmap string node) (d : string) :
  d ∈ children p m <->
  is_Some (m !! (dir_prefix p +:+ d)) /\ d <> EmptyString /\ has_sep d = false.
Proof.
  unfold children. rewrite list_elem_of_omap. split.
  - intros (q & Hq & Hd). apply child_name_Some in Hd as (-> & H1 & H2).
    apply list_elem_of_fmap in Hq as ([q' n] & Hq & Hin). simpl in Hq. subst q'.
    apply elem_of_map_to_list in Hin. split; [eauto | auto].
  - intros ([n Hn] & H1 & H2). exists (dir_prefix p +:+ d). split.
    + apply list_elem_of_fmap. exists (dir_prefix p +:+ d, n). split; [reflexivity|].
      now apply elem_of_map_to_list.
    + now apply child_name_Some.
Qed.

Lemma NoDup_children (p : string) (m : gmap string node) : NoDup (children p m).
Proof.
  unfold children. apply NoDup_omap_inj; [|apply NoDup_fst_map_to_list].
  intros x y z Hx Hy. apply child_name_Some in Hx as (-> & _).
  apply child_name_Some in Hy as (-> & _). reflexivity.
Qed.

(** Whatever the order, a listing holds the entry names, once each. *)
Lemma listing_Permutation w p : listing w p ≡ₚ children p (fs w).
Proof. apply merge_sort_Permutation. Qed.

#[global] Instance by_rank_trans rank : Transitive (by_rank rank).
Proof. unfold by_rank. intros x y z. lia. Qed.
#[global] Instance by_rank_total rank : Total (by_rank rank).
Proof. unfold by_rank. intros x y. lia. Qed.

Lemma rank_in_inj (names : list string) (x y : string) :
  x ∈ names -> rank_in names x = rank_in names y -> x = y.
Proof.
  induction names as [|z r IH]; simpl; [now intros H; apply elem_of_nil in H|].
  intros Hx. destruct (String.eqb_spec x z) as [->|Hxz].
  - destruct (String.eqb_spec y z); [congruence | discriminate].
  - destruct (String.eqb_spec y z); [discriminate|]. intros [= E].
    apply elem_of_cons in Hx as [->|Hx]; [congruence | now apply IH].
Qed.

Lemma StronglySorted_transfer {A} (R1 R2 : relation A) (l : list A) :
  (forall x y, x ∈ l -> y ∈ l -> R1 x y -> R2 x y) ->
  StronglySorted R1 l -> StronglySorted R2 l.
Proof.
  intros H HS. induction HS as [|x l HS IH HF]; constructor.
  - apply IH. intros a b Ha Hb. apply H; now right.
  - rewrite Forall_forall in HF |- *. intros y Hy.
    apply H; [now left | now right | now apply HF].
Qed.

Lemma StronglySorted_rank_in (names : list string) :
  NoDup names -> StronglySorted (by_rank (rank_in names)) names.
Proof.
  induction 1 as [|z r Hz Hr IH]; constructor.
  - apply (StronglySorted_transfer (by_rank (rank_in r))); [|exact IH].
    intros x y Hx Hy. unfold by_rank. simpl.
    destruct (String.eqb_spec x z) as [->|_]; [contradiction|].
    destruct (String.eqb_spec y z) as [->|_]; [contradiction|]. lia.
  - apply Forall_forall. intros y _. unfold by_rank. simpl.
    rewrite String.eqb_refl. lia.
Qed.

(** The order of a listing is free: every arrangement of the entry names
    is the listing in some environment. *)
Lemma listing_any_order (w : world) (p : string) (names : list string) :
  names ≡ₚ children p (fs w) ->
  listing (with_rank (rank_in names) w) p = names.
Proof.
  intros HP. unfold listing. simpl.
  set (R := by_rank (rank_in names)).
  apply (StronglySorted_unique_strong R).
  - intros x y Hx Hy H1 H2. symmetry. apply (rank_in_inj names); [exact Hy|].
    unfold R, by_rank in H1, H2. lia.
  - apply StronglySorted_merge_sort; apply _.
  - apply StronglySorted_rank_in. rewrite HP. apply NoDup_children.
  - rewrite merge_sort_Permutation. now symmetry.
Qed.

Lemma elem_of_volume_paths (w : world) (q : string) :
  q ∈ map volume_path (listing w "/Volumes") <-> volume_entry (fs w) q.
Proof.
  unfold volume_entry. rewrite list_elem_of_In, in_map_iff. split.
  - intros (d & <- & Hd). apply list_elem_of_In in Hd.
    rewrite listing_Permutation in Hd. apply elem_of_children in Hd.
    exists d. split; [reflexivity | exact Hd].
  - intros (d & -> & Hd). exists d. split; [reflexivity|].
    apply list_elem_of_In. rewrite listing_Permutation.
    apply elem_of_children. exact Hd.
Qed.




Lemma same_result {A} (r : result A) (w1 w2 : world) : w1 = w2 -> (r, w1) = (r, w2).
Proof. congruence. Qed.



Lemma listdir_listable w :
  volumes_listable w ->
  listdir "/Volumes" w =
  (Ok (listing w "/Volumes"), log_call (Listdir "/Volumes") w).
Proof.
  intros [Hf Hd]. unfold listdir, oscall_with. rewrite Hf. simpl. now rewrite Hd.
Qed.

Lemma listdir_missing w :
  volumes_missing w ->
  listdir "/Volumes" w = (Raise FileNotFoundError, log_call (Listdir "/Volumes") w).
Proof.
  intros [Hf | [Hf Hd]]; unfold listdir, oscall_with; rewrite Hf; simpl;
    [reflexivity | now rewrite Hd].
Qed.


Lemma get_mounts_listable w :
  volumes_listable w ->
  get_mounts w =
  (Ok (map volume_path (listing w "/Volumes")),
   log_call (Listdir "/Volumes") w).
Proof.
  intros H. unfold get_mounts, try_except.
  rewrite bind_unfold, (listdir_listable w H). reflexivity.
Qed.

(** Once the listing has raised [FileNotFoundError], [get_mounts] is its
    second [try]. *)
Lemma get_mounts_linux w :
  volumes_missing w ->
  get_mounts w =
  try_except
    (open_r "/proc/mounts";;
     lines ← readlines "/proc/mounts";
     comprehension (fun m => index (PyStr.split m) 1) lines)
    is_FileNotFoundError
    (raise UnsupportedPlatform)
    (log_call (Listdir "/Volumes") w).
Proof.
  intros Hv. unfold get_mounts.
  unfold try_except at 1. rewrite bind_unfold, (listdir_missing w Hv). reflexivity.
Qed.

Lemma get_mounts_table w c :
  volumes_missing w -> mount_table_readable w c ->
  get_mounts w =
  (match mapM second_field (PyStr.file_lines c) with
   | Some L => Ok L
   | None => Raise IndexError
   end,
   log_calls [Listdir "/Volumes"; OpenR "/proc/mounts"; Readlines "/proc/mounts"] w).
Proof.
  intros Hv (Ho & Hr & Hc). rewrite (get_mounts_linux w Hv).
  unfold try_except, open_r, readlines, oscall_with. rewrite !bind_unfold. simpl.
  rewrite Ho. simpl. rewrite Hc. rewrite bind_unfold. simpl. rewrite Hr, Hc.
  rewrite comprehension_index.
  destruct (mapM _ _); simpl; apply same_result; unfold log_calls, log_call; simpl;
    now rewrite <- !app_assoc.
Qed.







Lemma get_mounts_same_fs : preserves same_fs get_mounts.
Proof.
  assert (L : forall c w, same_fs w (log_call c w)) by reflexivity.
  unfold get_mounts.
  apply preserves_try_except; try apply _.
  - apply preserves_bind; try apply _.
    + apply listdir_preserves; first [exact L | apply _].
    + intros ds. apply preserves_ret; apply _.
  - apply preserves_try_except; try apply _.
    + apply preserves_bind; try apply _.
      * apply open_r_preserves; first [exact L | apply _].
      * intros _. apply preserves_bind; try apply _.
        -- apply readlines_preserves; first [exact L | apply _].
        -- intros lines w. rewrite comprehension_index. reflexivity.
    + apply preserves_raise; apply _.
Qed.





Lemma second_field_None (line : string) :
  second_field line = None <-> (length (PyStr.split line) < 2)%nat.
Proof. unfold second_field. rewrite nth_error_None. lia. Qed.

(** C10.  On the mount-table path ([/Volumes] missing, [/proc/mounts]
    read) [get_mounts] indexes field 1 of every line unguarded: it raises
    [IndexError], which is not [UnsupportedPlatform], exactly when some
    line has fewer than two fields, as an empty line has, and returns a
    list exactly when every line has at least two. *)
Theorem get_mounts_short_line_IndexError (w : world) (c : string) :
  volumes_missing w -> mount_table_readable w c ->
  (fst (get_mounts w) = Raise IndexError <->
   Exists (fun line => (length (PyStr.split line) < 2)%nat)
          (PyStr.file_lines c))
  /\ ((exists mounts, fst (get_mounts w) = Ok mounts) <->
      Forall (fun line => (2 <= length (PyStr.split line))%nat)
             (PyStr.file_lines c))
  /\ fst (get_mounts w) <> Raise UnsupportedPlatform
  /\ (PyStr.nl ∈ PyStr.file_lines c ->
      fst (get_mounts w) = Raise IndexError).
Proof.
  intros Hv Hr. rewrite (get_mounts_table w c Hv Hr). simpl.
  set (lines := PyStr.file_lines c).
  assert (HN : mapM second_field lines = None <->
               Exists (fun line => (length (PyStr.split line) < 2)%nat) lines).
  { rewrite mapM_None, !Exists_exists.
    split; intros (x & Hx & H); exists x; (split; [exact Hx|]);
      now apply second_field_None. }
  refine (conj _ (conj _ (conj _ _))).
  - rewrite <- HN. destruct (mapM second_field lines);
      split; intros H; first [discriminate H | reflexivity].
  - split.
    + intros [mounts H]. apply Forall_forall. intros x Hx.
      destruct (le_lt_dec 2 (length (PyStr.split x))) as [Hle|Hlt]; [exact Hle|].
      assert (E : mapM second_field lines = None).
      { apply HN. apply Exists_exists. exists x. split; [exact Hx | exact Hlt]. }
      rewrite E in H. discriminate H.
    + intros HF. destruct (mapM second_field lines) as [L|] eqn:E; [eauto|].
      apply proj1 in HN. specialize (HN eq_refl).
      apply Exists_exists in HN as (x & Hx & Hlt).
      rewrite Forall_forall in HF. specialize (HF x Hx). lia.
  - destruct (mapM second_field lines); discriminate.
  - intros Hin.
    assert (E : mapM second_field lines = None).
    { apply HN. apply Exists_exists. exists PyStr.nl. split; [exact Hin|].
      vm_compute. lia. }
    now rewrite E.
Qed.

Lemma get_mounts_short_line_IndexError_witness :
  fst (get_mounts Examples.linux_blank_line) = Raise IndexError.
Proof.
  destruct (get_mounts_short_line_IndexError Examples.linux_blank_line
              Examples.blank_line_text) as (_ & _ & _ & H).
  - right. split; vm_compute; reflexivity.
  - repeat split; vm_compute; reflexivity.
  - apply H. vm_compute. do 3 right. left.
Defined.

(** ** The artifact blocks *)

Lemma preserves_ext {A} (R : world -> world -> Prop) (m m' : M A) :
  (forall w, m w = m' w) -> preserves R m' -> preserves R m.
Proof. intros E H w. rewrite E. apply H. Qed.

Lemma configure_ssh_eq vars t w :
  configure_ssh vars t w =
  (if PyStr.truthy (ssh_key vars) then
     write_block (ssh_dir t) (authorized_keys t)
                 (PyStr.format (ssh_key vars) +:+ PyStr.nl)
   else mret tt) w.
Proof.
  unfold configure_ssh. destruct (ssh_key vars) as [[|c key]|]; try reflexivity.
  change (PyStr.truthy (Some (String c key))) with true. cbv iota.
  unfold write_block, make_data_dir, with_open_w, str_add.
  rewrite !bind_unfold. fold (ssh_dir t).
  destruct (makedirs (ssh_dir t) w) as [[[]|e] w1]; [|reflexivity].
  unfold ret. cbv beta iota. rewrite !bind_unfold.
  fold (authorized_keys t).
  destruct (open_w (authorized_keys t) w1) as [[[]|e] w2]; reflexivity.
Qed.

Lemma configure_wifi_eq vars t w :
  configure_wifi vars t w =
  (if PyStr.truthy (wifi_ssid vars) then
     write_block (wifi_dir t) (wpa_supplicant_conf t)
       (make_supplicant (wifi_country vars) (wifi_ssid vars) (wifi_password vars))
   else mret tt) w.
Proof.
  unfold configure_wifi. destruct (PyStr.truthy (wifi_ssid vars)); [|reflexivity].
  unfold write_block, make_data_dir, with_open_w.
  rewrite !bind_unfold. fold (wifi_dir t).
  destruct (makedirs (wifi_dir t) w) as [[[]|e] w1]; reflexivity.
Qed.

Lemma configure_ab_flasher_eq vars t :
  configure_ab_flasher vars t =
  (open_w (ab_flasher_env t);;
   write (ab_flasher_env t) ("AB_OS_IMAGE_URL=" +:+ final_image vars +:+ PyStr.nl);;
   write (ab_flasher_env t) ("AB_FORCE=true" +:+ PyStr.nl);;
   write (ab_flasher_env t) ("AB_VERBOSE=1" +:+ PyStr.nl)).
Proof. reflexivity. Qed.

Lemma main_from_split vars t w :
  main_from vars t w = (write_artifacts vars t;; os_remove (flag_file t)) w.
Proof.
  unfold main_from, write_artifacts. rewrite !bind_unfold.
  destruct (configure_ssh vars t w) as [[[]|e] w1]; [|reflexivity].
  rewrite !bind_unfold.
  destruct (configure_wifi vars t w1) as [[[]|e] w2]; [|reflexivity].
  rewrite !bind_unfold.
  destruct (configure_ab_flasher vars t w2) as [[[]|e] w3]; reflexivity.
Qed.

Section WriteBlock.
Context (d f data : string).

Lemma write_block_keeps_file q : f <> q -> preserves (keeps_file q) (write_block d f data).
Proof.
  intros Hq. unfold write_block.
  apply preserves_bind; try apply _; [apply makedirs_keeps_file|]. intros _.
  apply preserves_bind; try apply _.
  - eapply preserves_weaken; [apply keeps_keeps_file | now apply open_w_keeps].
  - intros _. eapply preserves_weaken; [apply keeps_keeps_file | now apply write_keeps].
Qed.

Lemma write_block_no_file_created q :
  f <> q -> preserves (no_file_created q) (write_block d f data).
Proof.
  intros Hq. unfold write_block.
  apply preserves_bind; try apply _; [apply makedirs_no_file_created|]. intros _.
  apply preserves_bind; try apply _.
  - eapply preserves_weaken; [apply keeps_no_file_created | now apply open_w_keeps].
  - intros _. eapply preserves_weaken;
      [apply keeps_no_file_created | now apply write_keeps].
Qed.

Lemma write_block_keeps q :
  f <> q -> ~ In q (d :: ancestors d) -> preserves (keeps q) (write_block d f data).
Proof.
  intros Hq Hd. unfold write_block.
  apply preserves_bind; try apply _; [now apply makedirs_keeps|]. intros _.
  apply preserves_bind; try apply _; [now apply open_w_keeps|].
  intros _. now apply write_keeps.
Qed.

Lemma write_block_same_faults : preserves same_faults (write_block d f data).
Proof.
  unfold write_block.
  apply preserves_bind; try apply _; [apply makedirs_same_faults|]. intros _.
  apply preserves_bind; try apply _; [apply open_w_same_faults|].
  intros _. apply write_same_faults.
Qed.
End WriteBlock.

Ltac by_block eqn blk :=
  eapply preserves_ext; [intros ?; apply eqn|];
  match goal with
  | |- context [PyStr.truthy ?o] => destruct (PyStr.truthy o)
  end; [apply blk; assumption | apply preserves_ret; apply _].

Lemma configure_ssh_keeps_file vars t q :
  authorized_keys t <> q -> preserves (keeps_file q) (configure_ssh vars t).
Proof. intros H. by_block configure_ssh_eq write_block_keeps_file. Qed.

Lemma configure_ssh_no_file_created vars t q :
  authorized_keys t <> q -> preserves (no_file_created q) (configure_ssh vars t).
Proof. intros H. by_block configure_ssh_eq write_block_no_file_created. Qed.

Lemma configure_ssh_keeps vars t q :
  authorized_keys t <> q -> ~ In q (ssh_dir t :: ancestors (ssh_dir t)) ->
  preserves (keeps q) (configure_ssh vars t).
Proof. intros H1 H2. by_block configure_ssh_eq write_block_keeps. Qed.

Lemma configure_ssh_same_faults vars t : preserves same_faults (configure_ssh vars t).
Proof. by_block configure_ssh_eq write_block_same_faults. Qed.

Lemma configure_wifi_keeps_file vars t q :
  wpa_supplicant_conf t <> q -> preserves (keeps_file q) (configure_wifi vars t).
Proof. intros H. by_block configure_wifi_eq write_block_keeps_file. Qed.

Lemma configure_wifi_no_file_created vars t q :
  wpa_supplicant_conf t <> q -> preserves (no_file_created q) (configure_wifi vars t).
Proof. intros H. by_block configure_wifi_eq write_block_no_file_created. Qed.

Lemma configure_wifi_keeps vars t q :
  wpa_supplicant_conf t <> q -> ~ In q (wifi_dir t :: ancestors (wifi_dir t)) ->
  preserves (keeps q) (configure_wifi vars t).
Proof. intros H1 H2. by_block configure_wifi_eq write_block_keeps. Qed.

Lemma configure_wifi_same_faults vars t : preserves same_faults (configure_wifi vars t).
Proof. by_block configure_wifi_eq write_block_same_faults. Qed.

Lemma configure_ab_flasher_keeps vars t q :
  ab_flasher_env t <> q -> preserves (keeps q) (configure_ab_flasher vars t).
Proof.
  intros H. rewrite configure_ab_flasher_eq.
  apply preserves_bind; try apply _; [now apply open_w_keeps|]. intros _.
  apply preserves_bind; try apply _; [now apply write_keeps|]. intros _.
  apply preserves_bind; try apply _; [now apply write_keeps|]. intros _.
  now apply write_keeps.
Qed.

Lemma configure_ab_flasher_same_faults vars t :
  preserves same_faults (configure_ab_flasher vars t).
Proof.
  rewrite configure_ab_flasher_eq.
  apply preserves_bind; try apply _; [apply open_w_same_faults|]. intros _.
  apply preserves_bind; try apply _; [apply write_same_faults|]. intros _.
  apply preserves_bind; try apply _; [apply write_same_faults|]. intros _.
  apply write_same_faults.
Qed.

(** The paths of one target are pairwise different where it matters. *)
Lemma artifact_paths_distinct t m :
  authorized_keys t <> flag_file m
  /\ wpa_supplicant_conf t <> flag_file m
  /\ ab_flasher_env t <> flag_file m
  /\ authorized_keys t <> wpa_supplicant_conf t
  /\ authorized_keys t <> ab_flasher_env t
  /\ wpa_supplicant_conf t <> ab_flasher_env t
  /\ wifi_dir t <> ssh_dir t.
Proof.
  repeat split; apply neq_by_last_char;
    rewrite ?last_char_authorized_keys, ?last_char_wpa_supplicant_conf,
      ?last_char_ab_flasher_env, ?last_char_flag_file,
      ?last_char_wifi_dir, ?last_char_ssh_dir; discriminate.
Qed.

Lemma not_in_shorter (q d : string) :
  (String.length d < String.length q)%nat -> ~ In q (d :: ancestors d).
Proof.
  intros Hlen [-> | Hin]; [lia|]. apply ancestors_shorter in Hin. lia.
Qed.

(** *** The writer keeps the marker and makes no file but its artifacts *)

Lemma write_artifacts_keeps_file_flag vars t m :
  preserves (keeps_file (flag_file m)) (write_artifacts vars t).
Proof.
  destruct (artifact_paths_distinct t m) as (H1 & H2 & H3 & _).
  unfold write_artifacts.
  apply preserves_bind; try apply _; [now apply configure_ssh_keeps_file|]. intros _.
  apply preserves_bind; try apply _; [now apply configure_wifi_keeps_file|]. intros _.
  eapply preserves_weaken; [apply keeps_keeps_file | now apply configure_ab_flasher_keeps].
Qed.

Lemma write_artifacts_no_file_created_flag vars t m :
  preserves (no_file_created (flag_file m)) (write_artifacts vars t).
Proof.
  destruct (artifact_paths_distinct t m) as (H1 & H2 & H3 & _).
  unfold write_artifacts.
  apply preserves_bind; try apply _; [now apply configure_ssh_no_file_created|].
  intros _.
  apply preserves_bind; try apply _; [now apply configure_wifi_no_file_created|].
  intros _.
  eapply preserves_weaken;
    [apply keeps_no_file_created | now apply configure_ab_flasher_keeps].
Qed.

Lemma write_artifacts_same_faults vars t : preserves same_faults (write_artifacts vars t).
Proof.
  unfold write_artifacts.
  apply preserves_bind; try apply _; [apply configure_ssh_same_faults|]. intros _.
  apply preserves_bind; try apply _; [apply configure_wifi_same_faults|]. intros _.
  apply configure_ab_flasher_same_faults.
Qed.

(** ** The calls of the writer, in order *)

Lemma emits_ret {A} (a : A) : emits (mret a : M A) [].
Proof. intros w. exists [], []. simpl. now rewrite app_nil_r. Qed.

Lemma emits_bind {A B} (m : M A) (k : A -> M B) l l' :
  emits m l -> (forall a, emits (k a) l') -> emits (m ≫= k) (l ++ l').
Proof.
  intros Hm Hk w. rewrite bind_unfold.
  destruct (Hm w) as (l1 & l2 & -> & Ht & Hok).
  destruct (m w) as [[a|e] w1]; simpl in *.
  - rewrite (Hok a eq_refl), app_nil_r in *.
    destruct (Hk a w1) as (k1 & k2 & -> & Ht' & Hok').
    exists (l1 ++ k1), k2. repeat split.
    + now rewrite app_assoc.
    + now rewrite Ht', Ht, app_assoc.
    + exact Hok'.
  - exists l1, (l2 ++ l'). repeat split.
    + now rewrite app_assoc.
    + exact Ht.
    + discriminate.
Qed.

Lemma emits_ext {A} (m m' : M A) l :
  (forall w, m w = m' w) -> emits m' l -> emits m l.
Proof. intros E H w. rewrite E. apply H. Qed.

Ltac emits_prim w p :=
  intros w; eexists [_], []; simpl;
  match goal with |- context [faults w ?c] => destruct (faults w c) end; simpl;
  [auto|]; destruct (fs w !! p) as [[?|]|]; simpl; auto;
  open_w_cases w p; auto.

Lemma makedirs_emits p : emits (makedirs p) [Makedirs p].
Proof.
  unfold makedirs, oscall_with. emits_prim w p.
  destruct (existsb _ _); simpl; auto.
Qed.
Lemma open_w_emits p : emits (open_w p) [OpenW p].
Proof. unfold open_w, oscall_with. emits_prim w p. Qed.
Lemma write_emits p d : emits (write p d) [Write p d].
Proof. unfold write, oscall_with. emits_prim w p. Qed.
Lemma os_remove_emits p : emits (os_remove p) [Remove p].
Proof. unfold os_remove, oscall_with. emits_prim w p. Qed.

Lemma write_block_emits d f data :
  emits (write_block d f data) [Makedirs d; OpenW f; Write f data].
Proof.
  unfold write_block.
  apply (emits_bind _ _ [Makedirs d] [OpenW f; Write f data]);
    [apply makedirs_emits|]. intros _.
  apply (emits_bind _ _ [OpenW f] [Write f data]); [apply open_w_emits|]. intros _.
  apply write_emits.
Qed.

Lemma configure_ssh_emits vars t : emits (configure_ssh vars t) (ssh_calls vars t).
Proof.
  eapply emits_ext; [intros w; apply configure_ssh_eq|]. unfold ssh_calls.
  destruct (PyStr.truthy (ssh_key vars)); [apply write_block_emits | apply emits_ret].
Qed.

Lemma configure_wifi_emits vars t : emits (configure_wifi vars t) (wifi_calls vars t).
Proof.
  eapply emits_ext; [intros w; apply configure_wifi_eq|]. unfold wifi_calls.
  destruct (PyStr.truthy (wifi_ssid vars)); [apply write_block_emits | apply emits_ret].
Qed.

Lemma configure_ab_flasher_emits vars t :
  emits (configure_ab_flasher vars t) (ab_flasher_calls vars t).
Proof.
  rewrite configure_ab_flasher_eq. unfold ab_flasher_calls.
  apply (emits_bind _ _ [_] [_; _; _]); [apply open_w_emits|]. intros _.
  apply (emits_bind _ _ [_] [_; _]); [apply write_emits|]. intros _.
  apply (emits_bind _ _ [_] [_]); [apply write_emits|]. intros _.
  apply write_emits.
Qed.

Lemma write_artifacts_emits vars t :
  emits (write_artifacts vars t) (artifact_calls vars t).
Proof.
  unfold write_artifacts, artifact_calls.
  apply emits_bind; [apply configure_ssh_emits|]. intros _.
  apply emits_bind; [apply configure_wifi_emits|]. intros _.
  apply configure_ab_flasher_emits.
Qed.

Lemma emits_Ok {A} (m : M A) l w a w' :
  emits m l -> m w = (Ok a, w') -> trace w' = trace w ++ l.
Proof.
  intros H E. destruct (H w) as (l1 & l2 & -> & Ht & Hok).
  rewrite E in *. simpl in *. rewrite (Hok a eq_refl), app_nil_r. exact Ht.
Qed.

Lemma emits_any {A} (m : M A) l w :
  emits m l -> exists l1 l2, l = l1 ++ l2 /\ trace (snd (m w)) = trace w ++ l1.
Proof. intros H. destruct (H w) as (l1 & l2 & E & Ht & _). eauto. Qed.

Lemma no_remove_in_artifact_calls vars t :
  Forall (fun c => is_remove c = false) (artifact_calls vars t).
Proof.
  unfold artifact_calls, ssh_calls, wifi_calls, ab_flasher_calls.
  destruct (PyStr.truthy (ssh_key vars)), (PyStr.truthy (wifi_ssid vars));
    repeat (apply Forall_app; split); repeat constructor.
Qed.

(** ** What a returning call has done, and when a call returns *)

Lemma open_w_Ok p w w' :
  open_w p w = (Ok tt, w') -> fs w' = <[p := File EmptyString]> (fs w).
Proof.
  unfold open_w, oscall_with. destruct (faults w _); [discriminate|].
  simpl. destruct (fs w !! p) as [[c|]|]; [| discriminate |].
  - intros [= <-]. reflexivity.
  - destruct (blocked (fs w) p); [discriminate|].
    destruct (parent p) as [d|]; [destruct (is_dir (fs w) d); [|discriminate]|];
      intros [= <-]; reflexivity.
Qed.

Lemma write_Ok p d w w' :
  write p d w = (Ok tt, w') ->
  exists c, fs w !! p = Some (File c) /\ fs w' = <[p := File (c +:+ d)]> (fs w).
Proof.
  unfold write, oscall_with. destruct (faults w _); [discriminate|].
  simpl. destruct (fs w !! p) as [[c|]|]; intros [= <-]. eauto.
Qed.

Lemma os_remove_Ok p w w' :
  os_remove p w = (Ok tt, w') ->
  fs w' = delete p (fs w) /\ trace w' = trace w ++ [Remove p].
Proof.
  unfold os_remove, oscall_with. destruct (faults w _); [discriminate|].
  simpl. destruct (fs w !! p) as [[c|]|]; intros [= <-]. split; reflexivity.
Qed.

Lemma os_remove_Raise p w e w' :
  os_remove p w = (Raise e, w') -> fs w' = fs w.
Proof.
  unfold os_remove, oscall_with. destruct (faults w _); [now intros [= _ <-]|].
  simpl. destruct (fs w !! p) as [[c|]|]; intros [= _ <-]; reflexivity.
Qed.

Lemma makedirs_Ok_dir p w w' :
  makedirs p w = (Ok tt, w') -> fs w' !! p = Some Dir.
Proof.
  unfold makedirs, oscall_with. destruct (faults w _); [discriminate|]. simpl.
  destruct (fs w !! p) as [[c|]|] eqn:E; [discriminate | now intros [= <-] |].
  destruct (existsb _ _); [discriminate|]. intros [= <-]. simpl.
  unfold mkdir_missing at 1.
  destruct (mkdirs_lookup_cases (ancestors p) (fs w) p) as [H | (_ & _ & H)].
  - rewrite H, E. apply lookup_insert_eq.
  - now rewrite H.
Qed.

Lemma makedirs_Ok_existing p w w' :
  makedirs p w = (Ok tt, w') -> fs w !! p = Some Dir -> fs w' = fs w.
Proof.
  unfold makedirs, oscall_with. destruct (faults w _); [discriminate|]. simpl.
  intros H E. rewrite E in H. now injection H as <-.
Qed.

Lemma makedirs_progress p w :
  faults w (Makedirs p) = None -> dir_creatable (fs w) p ->
  exists w', makedirs p w = (Ok tt, w').
Proof.
  intros Hf [Hp Ha]. unfold makedirs, oscall_with. rewrite Hf. simpl.
  unfold is_file in Hp. destruct (fs w !! p) as [[c|]|]; [discriminate | eauto |].
  assert (E : existsb (is_file (fs w)) (ancestors p) = false).
  { clear -Ha. induction Ha as [|a l Hx _ IH]; simpl; [reflexivity|].
    now rewrite Hx, IH. }
  rewrite E. eauto.
Qed.

Lemma blocked_false (m : gmap string node) (p : string) :
  blocked m p = false <-> Forall (fun a => is_file m a = false) (ancestors p).
Proof.
  unfold blocked. induction (ancestors p) as [|a l IH]; simpl.
  - split; [constructor | reflexivity].
  - rewrite orb_false_iff, Forall_cons, IH. reflexivity.
Qed.

Lemma open_w_progress p w :
  faults w (OpenW p) = None -> file_creatable (fs w) p ->
  exists w', open_w p w = (Ok tt, w').
Proof.
  intros Hf [Hp Hc]. unfold open_w, oscall_with. rewrite Hf. simpl.
  destruct (fs w !! p) as [[c|]|]; [eauto | congruence |].
  destruct (Hc eq_refl) as [Ha Hd]. apply blocked_false in Ha. rewrite Ha.
  destruct (parent p) as [d|]; [|eauto].
  unfold is_dir. rewrite (Hd d eq_refl). eauto.
Qed.

(** The parent directory is what stands between [open_w] and a new file:
    without it the open raises [FileNotFoundError]. *)
Lemma open_w_no_directory p d w :
  faults w (OpenW p) = None -> fs w !! p = None -> blocked (fs w) p = false ->
  parent p = Some d -> fs w !! d = None ->
  open_w p w = (Raise FileNotFoundError, log_call (OpenW p) w).
Proof.
  intros Hf Hp Hb Hd Hn. unfold open_w, oscall_with. rewrite Hf. simpl.
  rewrite Hp, Hb, Hd. unfold is_dir. now rewrite Hn.
Qed.

Lemma not_file_after {A} (m : M A) q w r w' :
  preserves (no_file_created q) m -> m w = (r, w') ->
  is_file (fs w) q = false -> is_file (fs w') q = false.
Proof.
  intros H E Hq. specialize (H w). rewrite E in H. unfold no_file_created in H.
  simpl in H. destruct (is_file (fs w') q); [|reflexivity].
  rewrite (H eq_refl) in Hq. discriminate Hq.
Qed.

Lemma write_progress p d w c :
  faults w (Write p d) = None -> fs w !! p = Some (File c) ->
  exists w', write p d w = (Ok tt, w').
Proof.
  intros Hf Hp. unfold write, oscall_with. rewrite Hf. simpl. rewrite Hp. eauto.
Qed.

Lemma os_remove_progress p w :
  faults w (Remove p) = None -> is_file (fs w) p = true ->
  exists w', os_remove p w = (Ok tt, w').
Proof.
  intros Hf Hp. unfold os_remove, oscall_with. rewrite Hf. simpl.
  unfold is_file in Hp. destruct (fs w !! p) as [[c|]|]; [eauto | discriminate..].
Qed.

Lemma same_faults_of {A} (m : M A) w r w' :
  preserves same_faults m -> m w = (r, w') -> faults w' = faults w.
Proof. intros H E. specialize (H w). now rewrite E in H. Qed.

Lemma fault_free_after {A} (m : M A) w :
  preserves same_faults m -> fault_free w -> fault_free (snd (m w)).
Proof. intros H Hw c. rewrite (H w). apply Hw. Qed.

Lemma write_block_Ok d f data w w' :
  write_block d f data w = (Ok tt, w') -> fs w' !! f = Some (File data).
Proof.
  unfold write_block. intros H.
  apply bind_Ok_inv in H as ([] & w1 & _ & H).
  apply bind_Ok_inv in H as ([] & w2 & Ho & H).
  apply open_w_Ok in Ho. apply write_Ok in H as (c & Hc & ->).
  rewrite Ho, lookup_insert_eq in Hc. injection Hc as <-.
  now rewrite lookup_insert_eq.
Qed.

Lemma write_block_progress d f data w :
  fault_free w -> dir_creatable (fs w) d -> fs w !! f <> Some Dir ->
  ancestors f = ancestors d ++ [d] ->
  exists w', write_block d f data w = (Ok tt, w').
Proof.
  intros Hf Hd Hp Ha. unfold write_block.
  assert (Hn : ~ In f (d :: ancestors d)).
  { intros Hin. assert (Hin' : In f (ancestors f)).
    { rewrite Ha, in_app_iff. simpl. destruct Hin; auto. }
    apply ancestors_shorter in Hin'. lia. }
  destruct (makedirs_progress d w (Hf _) Hd) as [w1 E1].
  rewrite (bind_Ok _ _ _ _ _ E1).
  pose proof (makedirs_keeps f d Hn w) as K. rewrite E1 in K. unfold keeps in K.
  pose proof (makedirs_same_faults d w) as F. rewrite E1 in F. simpl in K, F.
  pose proof (makedirs_Ok_dir d w w1 E1) as Dd.
  assert (C : file_creatable (fs w1) f).
  { split; [now rewrite K|]. intros _. split.
    - rewrite Ha. apply Forall_app. split.
      + destruct Hd as [_ Hd]. rewrite Forall_forall in Hd |- *. intros a Hin.
        apply (not_file_after (makedirs d) a w (Ok tt) w1);
          [apply makedirs_no_file_created | exact E1 | now apply Hd].
      + repeat constructor. unfold is_file. now rewrite Dd.
    - intros d'. unfold parent. rewrite Ha, last_snoc. now intros [= <-]. }
  destruct (open_w_progress f w1) as [w2 E2];
    [rewrite F; apply Hf | exact C |].
  rewrite (bind_Ok _ _ _ _ _ E2).
  pose proof (open_w_same_faults f w1) as F2. rewrite E2 in F2. simpl in F2.
  apply (write_progress f data w2 EmptyString).
  - rewrite F2, F. apply Hf.
  - rewrite (open_w_Ok _ _ _ E2). apply lookup_insert_eq.
Qed.

Lemma configure_ab_flasher_Ok vars t w w' :
  configure_ab_flasher vars t w = (Ok tt, w') ->
  fs w' !! ab_flasher_env t = Some (File (ab_flasher_env_content (final_image vars))).
Proof.
  rewrite configure_ab_flasher_eq. intros H.
  apply bind_Ok_inv in H as ([] & w1 & Ho & H). apply open_w_Ok in Ho.
  apply bind_Ok_inv in H as ([] & w2 & H1 & H).
  apply write_Ok in H1 as (c1 & Hc1 & E1).
  apply bind_Ok_inv in H as ([] & w3 & H2 & H).
  apply write_Ok in H2 as (c2 & Hc2 & E2).
  apply write_Ok in H as (c3 & Hc3 & E3).
  rewrite Ho, lookup_insert_eq in Hc1. injection Hc1 as <-.
  rewrite E1, lookup_insert_eq in Hc2. injection Hc2 as <-.
  rewrite E2, lookup_insert_eq in Hc3. injection Hc3 as <-.
  rewrite E3, lookup_insert_eq. unfold ab_flasher_env_content.
  f_equal. f_equal. now rewrite !append_assoc.
Qed.

Lemma configure_ab_flasher_progress vars t w :
  fault_free w -> file_creatable (fs w) (ab_flasher_env t) ->
  exists w', configure_ab_flasher vars t w = (Ok tt, w').
Proof.
  intros Hf Hp. rewrite configure_ab_flasher_eq.
  destruct (open_w_progress (ab_flasher_env t) w (Hf _) Hp) as [w1 E1].
  rewrite (bind_Ok _ _ _ _ _ E1).
  pose proof (same_faults_of _ _ _ _ (open_w_same_faults _) E1) as F1.
  apply open_w_Ok in E1.
  edestruct (write_progress (ab_flasher_env t)) as [w2 E2];
    [| rewrite E1; apply lookup_insert_eq |]; [rewrite F1; apply Hf|].
  rewrite (bind_Ok _ _ _ _ _ E2).
  pose proof (same_faults_of _ _ _ _ (write_same_faults _ _) E2) as F2.
  apply write_Ok in E2 as (c2 & _ & E2).
  edestruct (write_progress (ab_flasher_env t)) as [w3 E3];
    [| rewrite E2; apply lookup_insert_eq |]; [rewrite F2, F1; apply Hf|].
  rewrite (bind_Ok _ _ _ _ _ E3).
  pose proof (same_faults_of _ _ _ _ (write_same_faults _ _) E3) as F3.
  apply write_Ok in E3 as (c3 & _ & E3).
  eapply (write_progress (ab_flasher_env t));
    [rewrite F3, F2, F1; apply Hf | rewrite E3; apply lookup_insert_eq].
Qed.

(** ** The locator reads and changes nothing *)

Lemma calls_only_weaken (P Q : oscall -> Prop) w w' :
  (forall c, P c -> Q c) -> calls_only P w w' -> calls_only Q w w'.
Proof.
  intros H (cs & E & F). exists cs. split; [exact E|].
  eapply Forall_impl; [exact F | exact H].
Qed.

Lemma listdir_reads p : preserves (calls_only (fun c => is_read c = true)) (listdir p).
Proof.
  unfold listdir, oscall_with.
  prim_cases w p; now apply (calls_only_log _ (Listdir p) w).
Qed.
Lemma open_r_reads p : preserves (calls_only (fun c => is_read c = true)) (open_r p).
Proof.
  unfold open_r, oscall_with.
  prim_cases w p; now apply (calls_only_log _ (OpenR p) w).
Qed.
Lemma readlines_reads p :
  preserves (calls_only (fun c => is_read c = true)) (readlines p).
Proof.
  unfold readlines, oscall_with.
  prim_cases w p; now apply (calls_only_log _ (Readlines p) w).
Qed.

Section GetMounts.
Context (R : world -> world -> Prop) `{!Reflexive R} `{!Transitive R}.
Hypothesis R_listdir : forall p, preserves R (listdir p).
Hypothesis R_open_r : forall p, preserves R (open_r p).
Hypothesis R_readlines : forall p, preserves R (readlines p).

Lemma get_mounts_preserves : preserves R get_mounts.
Proof.
  unfold get_mounts.
  apply preserves_try_except; try apply _.
  - apply preserves_bind; try apply _; [apply R_listdir|].
    intros ds. apply preserves_ret; apply _.
  - apply preserves_try_except; try apply _.
    + apply preserves_bind; try apply _; [apply R_open_r|].
      intros _. apply preserves_bind; try apply _; [apply R_readlines|].
      intros lines w. rewrite comprehension_index. simpl. reflexivity.
    + apply preserves_raise; apply _.
Qed.

Lemma find_data_mount_in_preserves mounts : preserves R (find_data_mount_in mounts).
Proof.
  induction mounts as [|m rest IH]; simpl.
  - apply preserves_raise; apply _.
  - apply preserves_try_except; try apply _; [|exact IH].
    apply preserves_bind; try apply _; [apply R_open_r|].
    intros _. apply preserves_ret; apply _.
Qed.

Lemma find_data_mount_preserves : preserves R find_data_mount.
Proof.
  unfold find_data_mount.
  apply preserves_bind; try apply _; [apply get_mounts_preserves|].
  intros mounts. apply find_data_mount_in_preserves.
Qed.
End GetMounts.

Lemma find_data_mount_same_fs : preserves same_fs find_data_mount.
Proof.
  assert (L : forall c w, same_fs w (log_call c w)) by reflexivity.
  apply find_data_mount_preserves; try apply _; intros p.
  - apply listdir_preserves; first [exact L | apply _].
  - apply open_r_preserves; first [exact L | apply _].
  - apply readlines_preserves; first [exact L | apply _].
Qed.

Lemma find_data_mount_same_faults : preserves same_faults find_data_mount.
Proof.
  apply find_data_mount_preserves; try apply _; intros p.
  - apply listdir_same_faults.
  - apply open_r_same_faults.
  - apply readlines_same_faults.
Qed.

Lemma find_data_mount_reads :
  preserves (calls_only (fun c => is_read c = true)) find_data_mount.
Proof.
  apply find_data_mount_preserves; try apply _; intros p.
  - apply listdir_reads.
  - apply open_r_reads.
  - apply readlines_reads.
Qed.

Lemma marker_readable_same w w' m :
  fs w' = fs w -> faults w' = faults w ->
  marker_readable w' m = marker_readable w m.
Proof. intros E1 E2. unfold marker_readable. now rewrite E1, E2. Qed.

Lemma marker_readable_true w m :
  marker_readable w m = true <->
  faults w (OpenR (flag_file m)) = None /\ is_file (fs w) (flag_file m) = true.
Proof.
  unfold marker_readable. destruct (faults w _) as [e|]; split; intros H.
  - discriminate H.
  - destruct H as [H _]. discriminate H.
  - split; [reflexivity | exact H].
  - apply H.
Qed.

Lemma marker_readable_is_file w m :
  marker_readable w m = true -> is_file (fs w) (flag_file m) = true.
Proof. unfold marker_readable. destruct (faults w _); [discriminate | auto]. Qed.

Lemma find_data_mount_Ok w t w0 :
  find_data_mount w = (Ok t, w0) ->
  fs w0 = fs w /\ faults w0 = faults w /\ marker_readable w t = true
  /\ exists cs, trace w0 = trace w ++ cs /\ Forall (fun c => is_read c = true) cs.
Proof.
  intros H.
  pose proof (find_data_mount_same_fs w) as F1.
  pose proof (find_data_mount_same_faults w) as F2.
  pose proof (find_data_mount_reads w) as F3.
  rewrite H in F1, F2, F3. simpl in *.
  refine (conj F1 (conj F2 (conj _ F3))).
  unfold find_data_mount in H. rewrite bind_unfold in H.
  pose proof (get_mounts_same_fs w) as G1.
  pose proof (get_mounts_preserves same_faults listdir_same_faults
                open_r_same_faults readlines_same_faults w) as G2.
  destruct (get_mounts w) as [[ms|e] w1]; [|discriminate]. simpl in G1, G2.
  rewrite find_data_mount_in_run in H.
  destruct (find (marker_readable w1) ms) as [x|] eqn:E; [|discriminate].
  injection H as -> _. apply find_some in E as [_ E].
  now rewrite (marker_readable_same w w1) in E.
Qed.

Lemma main_unfold vars w :
  main vars w =
  match find_data_mount w with
  | (Ok t, w0) => main_from vars t w0
  | (Raise e, w0) => (Raise e, w0)
  end.
Proof. reflexivity. Qed.

Lemma main_located vars w t w0 :
  find_data_mount w = (Ok t, w0) ->
  main vars w =
  match write_artifacts vars t w0 with
  | (Ok _, w3) => os_remove (flag_file t) w3
  | (Raise e, w3) => (Raise e, w3)
  end.
Proof. intros H. now rewrite main_unfold, H, main_from_split, bind_unfold. Qed.

Lemma main_not_located vars w e w0 :
  find_data_mount w = (Raise e, w0) -> main vars w = (Raise e, w0).
Proof. intros H. now rewrite main_unfold, H. Qed.

Lemma main_Ok_inv vars w w' :
  main vars w = (Ok tt, w') ->
  exists t w0 w1 w2 w3,
    find_data_mount w = (Ok t, w0)
    /\ configure_ssh vars t w0 = (Ok tt, w1)
    /\ configure_wifi vars t w1 = (Ok tt, w2)
    /\ configure_ab_flasher vars t w2 = (Ok tt, w3)
    /\ os_remove (flag_file t) w3 = (Ok tt, w').
Proof.
  intros H. unfold main in H.
  apply bind_Ok_inv in H as (t & w0 & Hf & H). unfold main_from in H.
  apply bind_Ok_inv in H as ([] & w1 & H1 & H).
  apply bind_Ok_inv in H as ([] & w2 & H2 & H).
  apply bind_Ok_inv in H as ([] & w3 & H3 & H).
  exists t, w0, w1, w2, w3. auto.
Qed.

(** ** A run that returns has written its artifacts *)

Lemma keeps_file_of {A} (m : M A) q w r w' c :
  preserves (keeps_file q) m -> m w = (r, w') ->
  fs w !! q = Some (File c) -> fs w' !! q = Some (File c).
Proof. intros H E. specialize (H w). rewrite E in H. apply H. Qed.

Lemma keeps_of {A} (m : M A) q w r w' :
  preserves (keeps q) m -> m w = (r, w') -> fs w' !! q = fs w !! q.
Proof. intros H E. specialize (H w). now rewrite E in H. Qed.

Lemma no_file_created_of {A} (m : M A) q w r w' :
  preserves (no_file_created q) m -> m w = (r, w') ->
  is_file (fs w') q = true -> is_file (fs w) q = true.
Proof. intros H E. specialize (H w). now rewrite E in H. Qed.

Lemma configure_ssh_Ok vars t w w' :
  PyStr.truthy (ssh_key vars) = true ->
  configure_ssh vars t w = (Ok tt, w') ->
  fs w' !! authorized_keys t =
  Some (File (PyStr.format (ssh_key vars) +:+ PyStr.nl)).
Proof.
  intros Ht. rewrite configure_ssh_eq, Ht. apply write_block_Ok.
Qed.

Lemma configure_wifi_Ok vars t w w' :
  PyStr.truthy (wifi_ssid vars) = true ->
  configure_wifi vars t w = (Ok tt, w') ->
  fs w' !! wpa_supplicant_conf t =
  Some (File (make_supplicant (wifi_country vars) (wifi_ssid vars)
                              (wifi_password vars))).
Proof.
  intros Ht. rewrite configure_wifi_eq, Ht. apply write_block_Ok.
Qed.

Lemma main_Ok_artifacts vars w w' :
  main vars w = (Ok tt, w') ->
  exists t w0,
    find_data_mount w = (Ok t, w0)
    /\ fs w' !! ab_flasher_env t =
       Some (File (ab_flasher_env_content (final_image vars)))
    /\ (PyStr.truthy (ssh_key vars) = true ->
        fs w' !! authorized_keys t =
        Some (File (PyStr.format (ssh_key vars) +:+ PyStr.nl)))
    /\ (PyStr.truthy (wifi_ssid vars) = true ->
        fs w' !! wpa_supplicant_conf t =
        Some (File (make_supplicant (wifi_country vars) (wifi_ssid vars)
                                    (wifi_password vars))))
    /\ fs w' !! flag_file t = None.
Proof.
  intros H. apply main_Ok_inv in H as (t & w0 & w1 & w2 & w3 & Hf & H1 & H2 & H3 & H4).
  destruct (artifact_paths_distinct t t) as (D1 & D2 & D3 & D4 & D5 & D6 & _).
  exists t, w0. split; [exact Hf|].
  apply os_remove_Ok in H4 as [E4 _].
  refine (conj _ (conj _ (conj _ _))).
  - rewrite E4, lookup_delete_ne by congruence.
    now apply (configure_ab_flasher_Ok vars t w2 w3).
  - intros Ht. rewrite E4, lookup_delete_ne by congruence.
    eapply keeps_file_of;
      [ eapply preserves_weaken;
        [apply keeps_keeps_file | apply (configure_ab_flasher_keeps vars t)];
        congruence
      | exact H3 |].
    eapply keeps_file_of;
      [apply (configure_wifi_keeps_file vars t); congruence | exact H2 |].
    now apply (configure_ssh_Ok vars t w0 w1).
  - intros Ht. rewrite E4, lookup_delete_ne by congruence.
    eapply keeps_file_of;
      [ eapply preserves_weaken;
        [apply keeps_keeps_file | apply (configure_ab_flasher_keeps vars t)];
        congruence
      | exact H3 |].
    now apply (configure_wifi_Ok vars t w1 w2).
  - rewrite E4. apply lookup_delete_eq.
Qed.

(** ** What the whole run leaves alone *)

Lemma main_from_preserves (R : world -> world -> Prop)
      `{!Reflexive R} `{!Transitive R} vars t :
  preserves R (write_artifacts vars t) ->
  preserves R (os_remove (flag_file t)) ->
  preserves R (main_from vars t).
Proof.
  intros H1 H2. eapply preserves_ext; [intros w; apply main_from_split|].
  apply preserves_bind; try apply _; [exact H1 | intros _; exact H2].
Qed.

Lemma main_preserves (R : world -> world -> Prop)
      `{!Reflexive R} `{!Transitive R} vars :
  preserves R find_data_mount ->
  (forall t, preserves R (write_artifacts vars t)) ->
  (forall t, preserves R (os_remove (flag_file t))) ->
  preserves R (main vars).
Proof.
  intros H0 H1 H2. unfold main.
  apply preserves_bind; try apply _; [exact H0|].
  intros t. apply main_from_preserves; auto.
Qed.

Lemma same_fs_keeps q w w' : same_fs w w' -> keeps q w w'.
Proof. unfold same_fs, keeps. now intros ->. Qed.

Lemma main_same_faults vars : preserves same_faults (main vars).
Proof.
  apply main_preserves; try apply _.
  - apply find_data_mount_same_faults.
  - intros t. apply write_artifacts_same_faults.
  - intros t. apply os_remove_same_faults.
Qed.

Lemma main_no_file_created_flag vars m :
  preserves (no_file_created (flag_file m)) (main vars).
Proof.
  apply main_preserves; try apply _.
  - eapply preserves_weaken; [|apply find_data_mount_same_fs].
    intros w w' H. apply keeps_no_file_created. now apply same_fs_keeps.
  - intros t. apply write_artifacts_no_file_created_flag.
  - intros t. apply os_remove_no_file_created.
Qed.

(** ** The marker goes last *)

Lemma os_remove_trace p w : trace (snd (os_remove p w)) = trace w ++ [Remove p].
Proof.
  unfold os_remove, oscall_with. destruct (faults w _); [reflexivity|].
  simpl. destruct (fs w !! p) as [[c|]|]; reflexivity.
Qed.

Lemma calls_of_eq {A} (m : M A) w cs :
  trace (snd (m w)) = trace w ++ cs -> calls_of m w = cs.
Proof. intros E. unfold calls_of. rewrite E. apply drop_app_length. Qed.

Lemma is_read_not_remove c : is_read c = true -> is_remove c = false.
Proof. destruct c; simpl; congruence. Qed.

Lemma is_file_lookup m p :
  is_file m p = true <-> exists c, m !! p = Some (File c).
Proof.
  unfold is_file. destruct (m !! p) as [[c|]|]; split; intros H;
    first [discriminate H | now destruct H | now eauto].
Qed.

Lemma aborts_ret {A} (a : A) : aborts_on_fault (mret a : M A).
Proof.
  intros w. exists []. simpl. rewrite app_nil_r.
  split; [reflexivity|]. split; [reflexivity|]. intros c e [].
Qed.

Lemma aborts_bind {A B} (m : M A) (k : A -> M B) :
  aborts_on_fault m -> (forall a, aborts_on_fault (k a)) ->
  aborts_on_fault (m ≫= k).
Proof.
  intros Hm Hk w. rewrite bind_unfold.
  destruct (Hm w) as (cs1 & T1 & F1 & A1).
  destruct (m w) as [[a|e1] w1]; simpl in *.
  - destruct (Hk a w1) as (cs2 & T2 & F2 & A2).
    exists (cs1 ++ cs2). rewrite T2, T1, F2, F1, app_assoc.
    split; [reflexivity|]. split; [reflexivity|].
    intros c e Hin Hc. apply in_app_iff in Hin as [Hin | Hin].
    + destruct (A1 c e Hin Hc) as [H _]. discriminate H.
    + rewrite <- F1 in Hc. destruct (A2 c e Hin Hc) as [H1 H2].
      split; [exact H1 | apply last_app_Some; now left].
  - exists cs1. split; [exact T1|]. split; [exact F1|].
    intros c e Hin Hc. destruct (A1 c e Hin Hc) as [H1 H2].
    split; [congruence | exact H2].
Qed.

Lemma aborts_ext {A} (m m' : M A) :
  (forall w, m w = m' w) -> aborts_on_fault m' -> aborts_on_fault m.
Proof. intros E H w. rewrite E. apply H. Qed.

Ltac abort_case :=
  split; [reflexivity|]; split; [reflexivity|];
  intros ? ? [<- | []] ?; split; first [congruence | reflexivity].

Ltac aborts_prim w p :=
  intros w; eexists [_]; simpl;
  match goal with |- context [faults w ?c] => destruct (faults w c) eqn:? end;
  simpl; [abort_case|];
  destruct (fs w !! p) as [[?|]|]; simpl; open_w_cases w p; abort_case.

Lemma makedirs_aborts p : aborts_on_fault (makedirs p).
Proof.
  unfold makedirs, oscall_with. intros w. exists [Makedirs p]. simpl.
  destruct (faults w (Makedirs p)) eqn:Ef; simpl; [abort_case|].
  destruct (fs w !! p) as [[?|]|]; simpl; [| |destruct (existsb _ _); simpl];
    abort_case.
Qed.
Lemma open_w_aborts p : aborts_on_fault (open_w p).
Proof. unfold open_w, oscall_with. aborts_prim w p. Qed.
Lemma write_aborts p d : aborts_on_fault (write p d).
Proof. unfold write, oscall_with. aborts_prim w p. Qed.
Lemma os_remove_aborts p : aborts_on_fault (os_remove p).
Proof. unfold os_remove, oscall_with. aborts_prim w p. Qed.

Lemma write_block_aborts d f data : aborts_on_fault (write_block d f data).
Proof.
  unfold write_block.
  apply aborts_bind; [apply makedirs_aborts|]. intros _.
  apply aborts_bind; [apply open_w_aborts|]. intros _. apply write_aborts.
Qed.

Lemma main_from_aborts vars t : aborts_on_fault (main_from vars t).
Proof.
  eapply aborts_ext; [intros w; apply main_from_split|].
  apply aborts_bind; [|intros _; apply os_remove_aborts].
  unfold write_artifacts.
  apply aborts_bind.
  { eapply aborts_ext; [intros w; apply configure_ssh_eq|].
    destruct (PyStr.truthy _); [apply write_block_aborts | apply aborts_ret]. }
  intros _. apply aborts_bind.
  { eapply aborts_ext; [intros w; apply configure_wifi_eq|].
    destruct (PyStr.truthy _); [apply write_block_aborts | apply aborts_ret]. }
  intros _. rewrite configure_ab_flasher_eq.
  apply aborts_bind; [apply open_w_aborts|]. intros _.
  apply aborts_bind; [apply write_aborts|]. intros _.
  apply aborts_bind; [apply write_aborts|]. intros _. apply write_aborts.
Qed.

(** C4.  Once the volume [t] is located its marker is readable, and the
    run removes it only by its last call, after every artifact block has
    returned: if a block raises ([makedirs], [open] or [write] failing for
    any reason), the run ends there with that error, no removal has been
    attempted and the marker is still readable for a later run; whenever
    the run raises the marker is still readable; when the run returns the
    marker is gone.  A call of the writer that the environment faults is
    the last call of the run, and the run raises that fault. *)
Theorem marker_removed_last (vars : Variables) (w : world) (t : string) (w0 : world) :
  find_data_mount w = (Ok t, w0) ->
  marker_readable w0 t = true
  /\ (forall e w3, write_artifacts vars t w0 = (Raise e, w3) ->
        main vars w = (Raise e, w3)
        /\ marker_readable w3 t = true
        /\ Forall (fun c => is_remove c = false) (calls_of (main vars) w))
  /\ (forall w3, write_artifacts vars t w0 = (Ok tt, w3) ->
        main vars w = os_remove (flag_file t) w3
        /\ marker_readable w3 t = true
        /\ exists cs, calls_of (main vars) w = cs ++ [Remove (flag_file t)]
                      /\ Forall (fun c => is_remove c = false) cs)
  /\ (forall e w', main vars w = (Raise e, w') -> marker_readable w' t = true)
  /\ (forall w', main vars w = (Ok tt, w') ->
        fs w' !! flag_file t = None
        /\ exists w3, write_artifacts vars t w0 = (Ok tt, w3)
                      /\ fs w' = delete (flag_file t) (fs w3))
  /\ (forall c e, In c (calls_of (main vars) w) -> is_read c = false ->
        faults w c = Some e ->
        fst (main vars w) = Raise e /\ last (calls_of (main vars) w) = Some c).
Proof.
  intros Hf.
  destruct (find_data_mount_Ok w t w0 Hf) as (E0 & F0 & Hr & cs0 & T0 & R0).
  assert (M0 : marker_readable w0 t = true).
  { now rewrite (marker_readable_same w w0). }
  assert (K : forall r w3, write_artifacts vars t w0 = (r, w3) ->
                marker_readable w3 t = true
                /\ exists l1 l2, artifact_calls vars t = l1 ++ l2
                     /\ trace w3 = trace w ++ cs0 ++ l1
                     /\ (forall a, r = Ok a -> l2 = [])).
  { intros r w3 E. split.
    - apply marker_readable_true in M0 as [Mf Mi]. apply marker_readable_true.
      split.
      + now rewrite (same_faults_of _ _ _ _ (write_artifacts_same_faults vars t) E).
      + apply is_file_lookup in Mi as [c Hc]. apply is_file_lookup. exists c.
        eapply keeps_file_of;
          [apply write_artifacts_keeps_file_flag | exact E | exact Hc].
    - destruct (write_artifacts_emits vars t w0) as (l1 & l2 & El & Et & Hok).
      rewrite E in Et, Hok. simpl in Et, Hok. exists l1, l2.
      repeat split; [exact El | now rewrite Et, T0, app_assoc | exact Hok]. }
  assert (NR : forall l1 l2, artifact_calls vars t = l1 ++ l2 ->
                 Forall (fun c => is_remove c = false) (cs0 ++ l1)).
  { intros l1 l2 El. apply Forall_app. split.
    - eapply Forall_impl; [exact R0 | apply is_read_not_remove].
    - pose proof (no_remove_in_artifact_calls vars t) as N.
      rewrite El in N. now apply Forall_app in N. }
  pose proof (main_located vars w t w0 Hf) as Hm.
  refine (conj M0 (conj _ (conj _ (conj _ (conj _ _))))).
  - intros e w3 E. rewrite E in Hm.
    destruct (K _ _ E) as (Hfile & l1 & l2 & El & Et & _).
    repeat split; [exact Hm | exact Hfile |].
    rewrite (calls_of_eq (main vars) w (cs0 ++ l1)); [now apply (NR l1 l2)|].
    now rewrite Hm.
  - intros w3 E. rewrite E in Hm.
    destruct (K _ _ E) as (Hfile & l1 & l2 & El & Et & Hok).
    repeat split; [exact Hm | exact Hfile |].
    exists (cs0 ++ l1). split; [|now apply (NR l1 l2)].
    apply calls_of_eq. rewrite Hm, os_remove_trace, Et. now rewrite !app_assoc.
  - intros e w' Hrun. rewrite Hm in Hrun.
    destruct (write_artifacts vars t w0) as [[[]|e3] w3] eqn:E.
    + destruct (K _ _ eq_refl) as (Hfile & _).
      rewrite (marker_readable_same w3 w'); [exact Hfile | |].
      * exact (os_remove_Raise _ _ _ _ Hrun).
      * exact (same_faults_of _ _ _ _ (os_remove_same_faults _) Hrun).
    + destruct (K _ _ eq_refl) as (Hfile & _). now injection Hrun as _ <-.
  - intros w' Hrun. rewrite Hm in Hrun.
    destruct (write_artifacts vars t w0) as [[[]|e3] w3] eqn:E; [|discriminate].
    apply os_remove_Ok in Hrun as [Hd _]. split.
    + rewrite Hd. apply lookup_delete_eq.
    + exists w3. split; [reflexivity | exact Hd].
  - intros c e Hin Hnr Hc.
    destruct (main_from_aborts vars t w0) as (cs & Tc & _ & Ac).
    assert (Ecalls : calls_of (main vars) w = cs0 ++ cs).
    { apply calls_of_eq. rewrite main_unfold, Hf, Tc, T0. now rewrite app_assoc. }
    rewrite Ecalls in *. apply in_app_iff in Hin as [Hin | Hin].
    + rewrite Forall_forall in R0. apply list_elem_of_In, R0 in Hin. congruence.
    + rewrite <- F0 in Hc. destruct (Ac c e Hin Hc) as [H1 H2].
      rewrite main_unfold, Hf. split; [exact H1 | apply last_app_Some; now left].
Qed.

Lemma marker_removed_last_witness :
  fs (snd (main Examples.full_config Examples.mac_host))
    !! flag_file "/Volumes/boot" = None
  /\ marker_readable (snd (main Examples.full_config Examples.mac_host_card_full))
                     "/Volumes/boot" = true
  /\ fst (main Examples.full_config Examples.mac_host_card_full)
     = Raise (OSError 28).
Proof.
  refine (conj _ (conj _ _)).
  - destruct (marker_removed_last Examples.full_config Examples.mac_host
                "/Volumes/boot" (snd (find_data_mount Examples.mac_host)))
      as (_ & _ & _ & _ & H & _); [vm_compute; reflexivity|].
    apply (H (snd (main Examples.full_config Examples.mac_host))).
    vm_compute. reflexivity.
  - destruct (marker_removed_last Examples.full_config Examples.mac_host_card_full
                "/Volumes/boot" (snd (find_data_mount Examples.mac_host_card_full)))
      as (_ & _ & _ & H & _); [vm_compute; reflexivity|].
    apply (H (OSError 28)). vm_compute. reflexivity.
  - destruct (marker_removed_last Examples.full_config Examples.mac_host_card_full
                "/Volumes/boot" (snd (find_data_mount Examples.mac_host_card_full)))
      as (_ & _ & _ & _ & _ & H); [vm_compute; reflexivity|].
    apply (H (Write (wpa_supplicant_conf "/Volumes/boot")
                    Examples.expected_wpa_supplicant)).
    + vm_compute. repeat (first [left; reflexivity | right]).
    + reflexivity.
    + vm_compute. reflexivity.
Defined.

Lemma main_from_emits vars t :
  emits (main_from vars t) (artifact_calls vars t ++ [Remove (flag_file t)]).
Proof.
  eapply emits_ext; [intros w; apply main_from_split|].
  apply emits_bind; [apply write_artifacts_emits|]. intros _. apply os_remove_emits.
Qed.

(** The calls of a run that located [t]: reads, then, in order, the calls
    of the artifact blocks and the removal, cut short only by an error. *)
Lemma main_calls vars w t w0 :
  find_data_mount w = (Ok t, w0) ->
  exists cs0 l1 l2,
    Forall (fun c => is_read c = true) cs0
    /\ artifact_calls vars t ++ [Remove (flag_file t)] = l1 ++ l2
    /\ calls_of (main vars) w = cs0 ++ l1
    /\ (forall a, fst (main vars w) = Ok a -> l2 = []).
Proof.
  intros Hf. destruct (find_data_mount_Ok w t w0 Hf) as (_ & _ & _ & cs0 & T0 & R0).
  destruct (main_from_emits vars t w0) as (l1 & l2 & El & Et & Hok).
  exists cs0, l1, l2. rewrite main_unfold, Hf.
  repeat split; [exact R0 | exact El | | exact Hok].
  apply calls_of_eq. rewrite main_unfold, Hf, Et, T0. now rewrite app_assoc.
Qed.

Lemma main_Ok_calls vars w t w0 w' :
  find_data_mount w = (Ok t, w0) -> main vars w = (Ok tt, w') ->
  exists cs0,
    Forall (fun c => is_read c = true) cs0
    /\ calls_of (main vars) w =
       cs0 ++ artifact_calls vars t ++ [Remove (flag_file t)].
Proof.
  intros Hf Hm. destruct (main_calls vars w t w0 Hf) as (cs0 & l1 & l2 & R0 & El & Ec & Hok).
  rewrite Hm in Hok. simpl in Hok. rewrite (Hok tt eq_refl), app_nil_r in El.
  exists cs0. split; [exact R0 | now rewrite Ec, El].
Qed.

(** C6.  Every run that returns has opened and written
    [{target}/ab-flasher.env], whatever the SSH and WiFi settings are, and
    the file holds exactly the three lines [AB_OS_IMAGE_URL=<final_image>],
    [AB_FORCE=true] and [AB_VERBOSE=1], each ended by a newline. *)
Theorem ab_flasher_env_always_written (vars : Variables) (w w' : world) :
  main vars w = (Ok tt, w') ->
  exists t,
    fst (find_data_mount w) = Ok t
    /\ fs w' !! ab_flasher_env t =
       Some (File ("AB_OS_IMAGE_URL=" +:+ final_image vars +:+ PyStr.nl +:+
                   "AB_FORCE=true" +:+ PyStr.nl +:+
                   "AB_VERBOSE=1" +:+ PyStr.nl))
    /\ In (OpenW (ab_flasher_env t)) (calls_of (main vars) w).
Proof.
  intros H. destruct (main_Ok_artifacts vars w w' H) as (t & w0 & Hf & He & _).
  exists t. rewrite Hf. repeat split; [exact He|].
  destruct (main_Ok_calls vars w t w0 w' Hf H) as (cs0 & _ & ->).
  unfold artifact_calls, ab_flasher_calls.
  rewrite !in_app_iff. right. left. right. right. left. reflexivity.
Qed.

Lemma ab_flasher_env_always_written_witness :
  exists t,
    fst (find_data_mount Examples.mac_host) = Ok t
    /\ fs (snd (main Examples.only_image Examples.mac_host)) !! ab_flasher_env t =
       Some (File ("AB_OS_IMAGE_URL=" +:+ "http://x/img.gz" +:+ PyStr.nl +:+
                   "AB_FORCE=true" +:+ PyStr.nl +:+
                   "AB_VERBOSE=1" +:+ PyStr.nl))
    /\ In (OpenW (ab_flasher_env t))
          (calls_of (main Examples.only_image) Examples.mac_host).
Proof.
  apply (ab_flasher_env_always_written Examples.only_image Examples.mac_host).
  vm_compute. reflexivity.
Defined.

(** ** Which block makes which call *)

Lemma in_main_calls vars w t w0 c :
  find_data_mount w = (Ok t, w0) ->
  In c (calls_of (main vars) w) ->
  is_read c = true \/ In c (ssh_calls vars t) \/ In c (wifi_calls vars t)
  \/ In c (ab_flasher_calls vars t) \/ c = Remove (flag_file t).
Proof.
  intros Hf Hin.
  destruct (main_calls vars w t w0 Hf) as (cs0 & l1 & l2 & R0 & El & Ec & _).
  rewrite Ec in Hin. apply in_app_iff in Hin as [Hin | Hin].
  - left. rewrite Forall_forall in R0. apply R0. now apply list_elem_of_In.
  - right. assert (H : In c (l1 ++ l2)) by (apply in_app_iff; now left).
    rewrite <- El in H. unfold artifact_calls in H.
    rewrite !in_app_iff in H. simpl in H.
    destruct H as [[H | [H | H]] | [<- | []]]; auto.
Qed.

Lemma in_ssh_calls vars t c :
  In c (ssh_calls vars t) ->
  PyStr.truthy (ssh_key vars) = true
  /\ (c = Makedirs (ssh_dir t) \/ c = OpenW (authorized_keys t)
      \/ exists d, c = Write (authorized_keys t) d).
Proof.
  unfold ssh_calls. destruct (PyStr.truthy (ssh_key vars)); simpl; [|tauto].
  intros [<- | [<- | [<- | []]]]; eauto 6.
Qed.

Lemma in_wifi_calls vars t c :
  In c (wifi_calls vars t) ->
  PyStr.truthy (wifi_ssid vars) = true
  /\ (c = Makedirs (wifi_dir t) \/ c = OpenW (wpa_supplicant_conf t)
      \/ exists d, c = Write (wpa_supplicant_conf t) d).
Proof.
  unfold wifi_calls. destruct (PyStr.truthy (wifi_ssid vars)); simpl; [|tauto].
  intros [<- | [<- | [<- | []]]]; eauto 6.
Qed.

Lemma in_ab_flasher_calls vars t c :
  In c (ab_flasher_calls vars t) ->
  c = OpenW (ab_flasher_env t) \/ exists d, c = Write (ab_flasher_env t) d.
Proof.
  unfold ab_flasher_calls. simpl. intros [<- | [<- | [<- | [<- | []]]]]; eauto.
Qed.

Lemma more_paths_distinct t :
  wifi_dir t <> authorized_keys t
  /\ wifi_dir t <> ab_flasher_env t
  /\ wifi_dir t <> flag_file t
  /\ ssh_dir t <> wifi_dir t.
Proof.
  repeat split; apply neq_by_last_char;
    rewrite ?last_char_authorized_keys, ?last_char_wpa_supplicant_conf,
      ?last_char_ab_flasher_env, ?last_char_flag_file,
      ?last_char_wifi_dir, ?last_char_ssh_dir; discriminate.
Qed.

(** The WiFi file is opened for writing by the WiFi block alone, and the
    WiFi directory is made by it alone; likewise for the SSH file. *)
Lemma wifi_opened_only_if_ssid vars w t w0 :
  find_data_mount w = (Ok t, w0) ->
  In (OpenW (wpa_supplicant_conf t)) (calls_of (main vars) w)
  \/ In (Makedirs (wifi_dir t)) (calls_of (main vars) w) ->
  PyStr.truthy (wifi_ssid vars) = true.
Proof.
  intros Hf H.
  destruct (artifact_paths_distinct t t) as (_ & _ & _ & D4 & _ & D6 & D7).
  destruct H as [H | H];
    apply (in_main_calls vars w t w0 _ Hf) in H
      as [H | [H | [H | [H | H]]]]; try discriminate H.
  - apply in_ssh_calls in H as (_ & [H | [H | [d H]]]); congruence.
  - now apply in_wifi_calls in H.
  - apply in_ab_flasher_calls in H as [H | [d H]]; congruence.
  - apply in_ssh_calls in H as (_ & [H | [H | [d H]]]); congruence.
  - now apply in_wifi_calls in H.
  - apply in_ab_flasher_calls in H as [H | [d H]]; congruence.
Qed.

Lemma ssh_opened_only_if_key vars w t w0 :
  find_data_mount w = (Ok t, w0) ->
  In (OpenW (authorized_keys t)) (calls_of (main vars) w) ->
  PyStr.truthy (ssh_key vars) = true.
Proof.
  intros Hf H.
  destruct (artifact_paths_distinct t t) as (_ & _ & _ & D4 & D5 & _).
  apply (in_main_calls vars w t w0 _ Hf) in H
    as [H | [H | [H | [H | H]]]]; try discriminate H.
  - now apply in_ssh_calls in H.
  - apply in_wifi_calls in H as (_ & [H | [H | [d H]]]); congruence.
  - apply in_ab_flasher_calls in H as [H | [d H]]; congruence.
Qed.

(** C9.  With a network name set and the password absent, a run that
    returns has written [wifi/wpa_supplicant.conf], and its [psk] line is
    the text [ psk="None"]: the absent password is formatted as [None]. *)
Theorem wifi_without_password_writes_None (vars : Variables) (w w' : world) :
  PyStr.truthy (wifi_ssid vars) = true ->
  wifi_password vars = None ->
  main vars w = (Ok tt, w') ->
  exists t ssid,
    fst (find_data_mount w) = Ok t
    /\ wifi_ssid vars = Some ssid
    /\ In (OpenW (wpa_supplicant_conf t)) (calls_of (main vars) w)
    /\ fs w' !! wpa_supplicant_conf t =
       Some (File
         ("ctrl_interface=DIR=/var/run/wpa_supplicant GROUP=netdev" +:+ PyStr.nl +:+
          "update_config=1" +:+ PyStr.nl +:+
          "country=" +:+ wifi_country vars +:+ PyStr.nl +:+
          PyStr.nl +:+
          "network={" +:+ PyStr.nl +:+
          " ssid=" +:+ PyStr.dquote +:+ ssid +:+ PyStr.dquote +:+ PyStr.nl +:+
          " psk=" +:+ PyStr.dquote +:+ "None" +:+ PyStr.dquote +:+ PyStr.nl +:+
          "}" +:+ PyStr.nl)).
Proof.
  intros Hs Hp H.
  destruct (main_Ok_artifacts vars w w' H) as (t & w0 & Hf & _ & _ & Hw & _).
  specialize (Hw Hs). rewrite Hp in Hw.
  destruct (wifi_ssid vars) as [ssid|] eqn:E; [|discriminate Hs].
  exists t, ssid. rewrite Hf. repeat split; [|exact Hw].
  destruct (main_Ok_calls vars w t w0 w' Hf H) as (cs0 & _ & ->).
  unfold artifact_calls, wifi_calls. rewrite E, Hs.
  rewrite !in_app_iff. right. left. right. left. right. left. reflexivity.
Qed.

Lemma wifi_without_password_writes_None_witness :
  exists t ssid,
    fst (find_data_mount Examples.mac_host) = Ok t
    /\ wifi_ssid Examples.wifi_no_password = Some ssid
    /\ In (OpenW (wpa_supplicant_conf t))
          (calls_of (main Examples.wifi_no_password) Examples.mac_host)
    /\ fs (snd (main Examples.wifi_no_password Examples.mac_host))
         !! wpa_supplicant_conf t =
       Some (File
         ("ctrl_interface=DIR=/var/run/wpa_supplicant GROUP=netdev" +:+ PyStr.nl +:+
          "update_config=1" +:+ PyStr.nl +:+
          "country=" +:+ "NZ" +:+ PyStr.nl +:+
          PyStr.nl +:+
          "network={" +:+ PyStr.nl +:+
          " ssid=" +:+ PyStr.dquote +:+ ssid +:+ PyStr.dquote +:+ PyStr.nl +:+
          " psk=" +:+ PyStr.dquote +:+ "None" +:+ PyStr.dquote +:+ PyStr.nl +:+
          "}" +:+ PyStr.nl)).
Proof.
  apply (wifi_without_password_writes_None Examples.wifi_no_password
           Examples.mac_host).
  - reflexivity.
  - reflexivity.
  - vm_compute. reflexivity.
Defined.

Lemma located w t :
  fst (find_data_mount w) = Ok t -> exists w0, find_data_mount w = (Ok t, w0).
Proof. destruct (find_data_mount w) as [r w0]. simpl. intros ->. eauto. Qed.

(** C2, as the specification states it, fails: with the network name set
    and no password the WiFi file is written all the same. *)
Lemma wifi_written_without_password :
  is_file (fs (snd (main Examples.wifi_no_password Examples.mac_host)))
          "/Volumes/boot/wifi/wpa_supplicant.conf" = true
  /\ ~ wifi_needs_both_as_stated Examples.wifi_no_password Examples.mac_host.
Proof.
  split; [vm_compute; reflexivity|].
  intros H. destruct (H "/Volumes/boot") as [_ Hp].
  - vm_compute. reflexivity.
  - vm_compute. repeat (first [left; reflexivity | right]).
  - apply Hp. reflexivity.
Qed.

(** C2, amended.  The WiFi file of the located volume is opened for
    writing only when [wifi_ssid] is non-empty; with [wifi_ssid] empty or
    absent neither the file is opened nor the directory made, whatever the
    password; with [wifi_ssid] non-empty every run that returns has written
    the file from the template, whatever the password, absent included. *)
Theorem wifi_artifact_iff_ssid (vars : Variables) (w : world) (t : string) :
  fst (find_data_mount w) = Ok t ->
  (In (OpenW (wpa_supplicant_conf t)) (calls_of (main vars) w) ->
   PyStr.truthy (wifi_ssid vars) = true)
  /\ (PyStr.truthy (wifi_ssid vars) = false ->
      ~ In (OpenW (wpa_supplicant_conf t)) (calls_of (main vars) w)
      /\ ~ In (Makedirs (wifi_dir t)) (calls_of (main vars) w))
  /\ (PyStr.truthy (wifi_ssid vars) = true ->
      forall w', main vars w = (Ok tt, w') ->
        In (OpenW (wpa_supplicant_conf t)) (calls_of (main vars) w)
        /\ fs w' !! wpa_supplicant_conf t =
           Some (File (make_supplicant (wifi_country vars) (wifi_ssid vars)
                                       (wifi_password vars)))).
Proof.
  intros Hl. destruct (located w t Hl) as [w0 Hf].
  refine (conj _ (conj _ _)).
  - intros H. apply (wifi_opened_only_if_ssid vars w t w0 Hf). now left.
  - intros Hs. split; intros H.
    + assert (E : PyStr.truthy (wifi_ssid vars) = true)
        by (apply (wifi_opened_only_if_ssid vars w t w0 Hf); now left).
      congruence.
    + assert (E : PyStr.truthy (wifi_ssid vars) = true)
        by (apply (wifi_opened_only_if_ssid vars w t w0 Hf); now right).
      congruence.
  - intros Hs w' H.
    destruct (main_Ok_artifacts vars w w' H) as (t' & w0' & Hf' & _ & _ & Hw & _).
    rewrite Hf in Hf'. injection Hf' as <- <-. split; [|now apply Hw].
    destruct (main_Ok_calls vars w t w0 w' Hf H) as (cs0 & _ & ->).
    unfold artifact_calls, wifi_calls. rewrite Hs.
    rewrite !in_app_iff. right. left. right. left. right. left. reflexivity.
Qed.

Lemma wifi_artifact_iff_ssid_witness :
  In (OpenW (wpa_supplicant_conf "/Volumes/boot"))
     (calls_of (main Examples.wifi_no_password) Examples.mac_host)
  /\ ~ In (OpenW (wpa_supplicant_conf "/Volumes/boot"))
          (calls_of (main Examples.only_image) Examples.mac_host).
Proof.
  split.
  - destruct (wifi_artifact_iff_ssid Examples.wifi_no_password Examples.mac_host
                "/Volumes/boot") as (_ & _ & H); [vm_compute; reflexivity|].
    apply (H eq_refl (snd (main Examples.wifi_no_password Examples.mac_host))).
    vm_compute. reflexivity.
  - destruct (wifi_artifact_iff_ssid Examples.only_image Examples.mac_host
                "/Volumes/boot") as (_ & H & _); [vm_compute; reflexivity|].
    apply (H eq_refl).
Defined.

(** ** The conditional blocks leave the other paths alone *)

Lemma configure_ssh_skipped (R : world -> world -> Prop) `{!Reflexive R} vars t :
  PyStr.truthy (ssh_key vars) = false -> preserves R (configure_ssh vars t).
Proof.
  intros H. eapply preserves_ext; [intros w; apply configure_ssh_eq|].
  rewrite H. apply preserves_ret; apply _.
Qed.

Lemma configure_wifi_skipped (R : world -> world -> Prop) `{!Reflexive R} vars t :
  PyStr.truthy (wifi_ssid vars) = false -> preserves R (configure_wifi vars t).
Proof.
  intros H. eapply preserves_ext; [intros w; apply configure_wifi_eq|].
  rewrite H. apply preserves_ret; apply _.
Qed.

Lemma main_keeps vars w t w0 q :
  find_data_mount w = (Ok t, w0) ->
  preserves (keeps q) (write_artifacts vars t) ->
  flag_file t <> q ->
  fs (snd (main vars w)) !! q = fs w !! q.
Proof.
  intros Hf Hw Hq.
  destruct (find_data_mount_Ok w t w0 Hf) as (E0 & _).
  rewrite main_unfold, Hf. rewrite <- E0.
  apply (main_from_preserves (keeps q)); [exact Hw | now apply os_remove_keeps].
Qed.

Lemma write_artifacts_keeps_ssh_file vars t :
  PyStr.truthy (ssh_key vars) = false ->
  preserves (keeps (authorized_keys t)) (write_artifacts vars t).
Proof.
  intros Hk. destruct (artifact_paths_distinct t t) as (_ & _ & _ & D4 & D5 & _).
  unfold write_artifacts.
  apply preserves_bind; try apply _; [now apply configure_ssh_skipped|]. intros _.
  apply preserves_bind; try apply _.
  - apply configure_wifi_keeps; [congruence|]. apply not_in_shorter.
    pose proof (length_authorized_keys t). pose proof (length_wifi_dir t). lia.
  - intros _. apply configure_ab_flasher_keeps. congruence.
Qed.

Lemma write_artifacts_keeps_wifi_file vars t :
  PyStr.truthy (wifi_ssid vars) = false ->
  preserves (keeps (wpa_supplicant_conf t)) (write_artifacts vars t).
Proof.
  intros Hk. destruct (artifact_paths_distinct t t) as (_ & _ & _ & D4 & _ & D6 & _).
  unfold write_artifacts.
  apply preserves_bind; try apply _.
  - apply configure_ssh_keeps; [congruence|]. apply not_in_shorter.
    pose proof (length_wpa_supplicant_conf t). pose proof (length_ssh_dir t). lia.
  - intros _. apply preserves_bind; try apply _; [now apply configure_wifi_skipped|].
    intros _. apply configure_ab_flasher_keeps. congruence.
Qed.

Lemma write_artifacts_keeps_wifi_dir vars t :
  PyStr.truthy (wifi_ssid vars) = false ->
  preserves (keeps (wifi_dir t)) (write_artifacts vars t).
Proof.
  intros Hk. destruct (more_paths_distinct t) as (D1 & D2 & _ & D4).
  unfold write_artifacts.
  apply preserves_bind; try apply _.
  - apply configure_ssh_keeps; [congruence|].
    intros [E | Hin]; [congruence|]. apply ancestors_shorter in Hin.
    pose proof (length_wifi_dir t). pose proof (length_ssh_dir t). lia.
  - intros _. apply preserves_bind; try apply _; [now apply configure_wifi_skipped|].
    intros _. apply configure_ab_flasher_keeps. congruence.
Qed.

(** C3.  Conditional-write law.  A run that locates no volume changes no
    file.  On the located volume [t]: with [ssh_key] empty or absent the
    entry [ssh/authorized_keys] is left exactly as it was and is never
    opened for writing; with [wifi_ssid] empty or absent the entries
    [wifi/wpa_supplicant.conf] and [wifi] are left exactly as they were,
    the file is never opened for writing and the directory never made,
    whatever [wifi_password] is; with [ssh_key] non-empty a run that
    returns has written [ssh/authorized_keys] with the key and a newline. *)
Theorem conditional_write_law (vars : Variables) (w : world) :
  (forall e, fst (find_data_mount w) = Raise e -> fs (snd (main vars w)) = fs w)
  /\ (forall t, fst (find_data_mount w) = Ok t ->
      (PyStr.truthy (ssh_key vars) = false ->
         fs (snd (main vars w)) !! authorized_keys t = fs w !! authorized_keys t
         /\ ~ In (OpenW (authorized_keys t)) (calls_of (main vars) w))
      /\ (PyStr.truthy (wifi_ssid vars) = false ->
         fs (snd (main vars w)) !! wpa_supplicant_conf t
           = fs w !! wpa_supplicant_conf t
         /\ fs (snd (main vars w)) !! wifi_dir t = fs w !! wifi_dir t
         /\ ~ In (OpenW (wpa_supplicant_conf t)) (calls_of (main vars) w)
         /\ ~ In (Makedirs (wifi_dir t)) (calls_of (main vars) w))
      /\ (PyStr.truthy (ssh_key vars) = true ->
          forall w', main vars w = (Ok tt, w') ->
            exists key,
              ssh_key vars = Some key
              /\ fs w' !! authorized_keys t = Some (File (key +:+ PyStr.nl))
              /\ In (OpenW (authorized_keys t)) (calls_of (main vars) w))).
Proof.
  split.
  - intros e He. destruct (find_data_mount w) as [r w0] eqn:Hf. simpl in He. subst r.
    rewrite (main_not_located vars w e w0 Hf). simpl.
    pose proof (find_data_mount_same_fs w) as F. now rewrite Hf in F.
  - intros t Hl. destruct (located w t Hl) as [w0 Hf].
    destruct (artifact_paths_distinct t t) as (D1 & D2 & _).
    destruct (more_paths_distinct t) as (_ & _ & D3 & _).
    refine (conj _ (conj _ _)).
    + intros Hk. split.
      * apply (main_keeps vars w t w0 _ Hf); [|congruence].
        now apply write_artifacts_keeps_ssh_file.
      * intros H. apply (ssh_opened_only_if_key vars w t w0 Hf) in H. congruence.
    + intros Hs. refine (conj _ (conj _ (conj _ _))).
      * apply (main_keeps vars w t w0 _ Hf); [|congruence].
        now apply write_artifacts_keeps_wifi_file.
      * apply (main_keeps vars w t w0 _ Hf); [|congruence].
        now apply write_artifacts_keeps_wifi_dir.
      * intros H.
        assert (E : PyStr.truthy (wifi_ssid vars) = true)
          by (apply (wifi_opened_only_if_ssid vars w t w0 Hf); now left).
        congruence.
      * intros H.
        assert (E : PyStr.truthy (wifi_ssid vars) = true)
          by (apply (wifi_opened_only_if_ssid vars w t w0 Hf); now right).
        congruence.
    + intros Hk w' H.
      destruct (main_Ok_artifacts vars w w' H) as (t' & w0' & Hf' & _ & Hs & _).
      rewrite Hf in Hf'. injection Hf' as <- <-. specialize (Hs Hk).
      destruct (ssh_key vars) as [key|] eqn:E; [|discriminate Hk].
      exists key. repeat split; [exact Hs|].
      destruct (main_Ok_calls vars w t w0 w' Hf H) as (cs0 & _ & ->).
      unfold artifact_calls, ssh_calls. rewrite E, Hk.
      rewrite !in_app_iff. right. left. left. right. left. reflexivity.
Qed.

Lemma conditional_write_law_witness :
  fs (snd (main Examples.only_image Examples.mac_host))
    !! authorized_keys "/Volumes/boot" = None
  /\ fs (snd (main Examples.only_image Examples.mac_host))
       !! wifi_dir "/Volumes/boot" = None
  /\ fs (snd (main Examples.full_config Examples.mac_host))
       !! authorized_keys "/Volumes/boot"
     = Some (File Examples.expected_authorized_keys).
Proof.
  destruct (conditional_write_law Examples.only_image Examples.mac_host) as [_ H1].
  destruct (H1 "/Volumes/boot") as (Ha & Hb & _); [vm_compute; reflexivity|].
  destruct (Ha eq_refl) as [Ea _]. destruct (Hb eq_refl) as (_ & Eb & _).
  destruct (conditional_write_law Examples.full_config Examples.mac_host) as [_ H2].
  destruct (H2 "/Volumes/boot") as (_ & _ & Hc); [vm_compute; reflexivity|].
  destruct (Hc eq_refl (snd (main Examples.full_config Examples.mac_host)))
    as (key & Ek & Ec & _); [vm_compute; reflexivity|].
  injection Ek as <-.
  refine (conj _ (conj _ Ec)).
  - rewrite Ea. vm_compute. reflexivity.
  - rewrite Eb. vm_compute. reflexivity.
Defined.

(** ** Entries that are there stay *)

#[global] Instance keeps_entry_refl q : Reflexive (keeps_entry q).
Proof. intros w n H. exact H. Qed.
#[global] Instance keeps_entry_trans q : Transitive (keeps_entry q).
Proof. unfold keeps_entry. intros a b c H1 H2 n Hn. auto. Qed.

Lemma keeps_keeps_entry q w w' : keeps q w w' -> keeps_entry q w w'.
Proof. unfold keeps, keeps_entry. intros H n Hn. congruence. Qed.

Lemma makedirs_keeps_entry q p : preserves (keeps_entry q) (makedirs p).
Proof.
  unfold makedirs, oscall_with. prim_cases w p; try (intros x Hx; exact Hx).
  destruct (existsb _ _); simpl; intros x Hx; [exact Hx|].
  exact (mkdirs_lookup_Some (p :: ancestors p) (fs w) q _ Hx).
Qed.

Lemma write_block_keeps_entry d f data q :
  f <> q -> preserves (keeps_entry q) (write_block d f data).
Proof.
  intros Hq. unfold write_block.
  apply preserves_bind; try apply _; [apply makedirs_keeps_entry|]. intros _.
  apply preserves_bind; try apply _.
  - eapply preserves_weaken; [apply keeps_keeps_entry | now apply open_w_keeps].
  - intros _. eapply preserves_weaken; [apply keeps_keeps_entry | now apply write_keeps].
Qed.

Lemma configure_ssh_keeps_entry vars t q :
  authorized_keys t <> q -> preserves (keeps_entry q) (configure_ssh vars t).
Proof. intros H. by_block configure_ssh_eq write_block_keeps_entry. Qed.

Lemma configure_wifi_keeps_entry vars t q :
  wpa_supplicant_conf t <> q -> preserves (keeps_entry q) (configure_wifi vars t).
Proof. intros H. by_block configure_wifi_eq write_block_keeps_entry. Qed.

Lemma write_artifacts_keeps_entry vars t q :
  authorized_keys t <> q -> wpa_supplicant_conf t <> q -> ab_flasher_env t <> q ->
  preserves (keeps_entry q) (write_artifacts vars t).
Proof.
  intros H1 H2 H3. unfold write_artifacts.
  apply preserves_bind; try apply _; [now apply configure_ssh_keeps_entry|]. intros _.
  apply preserves_bind; try apply _; [now apply configure_wifi_keeps_entry|]. intros _.
  eapply preserves_weaken; [apply keeps_keeps_entry | now apply configure_ab_flasher_keeps].
Qed.

Lemma keeps_entry_of {A} (m : M A) q w r w' n :
  preserves (keeps_entry q) m -> m w = (r, w') ->
  fs w !! q = Some n -> fs w' !! q = Some n.
Proof. intros H E. specialize (H w). rewrite E in H. apply H. Qed.

(** ** A run on an unobstructed volume with no faults returns *)

Lemma dir_creatable_after {A} (m : M A) d w r w' :
  (forall q, In q (d :: ancestors d) -> preserves (no_file_created q) m) ->
  m w = (r, w') -> dir_creatable (fs w) d -> dir_creatable (fs w') d.
Proof.
  intros Hm E [Hd Ha].
  assert (K : forall q, In q (d :: ancestors d) ->
                is_file (fs w) q = false -> is_file (fs w') q = false).
  { intros q Hq Hf. destruct (is_file (fs w') q) eqn:E'; [|reflexivity].
    apply (no_file_created_of m q w r w' (Hm q Hq) E) in E'. congruence. }
  split.
  - apply K; [now left | exact Hd].
  - rewrite Forall_forall in *. intros q Hq. apply K; [|now apply Ha].
    right. now apply list_elem_of_In.
Qed.

Lemma file_creatable_after {A} (m : M A) p w r w' :
  preserves (keeps p) m ->
  (forall q, In q (ancestors p) ->
     preserves (no_file_created q) m /\ preserves (keeps_entry q) m) ->
  m w = (r, w') -> file_creatable (fs w) p -> file_creatable (fs w') p.
Proof.
  intros Hk Hm E [Hp Hc].
  pose proof (keeps_of m p w r w' Hk E) as K.
  split; [now rewrite K|]. rewrite K. intros Hn.
  destruct (Hc Hn) as [Ha Hd]. split.
  - rewrite Forall_forall in Ha |- *. intros q Hq.
    apply (not_file_after m q w r w'); [|exact E | now apply Ha].
    apply Hm. now apply list_elem_of_In.
  - intros d Ed. apply (keeps_entry_of m d w r w'); [|exact E | now apply Hd].
    apply Hm. unfold parent in Ed. apply last_Some in Ed as [l ->].
    apply in_app_iff. right. now left.
Qed.

Lemma configure_ssh_progress vars t w :
  fault_free w -> dir_creatable (fs w) (ssh_dir t) ->
  fs w !! authorized_keys t <> Some Dir ->
  exists w', configure_ssh vars t w = (Ok tt, w').
Proof.
  intros Hf Hd Hp. rewrite configure_ssh_eq.
  destruct (PyStr.truthy (ssh_key vars)); [|eexists; reflexivity].
  apply write_block_progress; auto. apply ancestors_authorized_keys.
Qed.

Lemma configure_wifi_progress vars t w :
  fault_free w -> dir_creatable (fs w) (wifi_dir t) ->
  fs w !! wpa_supplicant_conf t <> Some Dir ->
  exists w', configure_wifi vars t w = (Ok tt, w').
Proof.
  intros Hf Hd Hp. rewrite configure_wifi_eq.
  destruct (PyStr.truthy (wifi_ssid vars)); [|eexists; reflexivity].
  apply write_block_progress; auto. apply ancestors_wpa_supplicant_conf.
Qed.

Lemma fault_free_of {A} (m : M A) w r w' :
  preserves same_faults m -> m w = (r, w') -> fault_free w -> fault_free w'.
Proof. intros H E Hw c. rewrite (same_faults_of m w r w' H E). apply Hw. Qed.

Lemma write_artifacts_progress vars t w :
  fault_free w -> unobstructed (fs w) t ->
  exists w', write_artifacts vars t w = (Ok tt, w').
Proof.
  intros Hf (U1 & U2 & U3 & U4 & U5).
  destruct (artifact_paths_distinct t t) as (_ & _ & _ & D4 & D5 & D6 & _).
  pose proof (length_ssh_dir t) as L1. pose proof (length_wifi_dir t) as L2.
  pose proof (length_authorized_keys t) as L3.
  pose proof (length_wpa_supplicant_conf t) as L4.
  pose proof (length_ab_flasher_env t) as L5.
  pose proof (length_ab_flasher_env_le t) as L6.
  unfold write_artifacts.
  destruct (configure_ssh_progress vars t w Hf U1 U2) as [w1 E1].
  rewrite (bind_Ok _ _ _ _ _ E1).
  pose proof (fault_free_of _ _ _ _ (configure_ssh_same_faults vars t) E1 Hf) as Hf1.
  assert (U3' : dir_creatable (fs w1) (wifi_dir t)).
  { apply (dir_creatable_after (configure_ssh vars t) _ w (Ok tt) w1); auto.
    intros q Hq. apply configure_ssh_no_file_created. intros <-.
    destruct Hq as [Hq | Hq].
    - rewrite Hq in L2. lia.
    - apply ancestors_shorter in Hq. lia. }
  assert (U4' : fs w1 !! wpa_supplicant_conf t <> Some Dir).
  { rewrite (keeps_of (configure_ssh vars t) _ w (Ok tt) w1); auto.
    apply configure_ssh_keeps; [congruence|]. apply not_in_shorter. lia. }
  assert (U5' : file_creatable (fs w1) (ab_flasher_env t)).
  { apply (file_creatable_after (configure_ssh vars t) _ w (Ok tt) w1); auto.
    - apply configure_ssh_keeps; [congruence|]. apply not_in_shorter. lia.
    - intros q Hq. apply ancestors_shorter in Hq.
      split; [apply configure_ssh_no_file_created | apply configure_ssh_keeps_entry];
        intros <-; lia. }
  destruct (configure_wifi_progress vars t w1 Hf1 U3' U4') as [w2 E2].
  rewrite (bind_Ok _ _ _ _ _ E2).
  pose proof (fault_free_of _ _ _ _ (configure_wifi_same_faults vars t) E2 Hf1) as Hf2.
  apply configure_ab_flasher_progress; [exact Hf2|].
  apply (file_creatable_after (configure_wifi vars t) _ w1 (Ok tt) w2); auto.
  - apply configure_wifi_keeps; [congruence|]. apply not_in_shorter. lia.
  - intros q Hq. apply ancestors_shorter in Hq.
    split; [apply configure_wifi_no_file_created | apply configure_wifi_keeps_entry];
      intros <-; lia.
Qed.

Lemma main_progress vars w t w0 :
  find_data_mount w = (Ok t, w0) -> fault_free w -> unobstructed (fs w) t ->
  exists w', main vars w = (Ok tt, w').
Proof.
  intros Hl Hf Hu.
  destruct (find_data_mount_Ok w t w0 Hl) as (E0 & F0 & Hr & _).
  assert (Hf0 : fault_free w0) by (intros c; rewrite F0; apply Hf).
  rewrite <- E0 in Hu.
  destruct (write_artifacts_progress vars t w0 Hf0 Hu) as [w3 E3].
  rewrite (main_located vars w t w0 Hl), E3.
  apply os_remove_progress.
  - rewrite (same_faults_of _ _ _ _ (write_artifacts_same_faults vars t) E3). apply Hf0.
  - apply marker_readable_is_file in Hr. rewrite <- E0 in Hr.
    apply is_file_lookup in Hr as [c Hc]. apply is_file_lookup. exists c.
    eapply keeps_file_of; [apply write_artifacts_keeps_file_flag | exact E3 | exact Hc].
Qed.

Lemma well_formedb_true (m : gmap string node) :
  well_formedb m = true -> well_formed m.
Proof.
  unfold well_formedb, well_formed. rewrite forallb_forall. intros H p n Hp.
  assert (Hin : In p ((map_to_list m).*1)).
  { apply list_elem_of_In, list_elem_of_fmap. exists (p, n).
    split; [reflexivity | now apply elem_of_map_to_list]. }
  specialize (H p Hin). rewrite forallb_forall in H.
  apply Forall_forall. intros a Ha. apply list_elem_of_In, H in Ha.
  unfold is_dir in Ha. destruct (m !! a) as [[c|]|]; congruence.
Qed.

(** The hosts of the examples are well formed. *)
Lemma examples_well_formed :
  well_formed (fs Examples.mac_host) /\ well_formed (fs Examples.linux_host)
  /\ well_formed (fs Examples.linux_blank_line)
  /\ well_formed (fs Examples.linux_volumes_denied)
  /\ well_formed (fs Examples.proc_is_file).
Proof. repeat split; apply well_formedb_true; vm_compute; reflexivity. Qed.

(** On a well-formed file system the volume of a marker is unobstructed
    as soon as nothing of the wrong kind is where an artifact goes: the
    directories above the artifacts are those above the marker. *)
Lemma unobstructed_well_formed (m : gmap string node) (t : string) :
  well_formed m -> is_file m (flag_file t) = true ->
  artifact_paths_free m t -> unobstructed m t.
Proof.
  intros Hwf Hm (P1 & P2 & P3 & P4 & P5).
  apply is_file_lookup in Hm as [c Hc]. apply Hwf in Hc.
  assert (A : forall x, has_sep x = false ->
                Forall (fun a => m !! a = Some Dir) (ancestors (path_join t x))).
  { intros x Hx. unfold flag_file, CONFIG_FLAG in Hc.
    now rewrite (ancestors_path_join t x ".configure_me" Hx eq_refl). }
  assert (N : forall p, Forall (fun a => m !! a = Some Dir) (ancestors p) ->
                Forall (fun a => is_file m a = false) (ancestors p)).
  { intros p H. eapply Forall_impl; [exact H|].
    intros a Ha. unfold is_file. now rewrite Ha. }
  refine (conj (conj P1 _) (conj P2 (conj (conj P3 _) (conj P4 (conj P5 _))))).
  - apply N, (A "ssh"). reflexivity.
  - apply N, (A "wifi"). reflexivity.
  - intros _. pose proof (A "ab-flasher.env" eq_refl) as Ha.
    split; [now apply N|]. intros d Hd. unfold parent in Hd.
    apply last_Some_elem_of in Hd. rewrite Forall_forall in Ha. now apply Ha.
Qed.

(** C8.  With the settings of the example, a run that locates [t] and
    returns leaves the three artifacts with exactly the bytes of the
    templates and no marker; and it does return when no call is faulted
    and nothing on the volume stands in the way of the artifacts: the
    two directories can be made and [ab-flasher.env] can be created in
    the volume.  On a well-formed file system that is the case as soon
    as no file is where a directory goes and no directory where a file
    goes. *)
Theorem round_trip_full_config (w : world) (t : string) (w0 : world) :
  find_data_mount w = (Ok t, w0) ->
  (forall w', main Examples.full_config w = (Ok tt, w') ->
     fs w' !! authorized_keys t = Some (File Examples.expected_authorized_keys)
     /\ fs w' !! wpa_supplicant_conf t = Some (File Examples.expected_wpa_supplicant)
     /\ fs w' !! ab_flasher_env t = Some (File Examples.expected_ab_flasher_env)
     /\ fs w' !! flag_file t = None)
  /\ (fault_free w -> unobstructed (fs w) t ->
      exists w', main Examples.full_config w = (Ok tt, w'))
  /\ (fault_free w -> well_formed (fs w) -> artifact_paths_free (fs w) t ->
      exists w', main Examples.full_config w = (Ok tt, w')).
Proof.
  intros Hl. refine (conj _ (conj _ _)).
  - intros w' H.
    destruct (main_Ok_artifacts _ w w' H) as (t' & w0' & Hf' & He & Hs & Hw & Hm).
    rewrite Hl in Hf'. injection Hf' as <- <-.
    refine (conj (Hs eq_refl) (conj (Hw eq_refl) (conj He Hm))).
  - intros Hf Hu. now apply (main_progress _ w t w0).
  - intros Hf Hwf Hp. apply (main_progress _ w t w0 Hl Hf).
    apply unobstructed_well_formed; [exact Hwf | | exact Hp].
    destruct (find_data_mount_Ok w t w0 Hl) as (_ & _ & Hr & _).
    now apply marker_readable_is_file in Hr.
Qed.

Lemma round_trip_full_config_witness :
  exists w',
    main Examples.full_config Examples.mac_host = (Ok tt, w')
    /\ fs w' !! "/Volumes/boot/ssh/authorized_keys"
       = Some (File Examples.expected_authorized_keys)
    /\ fs w' !! "/Volumes/boot/wifi/wpa_supplicant.conf"
       = Some (File Examples.expected_wpa_supplicant)
    /\ fs w' !! "/Volumes/boot/ab-flasher.env"
       = Some (File Examples.expected_ab_flasher_env)
    /\ fs w' !! "/Volumes/boot/.configure_me" = None
    /\ exists w'', main Examples.full_config Examples.linux_host = (Ok tt, w'').
Proof.
  assert (Hlinux : exists w'',
            main Examples.full_config Examples.linux_host = (Ok tt, w'')).
  { destruct (round_trip_full_config Examples.linux_host "/mnt/boot"
                (snd (find_data_mount Examples.linux_host))) as (_ & _ & Hp);
      [vm_compute; reflexivity|].
    apply Hp.
    - intros c. reflexivity.
    - apply examples_well_formed.
    - unfold artifact_paths_free.
      refine (conj _ (conj _ (conj _ (conj _ _)))); vm_compute;
        first [reflexivity | discriminate]. }
  destruct (round_trip_full_config Examples.mac_host "/Volumes/boot"
              (snd (find_data_mount Examples.mac_host))) as (Hc & Hp & _);
    [vm_compute; reflexivity|].
  destruct Hp as [w' Hrun].
  - intros c. reflexivity.
  - unfold unobstructed, dir_creatable, file_creatable.
    refine (conj (conj _ _) (conj _ (conj (conj _ _) (conj _ (conj _ _))))).
    + vm_compute. reflexivity.
    + vm_compute. repeat constructor.
    + vm_compute. discriminate.
    + vm_compute. reflexivity.
    + vm_compute. repeat constructor.
    + vm_compute. discriminate.
    + vm_compute. discriminate.
    + intros _. split; [vm_compute; repeat constructor|].
      intros d Hd. vm_compute in Hd. injection Hd as Hd. subst d.
      vm_compute. reflexivity.
  - exists w'. split; [exact Hrun|].
    destruct (Hc w' Hrun) as (H1 & H2 & H3 & H4).
    refine (conj H1 (conj H2 (conj H3 (conj H4 Hlinux)))).
Defined.

(** ** Running twice *)

(** C7.  After a run has returned on the volume [t], a second run, with
    any settings, that gets the same mount list, in which no mount but [t]
    had a readable marker, raises [TargetNotFound] and leaves every file,
    the artifacts of the first run among them, exactly as it was. *)
Theorem second_run_target_not_found
    (vars vars' : Variables) (w w1 : world) (mounts : list string) (t : string) :
  fst (get_mounts w) = Ok mounts ->
  fst (find_data_mount w) = Ok t ->
  main vars w = (Ok tt, w1) ->
  (forall m, In m mounts -> m <> t -> marker_readable w m = false) ->
  fst (get_mounts w1) = Ok mounts ->
  exists w2, main vars' w1 = (Raise TargetNotFound, w2) /\ fs w2 = fs w1.
Proof.
  intros _ Hl Hrun Hother Hsame.
  destruct (main_Ok_artifacts vars w w1 Hrun) as (t' & w0 & Hf & _ & _ & _ & Hgone).
  rewrite Hf in Hl. simpl in Hl. injection Hl as ->.
  pose proof (same_faults_of _ _ _ _ (main_same_faults vars) Hrun) as F1.
  destruct (get_mounts w1) as [r wm] eqn:Hg. simpl in Hsame. subst r.
  pose proof (get_mounts_same_fs w1) as G1. rewrite Hg in G1. simpl in G1.
  pose proof (get_mounts_preserves same_faults listdir_same_faults
                open_r_same_faults readlines_same_faults w1) as G2.
  rewrite Hg in G2. simpl in G2. unfold same_fs in G1. unfold same_faults in G2.
  assert (Hnone : Forall (fun m => marker_readable wm m = false) mounts).
  { apply Forall_forall. intros m Hm. apply list_elem_of_In in Hm.
    rewrite (marker_readable_same w1 wm m G1 G2).
    destruct (marker_readable w1 m) eqn:E; [exfalso|reflexivity].
    apply marker_readable_true in E as [Ef Ei].
    assert (Hw : marker_readable w m = true).
    { apply marker_readable_true. split; [now rewrite <- F1|].
      exact (no_file_created_of _ _ _ _ _ (main_no_file_created_flag vars m) Hrun Ei). }
    destruct (decide (m = t)) as [->|Hne].
    - apply is_file_lookup in Ei as [c Hc]. congruence.
    - rewrite (Hother m Hm Hne) in Hw. discriminate Hw. }
  exists (log_calls (map (fun m => OpenR (flag_file m)) (examined wm mounts)) wm).
  split; [|exact G1].
  rewrite main_unfold. unfold find_data_mount. rewrite bind_unfold, Hg.
  rewrite find_data_mount_in_run.
  apply find_None_Forall in Hnone. now rewrite Hnone.
Qed.

Lemma second_run_target_not_found_witness :
  exists w2,
    main Examples.full_config (snd (main Examples.full_config Examples.mac_host))
    = (Raise TargetNotFound, w2)
    /\ fs w2 = fs (snd (main Examples.full_config Examples.mac_host)).
Proof.
  apply (second_run_target_not_found Examples.full_config Examples.full_config
           Examples.mac_host _ ["/Volumes/Macintosh HD"; "/Volumes/boot"]
           "/Volumes/boot").
  - vm_compute. reflexivity.
  - vm_compute. reflexivity.
  - vm_compute. reflexivity.
  - intros m [<- | [<- | []]] Hne; [vm_compute; reflexivity | congruence].
  - vm_compute. reflexivity.
Defined.

(** * More of the code *)

(** ** [strip] *)

Lemma has_char_append c s t :
  PyText.has_char c (s +:+ t) = (PyText.has_char c s || PyText.has_char c t)%bool.
Proof.
  induction s as [|c' s IH]; [reflexivity|].
  rewrite append_cons. simpl. rewrite IH. now rewrite orb_assoc.
Qed.

Lemma split_on_go_no_sep sep cur s :
  PyText.has_char sep cur = false ->
  Forall (fun l => PyText.has_char sep l = false) (PyText.split_on_go sep cur s).
Proof.
  revert cur. induction s as [|c r IH]; intros cur Hc; simpl.
  - now constructor.
  - destruct (Ascii.eqb_spec c sep) as [->|Hne].
    + constructor; [exact Hc | now apply IH].
    + apply IH. unfold PyStr.snoc. rewrite has_char_append, Hc. simpl.
      apply Ascii.eqb_neq in Hne. now rewrite Hne.
Qed.

Lemma split_on_go_nonempty sep cur s : PyText.split_on_go sep cur s <> [].
Proof.
  revert cur. induction s as [|c r IH]; intros cur; simpl; [discriminate|].
  destruct (Ascii.eqb c sep); [discriminate | apply IH].
Qed.

Lemma join_cons_cons sep x y rest :
  PyText.join sep (x :: y :: rest) = x +:+ sep +:+ PyText.join sep (y :: rest).
Proof. reflexivity. Qed.

Lemma join_split_on_go sep cur s :
  PyText.join (String sep EmptyString) (PyText.split_on_go sep cur s) = cur +:+ s.
Proof.
  revert cur. induction s as [|c r IH]; intros cur; simpl.
  - now rewrite append_empty_r.
  - destruct (Ascii.eqb_spec c sep) as [->|Hne].
    + destruct (PyText.split_on_go sep EmptyString r) as [|y rest] eqn:E.
      * now apply split_on_go_nonempty in E.
      * rewrite join_cons_cons, <- E, IH. reflexivity.
    + rewrite IH. apply snoc_append.
Qed.

(** Joining the lines of a text gives the text back. *)
Lemma join_doc_lines doc : PyText.join PyStr.nl (doc_lines doc) = doc.
Proof. unfold doc_lines, PyText.split_on. apply (join_split_on_go PyText.nl_char). Qed.

Lemma split_on_go_append sep cur x s :
  PyText.has_char sep x = false ->
  PyText.split_on_go sep cur (x +:+ s) = PyText.split_on_go sep (cur +:+ x) s.
Proof.
  revert cur. induction x as [|c x IH]; intros cur Hx.
  - now rewrite append_empty_r.
  - rewrite append_cons. simpl in *. apply orb_false_iff in Hx as [Hc Hx].
    rewrite Hc. rewrite IH by exact Hx. now rewrite snoc_append.
Qed.

Lemma split_on_go_sep sep cur s :
  PyText.split_on_go sep cur (String sep EmptyString +:+ s)
  = cur :: PyText.split_on_go sep EmptyString s.
Proof.
  change (String sep EmptyString +:+ s) with (String sep s).
  simpl. now rewrite Ascii.eqb_refl.
Qed.

Lemma split_on_go_join sep cur x rest :
  Forall (fun l => PyText.has_char sep l = false) (x :: rest) ->
  PyText.split_on_go sep cur (PyText.join (String sep EmptyString) (x :: rest))
  = (cur +:+ x) :: rest.
Proof.
  revert cur x. induction rest as [|y rest IH]; intros cur x HF.
  - simpl PyText.join. rewrite <- (append_empty_r x) at 1.
    inversion HF; subst. now rewrite split_on_go_append.
  - rewrite join_cons_cons. inversion HF as [|? ? Hx HF']; subst.
    rewrite split_on_go_append by exact Hx.
    rewrite split_on_go_sep. now rewrite (IH EmptyString y HF').
Qed.

(** Cutting a joined list of lines gives the lines back. *)
Lemma doc_lines_join (ls : list string) :
  ls <> [] -> Forall (fun l => PyText.has_char PyText.nl_char l = false) ls ->
  doc_lines (PyText.join PyStr.nl ls) = ls.
Proof.
  intros Hne HF. destruct ls as [|x rest]; [contradiction|].
  unfold doc_lines, PyText.split_on.
  apply (split_on_go_join PyText.nl_char EmptyString x rest HF).
Qed.

Lemma lstrip_not_starts s : PyText.starts_space (PyText.lstrip s) = false.
Proof.
  induction s as [|c r IH]; [reflexivity|]. simpl.
  destruct (PyStr.is_space c) eqn:E; [exact IH | simpl; exact E].
Qed.

Lemma lstrip_fixed s : PyText.starts_space s = false -> PyText.lstrip s = s.
Proof. destruct s as [|c r]; [reflexivity|]. simpl. now intros ->. Qed.

Lemma rstrip_cons c r :
  PyText.rstrip (String c r) =
  match PyText.rstrip r with
  | EmptyString => if PyStr.is_space c then EmptyString else String c EmptyString
  | String c' r' => String c (String c' r')
  end.
Proof. simpl. destruct (PyText.rstrip r); reflexivity. Qed.

Lemma rstrip_not_ends s : PyText.ends_space (PyText.rstrip s) = false.
Proof.
  unfold PyText.ends_space. induction s as [|c r IH]; [reflexivity|].
  rewrite rstrip_cons. destruct (PyText.rstrip r) as [|c' r'].
  - destruct (PyStr.is_space c) eqn:E; simpl; [reflexivity | exact E].
  - exact IH.
Qed.

Lemma rstrip_fixed s : PyText.ends_space s = false -> PyText.rstrip s = s.
Proof.
  unfold PyText.ends_space. induction s as [|c r IH]; [reflexivity|].
  rewrite rstrip_cons. destruct r as [|c' r'].
  - simpl. now intros ->.
  - intros H. rewrite IH by exact H. reflexivity.
Qed.

Lemma rstrip_keeps_start s :
  PyText.starts_space s = false -> PyText.starts_space (PyText.rstrip s) = false.
Proof.
  destruct s as [|c r]; [reflexivity|]. rewrite rstrip_cons. simpl. intros Hc.
  destruct (PyText.rstrip r); [now rewrite Hc | exact Hc].
Qed.

Lemma strip_clean s :
  PyText.starts_space (PyText.strip s) = false
  /\ PyText.ends_space (PyText.strip s) = false.
Proof.
  unfold PyText.strip. split.
  - apply rstrip_keeps_start, lstrip_not_starts.
  - apply rstrip_not_ends.
Qed.

Lemma strip_fixed s :
  PyText.starts_space s = false -> PyText.ends_space s = false -> PyText.strip s = s.
Proof. intros H1 H2. unfold PyText.strip. now rewrite lstrip_fixed, rstrip_fixed. Qed.

Lemma lstrip_no_char c s :
  PyText.has_char c s = false -> PyText.has_char c (PyText.lstrip s) = false.
Proof.
  induction s as [|c' r IH]; [reflexivity|]. simpl. intros H.
  destruct (PyStr.is_space c'); [|exact H].
  apply orb_false_iff in H as [_ H]. now apply IH.
Qed.

Lemma rstrip_no_char c s :
  PyText.has_char c s = false -> PyText.has_char c (PyText.rstrip s) = false.
Proof.
  induction s as [|c' r IH]; [reflexivity|]. intros H. simpl in H.
  apply orb_false_iff in H as [Hc H]. rewrite rstrip_cons. specialize (IH H).
  destruct (PyText.rstrip r) as [|c'' r''].
  - destruct (PyStr.is_space c'); simpl; [reflexivity | now rewrite Hc].
  - simpl in *. now rewrite Hc, IH.
Qed.

Lemma strip_no_char c s :
  PyText.has_char c s = false -> PyText.has_char c (PyText.strip s) = false.
Proof. intros H. unfold PyText.strip. now apply rstrip_no_char, lstrip_no_char. Qed.

Lemma stripped_lines_no_nl doc :
  Forall (fun l => PyText.has_char PyText.nl_char l = false)
         (map PyText.strip (doc_lines doc)).
Proof.
  apply Forall_map.
  eapply Forall_impl; [apply split_on_go_no_sep; reflexivity|].
  intros l Hl. now apply strip_no_char.
Qed.

Lemma doc_lines_strip doc : doc_lines (strip doc) = map PyText.strip (doc_lines doc).
Proof.
  unfold strip. fold (doc_lines doc). apply doc_lines_join.
  - unfold doc_lines, PyText.split_on.
    destruct (PyText.split_on_go PyText.nl_char EmptyString doc) eqn:E;
      [now apply split_on_go_nonempty in E | discriminate].
  - apply stripped_lines_no_nl.
Qed.

(** X1.  [strip] is idempotent: stripping an already stripped text
    changes nothing. *)
Theorem strip_idempotent (doc : string) : strip (strip doc) = strip doc.
Proof.
  unfold strip at 1. fold (doc_lines (strip doc)). rewrite doc_lines_strip.
  unfold strip. fold (doc_lines doc). f_equal. rewrite map_map.
  apply map_ext. intros l. destruct (strip_clean l) as [H1 H2].
  now apply strip_fixed.
Qed.

(** X2.  [strip] works line by line: the result has as many lines as the
    text, line for line the original without the whitespace at its two
    ends, so no line of the result starts or ends with whitespace. *)
Theorem strip_line_by_line (doc : string) :
  doc_lines (strip doc) = map PyText.strip (doc_lines doc)
  /\ length (doc_lines (strip doc)) = length (doc_lines doc)
  /\ Forall (fun l => PyText.starts_space l = false /\ PyText.ends_space l = false)
            (doc_lines (strip doc)).
Proof.
  rewrite doc_lines_strip. repeat split.
  - apply length_map.
  - apply Forall_map. apply Forall_forall. intros l _. apply strip_clean.
Qed.

(** X3.  [strip] leaves a text as it is exactly when none of its lines
    starts or ends with whitespace. *)
Theorem strip_fixed_point (doc : string) :
  strip doc = doc <->
  Forall (fun l => PyText.starts_space l = false /\ PyText.ends_space l = false)
         (doc_lines doc).
Proof.
  split.
  - intros H. pose proof (strip_line_by_line doc) as (_ & _ & HF).
    now rewrite H in HF.
  - intros HF. rewrite <- (join_doc_lines doc) at 2. unfold strip.
    fold (doc_lines doc). f_equal.
    induction HF as [|l ls [H1 H2] _ IH]; [reflexivity|].
    simpl. now rewrite IH, strip_fixed.
Qed.

(** ** [get_mounts] on the mount-table path *)

Lemma has_space_snoc cur c :
  PyText.has_space (PyStr.snoc cur c) = (PyText.has_space cur || PyStr.is_space c)%bool.
Proof.
  unfold PyStr.snoc. induction cur as [|c' cur IH].
  - simpl. now rewrite orb_false_r.
  - rewrite append_cons. simpl. rewrite IH. now rewrite orb_assoc.
Qed.

Lemma snoc_nonempty cur c : PyStr.snoc cur c <> EmptyString.
Proof. destruct cur; discriminate. Qed.

Lemma split_go_fields cur s :
  PyText.has_space cur = false ->
  Forall (fun f => f <> EmptyString /\ PyText.has_space f = false)
         (PyStr.split_go cur s).
Proof.
  revert cur. induction s as [|c r IH]; intros cur Hc; simpl.
  - destruct cur; simpl; [constructor|]. constructor; [|constructor].
    split; [discriminate | exact Hc].
  - destruct (PyStr.is_space c) eqn:E.
    + apply Forall_app. split; [|now apply IH].
      destruct cur; simpl; [constructor|]. constructor; [|constructor].
      split; [discriminate | exact Hc].
    + apply IH. now rewrite has_space_snoc, Hc, E.
Qed.

Lemma second_field_clean line m :
  second_field line = Some m -> m <> EmptyString /\ PyText.has_space m = false.
Proof.
  unfold second_field. intros H. apply nth_error_In in H.
  pose proof (split_go_fields EmptyString line eq_refl) as HF.
  rewrite Forall_forall in HF. apply HF. now apply list_elem_of_In.
Qed.

(** X4.  What [get_mounts] returns from the mount table has one path for
    each line of the file, and each path is non-empty and free of
    whitespace. *)
Theorem get_mounts_table_paths (w : world) (c : string) (mounts : list string) :
  volumes_missing w -> mount_table_readable w c ->
  fst (get_mounts w) = Ok mounts ->
  length mounts = length (PyStr.file_lines c)
  /\ Forall (fun m => m <> EmptyString /\ PyText.has_space m = false) mounts.
Proof.
  intros Hv Hr. rewrite (get_mounts_table w c Hv Hr). simpl.
  destruct (mapM second_field (PyStr.file_lines c)) as [L|] eqn:E; [|discriminate].
  intros [= ->]. apply mapM_Some in E. split.
  - symmetry. exact (Forall2_length _ _ _ E).
  - induction E as [|line m ls ms Hm _ IH]; constructor; [|exact IH].
    now apply (second_field_clean line).
Qed.

Lemma get_mounts_table_paths_witness :
  length ["/proc"; "/"; "/mnt/boot"] = length (PyStr.file_lines Examples.mounts_text)
  /\ Forall (fun m => m <> EmptyString /\ PyText.has_space m = false)
            ["/proc"; "/"; "/mnt/boot"].
Proof.
  apply (get_mounts_table_paths Examples.linux_host Examples.mounts_text).
  - right. split; vm_compute; reflexivity.
  - repeat split; vm_compute; reflexivity.
  - vm_compute. reflexivity.
Defined.

(** ** Runs that stop before the writer *)

Lemma listdir_calls_only (P : oscall -> Prop) p :
  P (Listdir p) -> preserves (calls_only P) (listdir p).
Proof.
  intros HP. unfold listdir, oscall_with.
  prim_cases w p; now apply (calls_only_log P (Listdir p) w).
Qed.
Lemma open_r_calls_only (P : oscall -> Prop) p :
  P (OpenR p) -> preserves (calls_only P) (open_r p).
Proof.
  intros HP. unfold open_r, oscall_with.
  prim_cases w p; now apply (calls_only_log P (OpenR p) w).
Qed.
Lemma readlines_calls_only (P : oscall -> Prop) p :
  P (Readlines p) -> preserves (calls_only P) (readlines p).
Proof.
  intros HP. unfold readlines, oscall_with.
  prim_cases w p; now apply (calls_only_log P (Readlines p) w).
Qed.

Lemma get_mounts_enumeration_calls : preserves (calls_only enumeration_call) get_mounts.
Proof.
  unfold get_mounts.
  apply preserves_try_except; try apply _.
  - apply preserves_bind; try apply _.
    + apply listdir_calls_only. now left.
    + intros ds. apply preserves_ret; apply _.
  - apply preserves_try_except; try apply _.
    + apply preserves_bind; try apply _.
      * apply open_r_calls_only. right. now left.
      * intros _. apply preserves_bind; try apply _.
        -- apply readlines_calls_only. right. now right.
        -- intros lines w. rewrite comprehension_index. simpl. reflexivity.
    + apply preserves_raise; apply _.
Qed.

Lemma get_mounts_same_faults : preserves same_faults get_mounts.
Proof.
  apply get_mounts_preserves; try apply _; intros p.
  - apply listdir_same_faults.
  - apply open_r_same_faults.
  - apply readlines_same_faults.
Qed.

(** X5.  When the mount list has no readable marker (an empty list
    included), [main] opens the marker of every mount, raises
    [TargetNotFound] and has changed no file and made no call but reads. *)
Theorem main_without_marker (vars : Variables) (w : world)
    (mounts : list string) (w1 : world) :
  get_mounts w = (Ok mounts, w1) ->
  Forall (fun m => marker_readable w m = false) mounts ->
  main vars w =
    (Raise TargetNotFound,
     log_calls (map (fun m => OpenR (flag_file m)) mounts) w1)
  /\ fs (snd (main vars w)) = fs w
  /\ Forall (fun c => is_read c = true) (calls_of (main vars) w).
Proof.
  intros Hg Hnone.
  pose proof (get_mounts_same_fs w) as G1. rewrite Hg in G1. simpl in G1.
  pose proof (get_mounts_same_faults w) as G2. rewrite Hg in G2. simpl in G2.
  assert (Hnone1 : Forall (fun m => marker_readable w1 m = false) mounts).
  { eapply Forall_impl; [exact Hnone|]. intros m Hm.
    now rewrite (marker_readable_same w w1 m G1 G2). }
  assert (E : main vars w =
              (Raise TargetNotFound,
               log_calls (map (fun m => OpenR (flag_file m)) mounts) w1)).
  { rewrite main_unfold. unfold find_data_mount. rewrite bind_unfold, Hg.
    rewrite find_data_mount_in_run, (examined_all w1 mounts Hnone1).
    apply find_None_Forall in Hnone1. now rewrite Hnone1. }
  split; [exact E|]. split.
  - rewrite E. simpl. exact G1.
  - pose proof (find_data_mount_reads w) as (cs & Ec & Hc).
    rewrite (calls_of_eq (main vars) w cs); [exact Hc|].
    rewrite main_unfold. destruct (find_data_mount w) as [[t|e] w0] eqn:Hf.
    + exfalso. rewrite main_unfold, Hf in E.
      unfold find_data_mount in Hf. rewrite bind_unfold, Hg in Hf.
      rewrite find_data_mount_in_run in Hf.
      apply find_None_Forall in Hnone1. rewrite Hnone1 in Hf. discriminate Hf.
    + exact Ec.
Qed.

Lemma main_without_marker_witness :
  fst (main Examples.full_config
         (snd (main Examples.full_config Examples.mac_host)))
  = Raise TargetNotFound
  /\ fs (snd (main Examples.full_config
                (snd (main Examples.full_config Examples.mac_host))))
     = fs (snd (main Examples.full_config Examples.mac_host)).
Proof.
  destruct (main_without_marker Examples.full_config
              (snd (main Examples.full_config Examples.mac_host))
              ["/Volumes/Macintosh HD"; "/Volumes/boot"]
              (snd (get_mounts (snd (main Examples.full_config Examples.mac_host)))))
    as (E & H & _).
  - vm_compute. reflexivity.
  - repeat constructor.
  - split; [now rewrite E | exact H].
Defined.

(** X6.  An error of the enumeration ([UnsupportedPlatform], an
    [IndexError] on a short line, a [PermissionError]) is the error of
    [main]: no marker is looked for, nothing is written, no file changes. *)
Theorem main_enumeration_error (vars : Variables) (w : world) (e : exn) (w1 : world) :
  get_mounts w = (Raise e, w1) ->
  main vars w = (Raise e, w1)
  /\ fs w1 = fs w
  /\ Forall enumeration_call (calls_of (main vars) w).
Proof.
  intros Hg.
  assert (E : main vars w = (Raise e, w1)).
  { rewrite main_unfold. unfold find_data_mount. now rewrite bind_unfold, Hg. }
  split; [exact E|]. split.
  - pose proof (get_mounts_same_fs w) as G1. now rewrite Hg in G1.
  - pose proof (get_mounts_enumeration_calls w) as (cs & Ec & Hc).
    rewrite Hg in Ec. simpl in Ec.
    rewrite (calls_of_eq (main vars) w cs); [exact Hc|]. now rewrite E.
Qed.

Lemma main_enumeration_error_witness :
  fst (main Examples.full_config Examples.linux_blank_line) = Raise IndexError
  /\ fs (snd (main Examples.full_config Examples.linux_blank_line))
     = fs Examples.linux_blank_line.
Proof.
  destruct (main_enumeration_error Examples.full_config Examples.linux_blank_line
              IndexError (snd (get_mounts Examples.linux_blank_line)))
    as (E & F & _); [vm_compute; reflexivity|].
  rewrite E. split; [reflexivity | exact F].
Defined.

(** ** The file system after the writer *)

Lemma configure_ab_flasher_fs vars t w w' :
  configure_ab_flasher vars t w = (Ok tt, w') ->
  fs w' = <[ab_flasher_env t := File (ab_flasher_env_content (final_image vars))]> (fs w).
Proof.
  intros H. pose proof (configure_ab_flasher_Ok vars t w w' H) as Hc.
  rewrite configure_ab_flasher_eq in H.
  apply bind_Ok_inv in H as ([] & w1 & Ho & H). apply open_w_Ok in Ho.
  apply bind_Ok_inv in H as ([] & w2 & H1 & H).
  apply write_Ok in H1 as (c1 & _ & E1).
  apply bind_Ok_inv in H as ([] & w3 & H2 & H).
  apply write_Ok in H2 as (c2 & _ & E2).
  apply write_Ok in H as (c3 & _ & E3).
  rewrite E3, lookup_insert_eq in Hc. injection Hc as Hc.
  rewrite E3, E2, E1, Ho, Hc. now rewrite !insert_insert_eq.
Qed.

Lemma examined_same w w' mounts :
  fs w' = fs w -> faults w' = faults w -> examined w' mounts = examined w mounts.
Proof.
  intros E1 E2. induction mounts as [|m rest IH]; simpl; [reflexivity|].
  now rewrite IH, (marker_readable_same w w' m E1 E2).
Qed.

(** X9.  The calls of a run that returns, complete and in order: those of
    the enumeration, the marker opens up to the located volume, the SSH
    block, the WiFi block, the [ab-flasher.env] block, and last the removal
    of the marker. *)
Theorem main_calls_in_order (vars : Variables) (w w' : world)
    (mounts : list string) (w1 : world) :
  get_mounts w = (Ok mounts, w1) ->
  main vars w = (Ok tt, w') ->
  exists t,
    fst (find_data_mount w) = Ok t
    /\ calls_of (main vars) w =
       calls_of get_mounts w
       ++ map (fun m => OpenR (flag_file m)) (examined w mounts)
       ++ ssh_calls vars t ++ wifi_calls vars t ++ ab_flasher_calls vars t
       ++ [Remove (flag_file t)].
Proof.
  intros Hg H.
  pose proof (get_mounts_same_fs w) as G1. rewrite Hg in G1. simpl in G1.
  pose proof (get_mounts_same_faults w) as G2. rewrite Hg in G2. simpl in G2.
  pose proof (get_mounts_enumeration_calls w) as (cs & Ec & _).
  pose proof (calls_of_eq get_mounts w cs Ec) as Ecs.
  rewrite Hg in Ec. simpl in Ec.
  pose proof H as H'. unfold main in H'.
  apply bind_Ok_inv in H' as (t & w0 & Hf & Hm).
  exists t. rewrite Hf. split; [reflexivity|].
  apply calls_of_eq. rewrite H. simpl.
  rewrite (emits_Ok _ _ _ _ _ (main_from_emits vars t) Hm).
  unfold find_data_mount in Hf. rewrite bind_unfold, Hg in Hf.
  rewrite find_data_mount_in_run in Hf. injection Hf as _ <-.
  simpl. rewrite (examined_same w w1 mounts G1 G2), Ec, Ecs.
  unfold artifact_calls. now rewrite <- !app_assoc.
Qed.

Lemma main_calls_in_order_witness :
  exists t,
    fst (find_data_mount Examples.mac_host) = Ok t
    /\ calls_of (main Examples.only_image) Examples.mac_host =
       calls_of get_mounts Examples.mac_host
       ++ map (fun m => OpenR (flag_file m))
              (examined Examples.mac_host ["/Volumes/Macintosh HD"; "/Volumes/boot"])
       ++ ssh_calls Examples.only_image t ++ wifi_calls Examples.only_image t
       ++ ab_flasher_calls Examples.only_image t
       ++ [Remove (flag_file t)].
Proof.
  apply (main_calls_in_order Examples.only_image Examples.mac_host
           (snd (main Examples.only_image Examples.mac_host))
           ["/Volumes/Macintosh HD"; "/Volumes/boot"]
           (snd (get_mounts Examples.mac_host))).
  - vm_compute. reflexivity.
  - vm_compute. reflexivity.
Defined.

Lemma write_artifacts_Ok_artifacts vars t w w3 :
  write_artifacts vars t w = (Ok tt, w3) ->
  fs w3 !! ab_flasher_env t = Some (File (ab_flasher_env_content (final_image vars)))
  /\ (PyStr.truthy (ssh_key vars) = true ->
      fs w3 !! authorized_keys t =
      Some (File (PyStr.format (ssh_key vars) +:+ PyStr.nl)))
  /\ (PyStr.truthy (wifi_ssid vars) = true ->
      fs w3 !! wpa_supplicant_conf t =
      Some (File (make_supplicant (wifi_country vars) (wifi_ssid vars)
                                  (wifi_password vars)))).
Proof.
  intros H. unfold write_artifacts in H.
  apply bind_Ok_inv in H as ([] & w1 & H1 & H).
  apply bind_Ok_inv in H as ([] & w2 & H2 & H3).
  destruct (artifact_paths_distinct t t) as (_ & _ & _ & D4 & D5 & D6 & _).
  refine (conj _ (conj _ _)).
  - now apply (configure_ab_flasher_Ok vars t w2 w3).
  - intros Ht.
    eapply keeps_file_of;
      [ eapply preserves_weaken;
        [apply keeps_keeps_file | apply (configure_ab_flasher_keeps vars t)];
        congruence
      | exact H3 |].
    eapply keeps_file_of;
      [apply (configure_wifi_keeps_file vars t); congruence | exact H2 |].
    now apply (configure_ssh_Ok vars t w w1).
  - intros Ht.
    eapply keeps_file_of;
      [ eapply preserves_weaken;
        [apply keeps_keeps_file | apply (configure_ab_flasher_keeps vars t)];
        congruence
      | exact H3 |].
    now apply (configure_wifi_Ok vars t w1 w2).
Qed.

(** X10.  When a run raises after having got as far as the removal of the
    marker, that is, when the removal itself fails, every artifact due is
    on the volume with its full content: the run has failed though the
    files are written. *)
Theorem removal_failure_leaves_artifacts
    (vars : Variables) (w : world) (t : string) (e : exn) (w' : world) :
  fst (find_data_mount w) = Ok t ->
  main vars w = (Raise e, w') ->
  In (Remove (flag_file t)) (calls_of (main vars) w) ->
  fs w' !! ab_flasher_env t = Some (File (ab_flasher_env_content (final_image vars)))
  /\ (PyStr.truthy (ssh_key vars) = true ->
      fs w' !! authorized_keys t =
      Some (File (PyStr.format (ssh_key vars) +:+ PyStr.nl)))
  /\ (PyStr.truthy (wifi_ssid vars) = true ->
      fs w' !! wpa_supplicant_conf t =
      Some (File (make_supplicant (wifi_country vars) (wifi_ssid vars)
                                  (wifi_password vars))))
  /\ is_file (fs w') (flag_file t) = true.
Proof.
  intros Hl Hrun Hin. destruct (located w t Hl) as [w0 Hf].
  destruct (find_data_mount_Ok w t w0 Hf) as (E0 & F0 & Hr & cs0 & T0 & R0).
  rewrite (main_located vars w t w0 Hf) in Hrun.
  destruct (write_artifacts vars t w0) as [[[]|e3] w3] eqn:E.
  - rewrite (os_remove_Raise _ _ _ _ Hrun).
    destruct (write_artifacts_Ok_artifacts vars t w0 w3 E) as (A1 & A2 & A3).
    refine (conj A1 (conj A2 (conj A3 _))).
    apply marker_readable_is_file in Hr. rewrite <- E0 in Hr.
    apply is_file_lookup in Hr as [c Hc]. apply is_file_lookup. exists c.
    eapply keeps_file_of; [apply write_artifacts_keeps_file_flag | exact E | exact Hc].
  - exfalso. injection Hrun as -> ->.
    destruct (write_artifacts_emits vars t w0) as (l1 & l2 & El & Et & _).
    rewrite E in Et. simpl in Et.
    rewrite (calls_of_eq (main vars) w (cs0 ++ l1)) in Hin.
    + apply in_app_iff in Hin as [Hin | Hin].
      * rewrite Forall_forall in R0. apply list_elem_of_In, R0 in Hin. discriminate Hin.
      * pose proof (no_remove_in_artifact_calls vars t) as N.
        rewrite El in N. apply Forall_app in N as [N _].
        rewrite Forall_forall in N. apply list_elem_of_In, N in Hin. discriminate Hin.
    + rewrite (main_located vars w t w0 Hf), E. simpl.
      now rewrite Et, T0, app_assoc.
Qed.

Lemma removal_failure_leaves_artifacts_witness :
  fst (main Examples.full_config MoreExamples.mac_host_marker_locked)
  = Raise PermissionError
  /\ fs (snd (main Examples.full_config MoreExamples.mac_host_marker_locked))
       !! wpa_supplicant_conf "/Volumes/boot"
     = Some (File Examples.expected_wpa_supplicant)
  /\ is_file (fs (snd (main Examples.full_config MoreExamples.mac_host_marker_locked)))
             (flag_file "/Volumes/boot") = true.
Proof.
  destruct (removal_failure_leaves_artifacts Examples.full_config
              MoreExamples.mac_host_marker_locked "/Volumes/boot" PermissionError
              (snd (main Examples.full_config MoreExamples.mac_host_marker_locked)))
    as (_ & _ & Hw & Hm).
  - vm_compute. reflexivity.
  - vm_compute. reflexivity.
  - vm_compute. repeat (first [left; reflexivity | right]).
  - refine (conj _ (conj (Hw eq_refl) Hm)). vm_compute. reflexivity.
Defined.

(** ** Writing twice *)

Lemma write_block_Ok_dir d f data w w' :
  f <> d -> write_block d f data w = (Ok tt, w') -> fs w' !! d = Some Dir.
Proof.
  intros Hne H. unfold write_block in H.
  apply bind_Ok_inv in H as ([] & w1 & Hm & H). apply makedirs_Ok_dir in Hm.
  apply bind_Ok_inv in H as ([] & w2 & Ho & H).
  rewrite (keeps_of _ d _ _ _ (write_keeps d f data Hne) H).
  now rewrite (keeps_of _ d _ _ _ (open_w_keeps d f Hne) Ho).
Qed.

Lemma write_block_fs d f data w w' :
  write_block d f data w = (Ok tt, w') -> fs w !! d = Some Dir ->
  fs w' = <[f := File data]> (fs w).
Proof.
  intros H Hd. unfold write_block in H.
  apply bind_Ok_inv in H as ([] & w1 & Hm & H).
  apply (makedirs_Ok_existing d w w1) in Hm; [|exact Hd].
  apply bind_Ok_inv in H as ([] & w2 & Ho & H). apply open_w_Ok in Ho.
  apply write_Ok in H as (c & Hc & ->).
  rewrite Ho, lookup_insert_eq in Hc. injection Hc as <-.
  rewrite Ho, Hm. now rewrite insert_insert_eq.
Qed.

Lemma dirs_distinct t :
  authorized_keys t <> ssh_dir t /\ wpa_supplicant_conf t <> ssh_dir t
  /\ ab_flasher_env t <> ssh_dir t /\ wpa_supplicant_conf t <> wifi_dir t
  /\ ab_flasher_env t <> wifi_dir t.
Proof.
  repeat split; apply neq_by_last_char;
    rewrite ?last_char_authorized_keys, ?last_char_wpa_supplicant_conf,
      ?last_char_ab_flasher_env, ?last_char_wifi_dir, ?last_char_ssh_dir;
    discriminate.
Qed.

Lemma write_artifacts_Ok_dirs vars t w w3 :
  write_artifacts vars t w = (Ok tt, w3) ->
  (PyStr.truthy (ssh_key vars) = true -> fs w3 !! ssh_dir t = Some Dir)
  /\ (PyStr.truthy (wifi_ssid vars) = true -> fs w3 !! wifi_dir t = Some Dir).
Proof.
  intros H. unfold write_artifacts in H.
  apply bind_Ok_inv in H as ([] & w1 & H1 & H).
  apply bind_Ok_inv in H as ([] & w2 & H2 & H3).
  destruct (dirs_distinct t) as (D1 & D2 & D3 & D4 & D5).
  split; intros Ht.
  - rewrite (keeps_of _ _ _ _ _ (configure_ab_flasher_keeps vars t _ D3) H3).
    apply (keeps_entry_of _ _ _ _ _ _ (configure_wifi_keeps_entry vars t _ D2) H2).
    rewrite configure_ssh_eq, Ht in H1.
    now apply (write_block_Ok_dir _ _ _ _ _ D1 H1).
  - rewrite (keeps_of _ _ _ _ _ (configure_ab_flasher_keeps vars t _ D5) H3).
    rewrite configure_wifi_eq, Ht in H2.
    now apply (write_block_Ok_dir _ _ _ _ _ D4 H2).
Qed.

(** X11.  The writer overwrites and is idempotent: run again on what it
    has written (as when a run is repeated after a failed removal of the
    marker), a pass that returns leaves the file system exactly as the
    first pass left it. *)
Theorem write_artifacts_rerun (vars : Variables) (t : string) (w w1 w1' w2 : world) :
  write_artifacts vars t w = (Ok tt, w1) ->
  fs w1' = fs w1 ->
  write_artifacts vars t w1' = (Ok tt, w2) ->
  fs w2 = fs w1.
Proof.
  intros Hfirst Hsame H.
  destruct (write_artifacts_Ok_artifacts vars t w w1 Hfirst) as (A1 & A2 & A3).
  destruct (write_artifacts_Ok_dirs vars t w w1 Hfirst) as (Ds & Dw).
  unfold write_artifacts in H.
  apply bind_Ok_inv in H as ([] & wa & H1 & H).
  apply bind_Ok_inv in H as ([] & wb & H2 & H3).
  assert (Ea : fs wa = fs w1).
  { rewrite configure_ssh_eq in H1.
    destruct (PyStr.truthy (ssh_key vars)) eqn:Ht.
    - rewrite (write_block_fs _ _ _ _ _ H1); rewrite Hsame; [|now apply Ds].
      apply insert_id. now apply A2.
    - injection H1 as <-. exact Hsame. }
  assert (Eb : fs wb = fs w1).
  { rewrite configure_wifi_eq in H2.
    destruct (PyStr.truthy (wifi_ssid vars)) eqn:Ht.
    - rewrite (write_block_fs _ _ _ _ _ H2); rewrite Ea; [|now apply Dw].
      apply insert_id. now apply A3.
    - injection H2 as <-. exact Ea. }
  rewrite (configure_ab_flasher_fs vars t wb w2 H3), Eb.
  now apply insert_id.
Qed.

Lemma write_artifacts_rerun_witness :
  fs (snd (write_artifacts Examples.full_config "/Volumes/boot"
             (snd (write_artifacts Examples.full_config "/Volumes/boot"
                     Examples.mac_host))))
  = fs (snd (write_artifacts Examples.full_config "/Volumes/boot" Examples.mac_host)).
Proof.
  apply (write_artifacts_rerun Examples.full_config "/Volumes/boot"
           Examples.mac_host
           (snd (write_artifacts Examples.full_config "/Volumes/boot"
                   Examples.mac_host))
           (snd (write_artifacts Examples.full_config "/Volumes/boot"
                   Examples.mac_host))).
  - vm_compute. reflexivity.
  - reflexivity.
  - vm_compute. reflexivity.
Defined.

(** ** The lines of the WiFi file *)

Lemma readlines_go_append cur x s :
  no_break x ->
  PyStr.readlines_go cur (x +:+ s) = PyStr.readlines_go (cur +:+ x) s.
Proof.
  revert cur. induction x as [|c x IH]; intros cur [H1 H2].
  - now rewrite append_empty_r.
  - simpl in H1, H2. apply orb_false_iff in H1 as [Hn H1].
    apply orb_false_iff in H2 as [Hr H2].
    rewrite append_cons. cbn [PyStr.readlines_go]. rewrite Hn, Hr.
    rewrite IH by (split; assumption). now rewrite snoc_append.
Qed.

Lemma readlines_go_nl cur s :
  PyStr.readlines_go cur (PyStr.nl +:+ s)
  = (cur +:+ PyStr.nl) :: PyStr.readlines_go EmptyString s.
Proof. reflexivity. Qed.

Lemma readlines_go_nl_end cur :
  PyStr.readlines_go cur PyStr.nl = [cur +:+ PyStr.nl].
Proof. reflexivity. Qed.

(** X12.  When the country, the network name and the password, as
    formatted, hold no line end, the text of [make_supplicant] reads back
    as exactly eight lines: the two fixed header lines, the country line,
    an empty line, and the four lines of the network block. *)
Theorem make_supplicant_lines (country : string) (ssid pw : option string) :
  no_break country -> no_break (PyStr.format ssid) -> no_break (PyStr.format pw) ->
  PyStr.file_lines (make_supplicant country ssid pw) =
  [ "ctrl_interface=DIR=/var/run/wpa_supplicant GROUP=netdev" +:+ PyStr.nl;
    "update_config=1" +:+ PyStr.nl;
    "country=" +:+ country +:+ PyStr.nl;
    PyStr.nl;
    "network={" +:+ PyStr.nl;
    " ssid=" +:+ PyStr.dquote +:+ PyStr.format ssid +:+ PyStr.dquote +:+ PyStr.nl;
    " psk=" +:+ PyStr.dquote +:+ PyStr.format pw +:+ PyStr.dquote +:+ PyStr.nl;
    "}" +:+ PyStr.nl ].
Proof.
  intros Hc Hs Hp. unfold make_supplicant, PyStr.file_lines.
  repeat first
    [ rewrite readlines_go_nl
    | rewrite readlines_go_nl_end
    | rewrite readlines_go_append by first [assumption | split; reflexivity] ].
  rewrite !append_assoc. reflexivity.
Qed.

Lemma make_supplicant_lines_witness :
  length (PyStr.file_lines (make_supplicant "US" (Some "Home") None)) = 8.
Proof.
  rewrite (make_supplicant_lines "US" (Some "Home") None).
  - reflexivity.
  - split; reflexivity.
  - split; reflexivity.
  - split; reflexivity.
Defined.

(** ** The comment lines of a fresh [.env] *)

(** X13.  Every line of a description, empty ones included, comes out as
    one comment line: the lines of [comment_lines desc] are the lines of
    [desc], each behind [# ]. *)
Theorem comment_lines_line_by_line (desc : string) :
  doc_lines (comment_lines desc) = map (fun l => "# " +:+ l) (doc_lines desc)
  /\ length (doc_lines (comment_lines desc)) = length (doc_lines desc).
Proof.
  assert (E : doc_lines (comment_lines desc)
              = map (fun l => "# " +:+ l) (doc_lines desc)).
  { unfold comment_lines. fold (doc_lines desc). apply doc_lines_join.
    - unfold doc_lines, PyText.split_on.
      destruct (PyText.split_on_go PyText.nl_char EmptyString desc) eqn:E;
        [now apply split_on_go_nonempty in E | discriminate].
    - apply Forall_map.
      eapply Forall_impl; [apply split_on_go_no_sep; reflexivity|].
      intros l Hl. rewrite has_char_append, Hl. reflexivity. }
  split; [exact E|]. rewrite E. apply length_map.
Qed.

(** ** The locator *)

Lemma no_sep_not_endswith d :
  has_sep d = false -> PyStr.endswith_sep d = false.
Proof.
  unfold PyStr.endswith_sep. induction d as [|c r IH]; [reflexivity|].
  simpl. intros H. apply orb_false_iff in H as [Hc Hr].
  destruct r as [|c' r']; [exact Hc | now apply IH].
Qed.

(** X14.  Where [/Volumes] can be listed, the volume [find_data_mount]
    returns is [/Volumes/<name>] for an entry name of that directory, and
    [/Volumes/<name>/.configure_me] is a file the environment lets be
    opened. *)
Theorem located_volume_under_volumes (w : world) (t : string) :
  volumes_listable w ->
  fst (find_data_mount w) = Ok t ->
  exists d,
    t = "/Volumes/" +:+ d
    /\ d <> EmptyString /\ has_sep d = false
    /\ is_Some (fs w !! t)
    /\ (exists c, fs w !! (t +:+ "/.configure_me") = Some (File c))
    /\ faults w (OpenR (t +:+ "/.configure_me")) = None.
Proof.
  intros Hv Hl. unfold find_data_mount in Hl.
  rewrite bind_unfold, (get_mounts_listable w Hv), find_data_mount_in_run in Hl.
  simpl in Hl.
  destruct (find _ _) as [x|] eqn:E; [|discriminate Hl]. injection Hl as ->.
  apply find_some in E as [Hin Hr].
  apply list_elem_of_In, elem_of_volume_paths in Hin as (d & -> & Hsome & Hd & Hs).
  exists d. repeat split; try assumption.
  - rewrite <- (flag_file_shape ("/Volumes/" +:+ d)).
    + apply is_file_lookup. now apply marker_readable_is_file in Hr.
    + discriminate.
    + unfold PyStr.endswith_sep. rewrite last_char_append by exact Hd.
      now apply no_sep_not_endswith.
  - rewrite <- (flag_file_shape ("/Volumes/" +:+ d)).
    + now apply marker_readable_true in Hr as [Hr _].
    + discriminate.
    + unfold PyStr.endswith_sep. rewrite last_char_append by exact Hd.
      now apply no_sep_not_endswith.
Qed.

Lemma located_volume_under_volumes_witness :
  exists d,
    "/Volumes/boot" = "/Volumes/" +:+ d
    /\ d <> EmptyString /\ has_sep d = false
    /\ is_Some (fs Examples.mac_host !! "/Volumes/boot")
    /\ (exists c, fs Examples.mac_host !! ("/Volumes/boot" +:+ "/.configure_me")
                  = Some (File c))
    /\ faults Examples.mac_host (OpenR ("/Volumes/boot" +:+ "/.configure_me")) = None.
Proof.
  apply (located_volume_under_volumes Examples.mac_host "/Volumes/boot").
  - split; vm_compute; reflexivity.
  - vm_compute. reflexivity.
Defined.

Lemma find_data_mount_in_locator_calls mounts :
  preserves (calls_only locator_call) (find_data_mount_in mounts).
Proof.
  intros w. rewrite find_data_mount_in_run. simpl.
  exists (map (fun m => OpenR (flag_file m)) (examined w mounts)).
  split; [reflexivity|]. apply Forall_map, Forall_forall.
  intros m _. right. now exists m.
Qed.

(** X15.  [find_data_mount] only looks: whatever its outcome it changes
    no file, and its calls are the calls of the enumeration and opens for
    reading of marker paths [flag_file m]. *)
Theorem find_data_mount_only_looks (w : world) :
  fs (snd (find_data_mount w)) = fs w
  /\ Forall locator_call (calls_of find_data_mount w).
Proof.
  split; [apply find_data_mount_same_fs|].
  assert (H : preserves (calls_only locator_call) find_data_mount).
  { unfold find_data_mount. apply preserves_bind; try apply _.
    - eapply preserves_weaken; [|apply get_mounts_enumeration_calls].
      intros a b. apply calls_only_weaken. intros c Hc. now left.
    - intros mounts. apply find_data_mount_in_locator_calls. }
  destruct (H w) as (cs & Ec & Hc). now rewrite (calls_of_eq _ _ _ Ec).
Qed.

(** ** No rollback *)

(** X17.  Nothing is rolled back: once the SSH block has returned, the key
    file stays on the volume with its full content however the rest of the
    run ends, a later block or the removal of the marker failing
    included. *)
Theorem ssh_file_survives_later_failure
    (vars : Variables) (w : world) (t : string) (w0 w1 : world) :
  find_data_mount w = (Ok t, w0) ->
  PyStr.truthy (ssh_key vars) = true ->
  configure_ssh vars t w0 = (Ok tt, w1) ->
  fs (snd (main vars w)) !! authorized_keys t =
  Some (File (PyStr.format (ssh_key vars) +:+ PyStr.nl)).
Proof.
  intros Hf Hk H1.
  pose proof (configure_ssh_Ok vars t w0 w1 Hk H1) as Hc.
  destruct (artifact_paths_distinct t t) as (D1 & _ & _ & D4 & D5 & _).
  rewrite main_unfold, Hf. unfold main_from. rewrite (bind_Ok _ _ _ _ _ H1).
  assert (P : preserves (keeps_file (authorized_keys t))
                (configure_wifi vars t;; configure_ab_flasher vars t;;
                 os_remove (path_join t CONFIG_FLAG))).
  { apply preserves_bind; try apply _;
      [apply configure_wifi_keeps_file; congruence|]. intros _.
    apply preserves_bind; try apply _.
    - eapply preserves_weaken;
        [apply keeps_keeps_file | apply configure_ab_flasher_keeps; congruence].
    - intros _. eapply preserves_weaken; [apply keeps_keeps_file|].
      apply os_remove_keeps. fold (flag_file t). congruence. }
  apply (P w1). exact Hc.
Qed.

Lemma ssh_file_survives_later_failure_witness :
  fst (main Examples.full_config Examples.mac_host_card_full) = Raise (OSError 28)
  /\ fs (snd (main Examples.full_config Examples.mac_host_card_full))
       !! authorized_keys "/Volumes/boot"
     = Some (File Examples.expected_authorized_keys).
Proof.
  split; [vm_compute; reflexivity|].
  apply (ssh_file_survives_later_failure Examples.full_config
           Examples.mac_host_card_full "/Volumes/boot"
           (snd (find_data_mount Examples.mac_host_card_full))
           (snd (configure_ssh Examples.full_config "/Volumes/boot"
                   (snd (find_data_mount Examples.mac_host_card_full))))).
  - vm_compute. reflexivity.
  - reflexivity.
  - vm_compute. reflexivity.
Defined.

(** ** The file system stays well formed *)

Lemma ancestors_go_In (acc p a : string) :
  In a (ancestors_go acc p) ->
  a <> EmptyString /\ exists s r, p = s +:+ String "/" r /\ a = acc +:+ s.
Proof.
  revert acc. induction p as [|c p IH]; intros acc; simpl; [tauto|].
  rewrite in_app_iff. intros [Hin | Hin].
  - destruct (Ascii.eqb_spec c "/") as [->|]; [|destruct Hin].
    destruct acc as [|c' acc']; [destruct Hin|].
    destruct Hin as [<- | []]. split; [discriminate|].
    exists EmptyString, p. split; [reflexivity | now rewrite append_empty_r].
  - apply IH in Hin as (Ha & s & r & -> & ->). split; [exact Ha|].
    exists (String c s), r. split; [reflexivity | apply snoc_append].
Qed.

Lemma ancestors_split (a r : string) :
  a <> EmptyString ->
  ancestors (a +:+ String "/" r) = ancestors a ++ a :: ancestors_go (a +:+ "/") r.
Proof.
  intros Ha. unfold ancestors. rewrite ancestors_go_app. f_equal. simpl.
  destruct a; [congruence | reflexivity].
Qed.

(** The directories above a directory above [p] are above [p]. *)
Lemma ancestors_above (a p : string) :
  In a (ancestors p) ->
  exists r, ancestors p = ancestors a ++ a :: ancestors_go (a +:+ "/") r.
Proof.
  intros Hin. apply ancestors_go_In in Hin as (Ha & s & r & -> & ->).
  exists r. now apply ancestors_split.
Qed.

Lemma parent_ancestors (p d : string) :
  parent p = Some d -> ancestors p = ancestors d ++ [d].
Proof.
  unfold parent. intros Hl.
  assert (Hin : In d (ancestors p)) by now apply list_elem_of_In, last_Some_elem_of.
  apply ancestors_above in Hin as [r E]. rewrite E in Hl |- *. f_equal. f_equal.
  destruct (ancestors_go (d +:+ "/") r) as [|x R] eqn:ER; [reflexivity|].
  exfalso. rewrite last_app, last_cons_cons in Hl.
  destruct (last (x :: R)) as [y|] eqn:Ey; [|apply last_None in Ey; discriminate Ey].
  injection Hl as ->. apply last_Some_elem_of, list_elem_of_In in Ey.
  rewrite <- ER in Ey. apply ancestors_go_shorter in Ey as Hlen.
  apply ancestors_go_In in Ey as (_ & s & _ & _ & Es).
  apply (f_equal String.length) in Es. rewrite !length_append in Es. simpl in Es. lia.
Qed.

Lemma parent_None (p : string) : parent p = None -> ancestors p = [].
Proof. unfold parent. apply last_None. Qed.

Lemma mkdirs_present (l : list string) (m : gmap string node) (q : string) :
  In q l -> is_Some (foldr mkdir_missing m l !! q).
Proof.
  induction l as [|a l IH]; simpl; [tauto|].
  set (m' := foldr mkdir_missing m l) in *. unfold mkdir_missing.
  intros [-> | Hin].
  - destruct (m' !! q) eqn:E; [now rewrite E | rewrite lookup_insert_eq; eauto].
  - specialize (IH Hin). destruct (m' !! a) eqn:E; [exact IH|].
    rewrite lookup_insert_ne; [exact IH|]. intros ->. rewrite E in IH.
    now destruct IH.
Qed.

Lemma mkdirs_made (l : list string) (m : gmap string node) (q : string) :
  In q l -> is_file m q = false -> foldr mkdir_missing m l !! q = Some Dir.
Proof.
  intros Hin Hf. destruct (mkdirs_present l m q Hin) as [[c|] E]; [|exact E].
  rewrite <- (mkdirs_is_file l m q) in Hf. unfold is_file in Hf.
  rewrite E in Hf. discriminate Hf.
Qed.

#[global] Instance keeps_well_formed_refl : Reflexive keeps_well_formed.
Proof. intros w H. exact H. Qed.
#[global] Instance keeps_well_formed_trans : Transitive keeps_well_formed.
Proof. unfold keeps_well_formed. intros a b c H1 H2 H. auto. Qed.

Lemma well_formed_log c w : keeps_well_formed w (log_call c w).
Proof. intros H. exact H. Qed.

Lemma makedirs_well_formed p : preserves keeps_well_formed (makedirs p).
Proof.
  unfold makedirs, oscall_with. prim_cases w p; try (intros H; exact H).
  destruct (existsb (is_file (fs w)) (ancestors p)) eqn:Ex; simpl;
    [intros H; exact H|].
  intros Hwf q n Hq.
  change (foldr mkdir_missing (fs w) (p :: ancestors p) !! q = Some n) in Hq.
  change (Forall (fun a => foldr mkdir_missing (fs w) (p :: ancestors p) !! a
                           = Some Dir) (ancestors q)).
  set (l := p :: ancestors p) in *.
  assert (Hmade : forall b, In b (ancestors p) ->
                    foldr mkdir_missing (fs w) l !! b = Some Dir).
  { intros b Hb. apply mkdirs_made; [now right|].
    destruct (is_file (fs w) b) eqn:Eb; [|reflexivity].
    assert (existsb (is_file (fs w)) (ancestors p) = true)
      by (apply existsb_exists; eauto).
    congruence. }
  apply Forall_forall. intros a Ha. apply list_elem_of_In in Ha.
  destruct (mkdirs_lookup_cases l (fs w) q) as [E | (_ & Hin & _)].
  - rewrite E in Hq. apply Hwf in Hq. rewrite Forall_forall in Hq.
    apply mkdirs_lookup_Some, Hq. now apply list_elem_of_In.
  - apply Hmade. destruct Hin as [<- | Hin]; [exact Ha|].
    apply ancestors_above in Hin as [r ->]. apply in_app_iff. now left.
Qed.

(** Putting a file where a file was, or where nothing was and the
    directories above are in place. *)
Lemma well_formed_insert_file (m : gmap string node) (p c : string) :
  well_formed m -> m !! p <> Some Dir ->
  Forall (fun a => m !! a = Some Dir) (ancestors p) ->
  well_formed (<[p := File c]> m).
Proof.
  intros Hwf Hp Ha q n Hq.
  assert (Hq' : Forall (fun a => m !! a = Some Dir) (ancestors q)).
  { destruct (decide (p = q)) as [<-|Hne]; [exact Ha|].
    rewrite lookup_insert_ne in Hq by exact Hne. exact (Hwf q n Hq). }
  rewrite Forall_forall in Hq' |- *. intros a Hin. specialize (Hq' a Hin).
  rewrite lookup_insert_ne; [exact Hq' | congruence].
Qed.

Lemma open_w_well_formed p : preserves keeps_well_formed (open_w p).
Proof.
  unfold open_w, oscall_with. intros w. simpl.
  destruct (faults w (OpenW p)); simpl; [intros H; exact H|].
  destruct (fs w !! p) as [[c|]|] eqn:E; simpl; try (intros H; exact H).
  - intros Hwf. apply well_formed_insert_file; [exact Hwf | simpl; congruence|]; simpl.
    exact (Hwf p _ E).
  - destruct (blocked (fs w) p); simpl; [intros H; exact H|].
    destruct (parent p) as [d|] eqn:Ep; simpl.
    + unfold is_dir. destruct (fs w !! d) as [[c|]|] eqn:Ed; simpl;
        try (intros H; exact H).
      intros Hwf. apply well_formed_insert_file; [exact Hwf | simpl; congruence|]; simpl.
      rewrite (parent_ancestors p d Ep). apply Forall_app. split.
      * exact (Hwf d _ Ed).
      * repeat constructor. exact Ed.
    + intros Hwf. apply well_formed_insert_file; [exact Hwf | simpl; congruence|]; simpl.
      rewrite (parent_None p Ep). constructor.
Qed.

Lemma write_well_formed p data : preserves keeps_well_formed (write p data).
Proof.
  unfold write, oscall_with. intros w. simpl.
  destruct (faults w (Write p data)); simpl; [intros H; exact H|].
  destruct (fs w !! p) as [[c|]|] eqn:E; simpl; try (intros H; exact H).
  intros Hwf. apply well_formed_insert_file; [exact Hwf | simpl; congruence|]; simpl.
  exact (Hwf p _ E).
Qed.

Lemma os_remove_well_formed p : preserves keeps_well_formed (os_remove p).
Proof.
  unfold os_remove, oscall_with. intros w. simpl.
  destruct (faults w (Remove p)); simpl; [intros H; exact H|].
  destruct (fs w !! p) as [[c|]|] eqn:E; simpl; try (intros H; exact H).
  intros Hwf q n Hq. simpl in Hq |- *.
  destruct (decide (p = q)) as [<-|Hne]; [now rewrite lookup_delete_eq in Hq|].
  rewrite lookup_delete_ne in Hq by exact Hne.
  pose proof (Hwf q n Hq) as Ha. rewrite Forall_forall in Ha |- *.
  intros a Hin. specialize (Ha a Hin).
  rewrite lookup_delete_ne; [exact Ha | congruence].
Qed.

Lemma write_block_well_formed d f data :
  preserves keeps_well_formed (write_block d f data).
Proof.
  unfold write_block.
  apply preserves_bind; try apply _; [apply makedirs_well_formed|]. intros _.
  apply preserves_bind; try apply _; [apply open_w_well_formed|].
  intros _. apply write_well_formed.
Qed.

Lemma write_artifacts_well_formed vars t :
  preserves keeps_well_formed (write_artifacts vars t).
Proof.
  unfold write_artifacts.
  apply preserves_bind; try apply _.
  { eapply preserves_ext; [intros ?; apply configure_ssh_eq|].
    destruct (PyStr.truthy _);
      [apply write_block_well_formed | apply preserves_ret; apply _]. }
  intros _. apply preserves_bind; try apply _.
  { eapply preserves_ext; [intros ?; apply configure_wifi_eq|].
    destruct (PyStr.truthy _);
      [apply write_block_well_formed | apply preserves_ret; apply _]. }
  intros _. rewrite configure_ab_flasher_eq.
  apply preserves_bind; try apply _; [apply open_w_well_formed|]. intros _.
  apply preserves_bind; try apply _; [apply write_well_formed|]. intros _.
  apply preserves_bind; try apply _; [apply write_well_formed|]. intros _.
  apply write_well_formed.
Qed.

(** Whatever a run does and however it ends, it leaves a well-formed file
    system well formed. *)
Lemma main_well_formed vars : preserves keeps_well_formed (main vars).
Proof.
  apply main_preserves; try apply _.
  - apply find_data_mount_preserves; try apply _; intros p.
    + apply listdir_preserves; first [exact well_formed_log | apply _].
    + apply open_r_preserves; first [exact well_formed_log | apply _].
    + apply readlines_preserves; first [exact well_formed_log | apply _].
  - intros t. apply write_artifacts_well_formed.
  - intros t. apply os_remove_well_formed.
Qed.
